(** * Web-Search-MCP: the search and extraction core, embedded in Rocq

    The development follows the compiled JavaScript of the repository:
    [rate-limiter.js], [browser-pool.js] and [search-engine.js].

    Conventions of the embedding.
    - A JavaScript string is the [string] of the bytes of its UTF-8 form;
      lengths are counted in bytes and the character classes of the regular
      expressions, of [trim] and of [toLowerCase] are the ASCII ones.
    - A JavaScript number that holds a time or a counter is a [Z].  A quality
      score is the rational number [Q] that the IEEE double is: every
      division, multiplication, addition and subtraction of the scorer is the
      exact operation followed by the rounding to the nearest double.
    - Asynchronous code is written in state-passing style.  What the outside
      world answers (an engine's result, a browser launch, a health check,
      the clock) is an explicit argument.
    - A [Map] is an association list in insertion order. *)

From Stdlib Require Import ZArith QArith Qminmax Qround Qabs Qpower List String Ascii Bool Arith Lia Lqa.
Import ListNotations.

Set Implicit Arguments.
Close Scope Q_scope.

(* ================================================================== *)
(** * Part I: the model                                                 *)
(* ================================================================== *)

(** ** JavaScript strings and the platform functions the code calls *)

Module Js.
Local Open Scope string_scope.
Local Open Scope bool_scope.

(** [s.startsWith(p)] *)
Definition startsWith (s p : string) : bool := String.prefix p s.

(** [s.includes(p)] *)
Fixpoint includes (s p : string) : bool :=
  String.prefix p s
  || match s with
     | EmptyString => false
     | String _ rest => includes rest p
     end.

(** A string in a condition: the empty string is falsy. *)
Definition truthy (s : string) : bool := negb (String.eqb s "").

(** [s.substring(n)] *)
Fixpoint drop (n : nat) (s : string) : string :=
  match n, s with
  | O, _ => s
  | S _, EmptyString => EmptyString
  | S m, String _ rest => drop m rest
  end.

(** [s.substring(0, n)] *)
Fixpoint take (n : nat) (s : string) : string :=
  match n, s with
  | O, _ => EmptyString
  | S _, EmptyString => EmptyString
  | S m, String c rest => String c (take m rest)
  end.

Fixpoint mapChars (f : ascii -> ascii) (s : string) : string :=
  match s with
  | EmptyString => EmptyString
  | String c rest => String (f c) (mapChars f rest)
  end.

Fixpoint takeWhile (p : ascii -> bool) (s : string) : string :=
  match s with
  | EmptyString => EmptyString
  | String c rest => if p c then String c (takeWhile p rest) else EmptyString
  end.

Fixpoint dropWhile (p : ascii -> bool) (s : string) : string :=
  match s with
  | EmptyString => EmptyString
  | String c rest => if p c then dropWhile p rest else s
  end.

Definition between (lo hi : nat) (c : ascii) : bool :=
  (lo <=? nat_of_ascii c)%nat && (nat_of_ascii c <=? hi)%nat.

Definition isUpper : ascii -> bool := between 65 90.
Definition isLower : ascii -> bool := between 97 122.
Definition isDigit : ascii -> bool := between 48 57.

(** [\w] *)
Definition isWord (c : ascii) : bool :=
  isUpper c || isLower c || isDigit c || Ascii.eqb c "_".

(** [\s]: space, tab, line feed, vertical tab, form feed, carriage return. *)
Definition isSpace (c : ascii) : bool :=
  Ascii.eqb c " " || between 9 13 c.

Definition lowerChar (c : ascii) : ascii :=
  if isUpper c then ascii_of_nat (nat_of_ascii c + 32) else c.

(** [s.toLowerCase()] *)
Definition toLowerCase : string -> string := mapChars lowerChar.

Definition trimStart : string -> string := dropWhile isSpace.

Fixpoint trimEnd (s : string) : string :=
  match s with
  | EmptyString => EmptyString
  | String c rest =>
      let r := trimEnd rest in
      if isSpace c && String.eqb r "" then EmptyString else String c r
  end.

(** [s.trim()] *)
Definition trim (s : string) : string := trimEnd (trimStart s).

(** [s.split(c)] for a one-character separator: never the empty list. *)
Fixpoint splitOn (sep : ascii) (cur s : string) : list string :=
  match s with
  | EmptyString => [cur]
  | String c rest =>
      if Ascii.eqb c sep then cur :: splitOn sep "" rest
      else splitOn sep (cur ++ String c "") rest
  end.

Definition split (sep : ascii) (s : string) : list string := splitOn sep "" s.

(** [s.split(/\s+/)]: a run of white space is one separator. *)
Fixpoint splitSpaces (cur : string) (inRun : bool) (s : string) : list string :=
  match s with
  | EmptyString => [cur]
  | String c rest =>
      if isSpace c
      then if inRun then splitSpaces cur true rest
           else cur :: splitSpaces "" true rest
      else splitSpaces (cur ++ String c "") false rest
  end.

Definition splitWhitespace (s : string) : list string := splitSpaces "" false s.

(** [xs.join(sep)] *)
Fixpoint join (sep : string) (xs : list string) : string :=
  match xs with
  | [] => ""
  | [x] => x
  | x :: rest => x ++ sep ++ join sep rest
  end.

(** [xs.slice(i, j)] *)
Definition slice {A : Type} (i j : nat) (xs : list A) : list A :=
  firstn (j - i) (skipn i xs).

(** [c.repeat(n)] *)
Fixpoint repeatChar (c : ascii) (n : nat) : string :=
  match n with
  | O => ""
  | S m => String c (repeatChar c m)
  end.

(** The suffix after the first [c]; the whole string when there is none
    ([s.substring(s.indexOf(c) + 1)], with [indexOf] giving -1). *)
Fixpoint afterFirst (c : ascii) (whole s : string) : string :=
  match s with
  | EmptyString => whole
  | String d rest => if Ascii.eqb d c then rest else afterFirst c whole rest
  end.

(** *** UTF-8

    A [string] holds the bytes of the UTF-8 form of the JavaScript string it
    stands for. *)

Definition byte (c : ascii) : nat := nat_of_ascii c.

Definition inRange (lo hi : nat) (c : ascii) : bool :=
  (lo <=? byte c)%nat && (byte c <=? hi)%nat.

(** A byte [10xxxxxx]. *)
Definition continuation : ascii -> bool := inRange 128 191.

(** The well-formed sequences of more than one byte, by their first byte:
    how many bytes follow, and the range of the first of them (the others
    are continuation bytes).  This leaves out the overlong forms, the
    surrogates and what lies beyond U+10FFFF. *)
Definition utf8Lead (b : nat) : option (nat * nat * nat) :=
  if (194 <=? b)%nat && (b <=? 223)%nat then Some (1, 128, 191)
  else if (b =? 224)%nat then Some (2, 160, 191)
  else if (b =? 237)%nat then Some (2, 128, 159)
  else if (225 <=? b)%nat && (b <=? 239)%nat then Some (2, 128, 191)
  else if (b =? 240)%nat then Some (3, 144, 191)
  else if (b =? 244)%nat then Some (3, 128, 143)
  else if (241 <=? b)%nat && (b <=? 243)%nat then Some (3, 128, 191)
  else None.

(** U+FFFD, the replacement character. *)
Definition replacement : string :=
  String (ascii_of_nat 239) (String (ascii_of_nat 191) (String (ascii_of_nat 189) "")).

(** Decoding bytes as UTF-8 the way [URLSearchParams] and
    [buffer.toString('utf-8')] do: a well-formed sequence is kept, and U+FFFD
    stands for every byte, or begun sequence, that is not one; the byte that
    breaks a begun sequence is read again. *)
Fixpoint utf8Decode (s : string) : string :=
  match s with
  | EmptyString => EmptyString
  | String c rest =>
      if (byte c <? 128)%nat then String c (utf8Decode rest)
      else
        match utf8Lead (byte c) with
        | None => replacement ++ utf8Decode rest
        | Some (more, lo, hi) =>
            match rest with
            | EmptyString => replacement
            | String c1 rest1 =>
                if inRange lo hi c1 then
                  match more with
                  | 1%nat => String c (String c1 (utf8Decode rest1))
                  | _ =>
                      match rest1 with
                      | EmptyString => replacement
                      | String c2 rest2 =>
                          if continuation c2 then
                            match more with
                            | 2%nat => String c (String c1 (String c2 (utf8Decode rest2)))
                            | _ =>
                                match rest2 with
                                | EmptyString => replacement
                                | String c3 rest3 =>
                                    if continuation c3
                                    then String c (String c1 (String c2
                                           (String c3 (utf8Decode rest3))))
                                    else replacement ++ utf8Decode rest2
                                end
                            end
                          else replacement ++ utf8Decode rest1
                      end
                  end
                else replacement ++ utf8Decode rest
            end
        end
  end.

(** The strings that are well-formed UTF-8: those that stand for a
    JavaScript string without lone surrogates. *)
Fixpoint wellFormed (s : string) : bool :=
  match s with
  | EmptyString => true
  | String c rest =>
      if (byte c <? 128)%nat then wellFormed rest
      else
        match utf8Lead (byte c) with
        | None => false
        | Some (more, lo, hi) =>
            match rest with
            | EmptyString => false
            | String c1 rest1 =>
                inRange lo hi c1
                && match more with
                   | 1%nat => wellFormed rest1
                   | _ =>
                       match rest1 with
                       | EmptyString => false
                       | String c2 rest2 =>
                           continuation c2
                           && match more with
                              | 2%nat => wellFormed rest2
                              | _ =>
                                  match rest2 with
                                  | EmptyString => false
                                  | String c3 rest3 =>
                                      continuation c3 && wellFormed rest3
                                  end
                              end
                       end
                   end
            end
        end
  end.

(** Only bytes below 128. *)
Fixpoint isAscii (s : string) : bool :=
  match s with
  | EmptyString => true
  | String c rest => (byte c <? 128)%nat && isAscii rest
  end.

(** *** Percent escapes *)

Definition hexValue (c : ascii) : option nat :=
  let n := nat_of_ascii c in
  if isDigit c then Some (n - 48)
  else if between 65 70 c then Some (n - 55)
  else if between 97 102 c then Some (n - 87)
  else None.

(** Percent-decoding of bytes: a [%] that two hexadecimal digits do not
    follow is kept. *)
Fixpoint percentDecodeBytes (s : string) : string :=
  match s with
  | EmptyString => EmptyString
  | String c rest =>
      if Ascii.eqb c "%" then
        match rest with
        | String a (String b tail) =>
            match hexValue a, hexValue b with
            | Some x, Some y => String (ascii_of_nat (16 * x + y)) (percentDecodeBytes tail)
            | _, _ => String c (percentDecodeBytes rest)
            end
        | _ => String c (percentDecodeBytes rest)
        end
      else String c (percentDecodeBytes rest)
  end.

(** The decoder of [URLSearchParams]: percent-decoding, then the bytes read
    as UTF-8. *)
Definition percentDecode (s : string) : string := utf8Decode (percentDecodeBytes s).

(** [decodeURIComponent], in two passes.  First the escapes: [None] is the
    [URIError] for a [%] that two hexadecimal digits do not follow. *)
Inductive token :=
| Plain (c : ascii)
| Escaped (b : nat).

Fixpoint tokens (s : string) : option (list token) :=
  match s with
  | EmptyString => Some []
  | String c rest =>
      if Ascii.eqb c "%" then
        match rest with
        | String a (String b tail) =>
            match hexValue a, hexValue b, tokens tail with
            | Some x, Some y, Some ts => Some (Escaped (16 * x + y) :: ts)
            | _, _, _ => None
            end
        | _ => None
        end
      else option_map (cons (Plain c)) (tokens rest)
  end.

Definition bytesToString (bs : list nat) : string :=
  fold_right (fun b acc => String (ascii_of_nat b) acc) "" bs.

(** Then the bytes: an escaped byte above 127 must begin a well-formed
    UTF-8 sequence, all of it written as escapes; [None] is the [URIError]
    for anything else. *)
Fixpoint decodeTokens (ts : list token) : option string :=
  match ts with
  | [] => Some ""
  | Plain c :: rest => option_map (String c) (decodeTokens rest)
  | Escaped b :: rest =>
      if (b <? 128)%nat then option_map (String (ascii_of_nat b)) (decodeTokens rest)
      else
        match utf8Lead b with
        | None => None
        | Some (more, lo, hi) =>
            match rest with
            | Escaped b1 :: rest1 =>
                if (lo <=? b1)%nat && (b1 <=? hi)%nat then
                  match more with
                  | 1%nat =>
                      option_map (append (bytesToString [b; b1])) (decodeTokens rest1)
                  | _ =>
                      match rest1 with
                      | Escaped b2 :: rest2 =>
                          if (128 <=? b2)%nat && (b2 <=? 191)%nat then
                            match more with
                            | 2%nat =>
                                option_map (append (bytesToString [b; b1; b2]))
                                           (decodeTokens rest2)
                            | _ =>
                                match rest2 with
                                | Escaped b3 :: rest3 =>
                                    if (128 <=? b3)%nat && (b3 <=? 191)%nat
                                    then option_map
                                           (append (bytesToString [b; b1; b2; b3]))
                                           (decodeTokens rest3)
                                    else None
                                | _ => None
                                end
                            end
                          else None
                      | _ => None
                      end
                  end
                else None
            | _ => None
            end
        end
  end.

Definition decodeURIComponent (s : string) : option string :=
  match tokens s with
  | Some ts => decodeTokens ts
  | None => None
  end.

(** *** URLSearchParams *)

Definition plusToSpace : string -> string :=
  mapChars (fun c => if Ascii.eqb c "+" then " "%char else c).

Definition parsePair (s : string) : string * string :=
  let name := takeWhile (fun c => negb (Ascii.eqb c "=")) s in
  let value := drop (S (String.length name)) s in
  (percentDecode (plusToSpace name), percentDecode (plusToSpace value)).

(** [new URLSearchParams(s)] *)
Definition URLSearchParams (s : string) : list (string * string) :=
  let body := if startsWith s "?" then drop 1 s else s in
  map parsePair (filter truthy (split "&" body)).

(** [params.get(name)]: the first value under [name], or [null]. *)
Fixpoint get (name : string) (params : list (string * string)) : option string :=
  match params with
  | [] => None
  | (k, v) :: rest => if String.eqb k name then Some v else get name rest
  end.

(** [a || b] on values that may be [null] or empty. *)
Definition orElse (a b : option string) : option string :=
  match a with
  | Some v => if truthy v then a else b
  | None => b
  end.

(** *** Base64, as [Buffer.from(s, 'base64').toString('utf-8')] reads a
    text in ASCII: both alphabets; a character outside them is skipped, but
    [=] ends the decoding; no error.  The bytes are then read as UTF-8. *)

Definition unbase64 (c : ascii) : option nat :=
  let n := nat_of_ascii c in
  if isUpper c then Some (n - 65)
  else if isLower c then Some (n - 71)
  else if isDigit c then Some (n + 4)
  else if Ascii.eqb c "+" || Ascii.eqb c "-" then Some 62
  else if Ascii.eqb c "/" || Ascii.eqb c "_" then Some 63
  else None.

Fixpoint sextets (s : string) : list nat :=
  match s with
  | EmptyString => []
  | String c rest =>
      if Ascii.eqb c "=" then []
      else
        match unbase64 c with
        | Some v => v :: sextets rest
        | None => sextets rest
        end
  end.

Fixpoint bytesOfSextets (fuel : nat) (v : list nat) : string :=
  match fuel with
  | O => ""
  | S fuel' =>
      match v with
      | a :: b :: c :: d :: rest =>
          String (ascii_of_nat (a * 4 + b / 16))
            (String (ascii_of_nat ((b mod 16) * 16 + c / 4))
               (String (ascii_of_nat ((c mod 4) * 64 + d))
                  (bytesOfSextets fuel' rest)))
      | [a; b; c] =>
          String (ascii_of_nat (a * 4 + b / 16))
            (String (ascii_of_nat ((b mod 16) * 16 + c / 4)) "")
      | [a; b] => String (ascii_of_nat (a * 4 + b / 16)) ""
      | _ => ""
      end
  end.

Definition base64Decode (s : string) : string :=
  let v := sextets s in utf8Decode (bytesOfSextets (S (List.length v)) v).
End Js.

(** ** A [Map] with string keys: entries in insertion order *)

Module JsMap.
Section WithValue.
Variable V : Type.

Definition t := list (string * V).

Fixpoint get (k : string) (m : t) : option V :=
  match m with
  | [] => None
  | (k', v) :: rest => if String.eqb k' k then Some v else get k rest
  end.

Definition has (k : string) (m : t) : bool :=
  match get k m with Some _ => true | None => false end.

(** [m.set(k, v)]: a present key keeps its place, a new key goes last. *)
Fixpoint set (k : string) (v : V) (m : t) : t :=
  match m with
  | [] => [(k, v)]
  | (k', v') :: rest =>
      if String.eqb k' k then (k, v) :: rest else (k', v') :: set k v rest
  end.

Definition delete (k : string) (m : t) : t :=
  filter (fun e => negb (String.eqb (fst e) k)) m.

Definition size (m : t) : nat := List.length m.

(** [m.entries().next().value] *)
Definition first (m : t) : option (string * V) := hd_error m.

Definition keys (m : t) : list string := map fst m.
Definition values (m : t) : list V := map snd m.
End WithValue.
End JsMap.

(** ** IEEE 754 doubles, as the rational numbers they are *)

Module Double.
Local Open Scope Q_scope.

(** [2^e] *)
Definition pow2 (e : Z) : Q := 2 ^ e.

(** For a positive [x], the exponent [e] with [2^e <= x < 2^(e+1)]. *)
Definition binade (x : Q) : Z :=
  let e0 := (Z.log2 (Qnum x) - Z.log2 (Zpos (Qden x)))%Z in
  if Qle_bool (pow2 e0) x then e0 else (e0 - 1)%Z.

(** The nearest integer, the even one of two that are equally near. *)
Definition nearestEven (x : Q) : Z :=
  let f := Qfloor x in
  match Qcompare (x - inject_Z f) (1 # 2) with
  | Lt => f
  | Gt => (f + 1)%Z
  | Eq => if Z.even f then f else (f + 1)%Z
  end.

(** The exponent of the spacing of the binary64 numbers around [x]: 53
    significant bits, and nothing finer than [2^-1074]. *)
Definition ulpExponent (x : Q) : Z := Z.max (binade (Qabs x) - 52) (-1074).

(** [x] rounded to the nearest binary64 number, ties to even. *)
Definition round (x : Q) : Q :=
  let y := Qred x in
  let u := pow2 (ulpExponent y) in
  inject_Z (nearestEven (y / u)) * u.

(** The operations of IEEE 754 on numbers that stay away from the
    overflow, as those of the scorer do: they are at most [2^53]. *)
Definition add (x y : Q) : Q := round (x + y).
Definition sub (x y : Q) : Q := round (x - y).
Definition mul (x y : Q) : Q := round (x * y).
Definition div (x y : Q) : Q := round (x / y).

(** A decimal literal of the source text. *)
Definition literal (q : Q) : Q := round q.
End Double.

(** ** browser-pool.js *)

Module BrowserPool.
(** A launched browser process, named by the order of launch. *)
Definition Browser := nat.

Record t := mk {
  browsers : JsMap.t Browser;
  maxBrowsers : Z;
  browserTypes : list string;
  currentBrowserIndex : nat;
  lastUsedBrowserType : string;
  closeCalls : list Browser      (* every [browser.close()] so far *)
}.

Definition new (maxBrowsers : Z) (browserTypes : list string) : t :=
  mk [] maxBrowsers browserTypes 0 "" [].

(** What the cached browser answers to the health check of lines 26-47. *)
Inductive health :=
| Healthy          (* connected, the throwaway context opens and closes *)
| NotConnected     (* [isConnected()] is false *)
| CheckThrows.     (* [isConnected] or the throwaway context throws *)

Record world := mkWorld {
  probe : health;
  launch : option Browser      (* [None]: [launch] throws *)
}.

Inductive outcome :=
| Returns (b : Browser)
| Throws.

(** [browserTypes[currentBrowserIndex % browserTypes.length]] *)
Definition pick (s : t) : string :=
  nth (currentBrowserIndex s mod List.length (browserTypes s))
      (browserTypes s) "undefined"%string.

Definition withBrowsers (m : JsMap.t Browser) (closed : list Browser) (s : t) : t :=
  mk m (maxBrowsers s) (browserTypes s) (currentBrowserIndex s)
     (lastUsedBrowserType s) (closeCalls s ++ closed).

(** Lines 49-103: launch, cache, evict. *)
Definition launchNew (w : world) (browserType : string) (s : t) : outcome * t :=
  match launch w with
  | None => (Throws, s)
  | Some browser =>
      let m := JsMap.set browserType browser (browsers s) in
      if (maxBrowsers s <? Z.of_nat (JsMap.size m))%Z then
        match JsMap.first m with
        | Some (oldestType, oldestBrowser) =>
            (Returns browser,
             withBrowsers (JsMap.delete oldestType m) [oldestBrowser] s)
        | None => (Returns browser, withBrowsers m [] s)
        end
      else (Returns browser, withBrowsers m [] s)
  end.

(** Lines 18-48: the rotation and the health check of a cached browser.
    [inl]: the cached browser is returned.  [inr]: a launch follows, for the
    given type, from the given state. *)
Definition healthCheck (w : world) (s : t) : (Browser * t) + (string * t) :=
  let browserType := pick s in
  let s1 := mk (browsers s) (maxBrowsers s) (browserTypes s)
               (S (currentBrowserIndex s)) browserType (closeCalls s) in
  match JsMap.get browserType (browsers s1) with
  | Some browser =>
      match probe w with
      | Healthy => inl (browser, s1)
      | NotConnected => inr (browserType, s1)
      | CheckThrows =>
          inr (browserType,
               withBrowsers (JsMap.delete browserType (browsers s1)) [browser] s1)
      end
  | None => inr (browserType, s1)
  end.

Definition getBrowser (w : world) (s : t) : outcome * t :=
  match healthCheck w s with
  | inl (browser, s1) => (Returns browser, s1)
  | inr (browserType, s1) => launchNew w browserType s1
  end.

Definition closeAll (s : t) : t :=
  withBrowsers [] (JsMap.values (browsers s)) s.

Definition getLastUsedBrowserType (s : t) : string := lastUsedBrowserType s.

(** The states a pool goes through. *)
Inductive reachable (maxB : Z) (types : list string) : t -> Prop :=
| reach_new : reachable maxB types (new maxB types)
| reach_getBrowser w s :
    reachable maxB types s -> reachable maxB types (snd (getBrowser w s))
| reach_closeAll s :
    reachable maxB types s -> reachable maxB types (closeAll s).

(** The cache holds distinct browser types, at most [maxBrowsers] of them. *)
Definition bounded (s : t) : Prop :=
  NoDup (JsMap.keys (browsers s))
  /\ (Z.of_nat (JsMap.size (browsers s)) <= maxBrowsers s)%Z.

(** *** [getBrowser], from one [await] to the next

    [getBrowser] above is a call that nothing interrupts.  The method
    suspends at lines 30, 33, 42, 73-82 and 90, and other calls on the same
    pool may run in between.  Here a call is cut at its [await]s. *)

(** Where a call is suspended, with the local variables it still needs. *)
Inductive pending :=
| AtNewContext (browserType : string) (browser : Browser)     (* line 30 *)
| AtContextClose (browserType : string) (browser : Browser)   (* line 33 *)
| AtUnhealthyClose (browserType : string)                     (* line 42 *)
| AtLaunch (browserType : string)                             (* lines 73-82 *)
| AtOldestClose (browser : Browser) (oldestType : string)     (* line 90 *)
| Finished (o : outcome).

(** How the awaited promise settles. *)
Inductive answer :=
| Fulfilled
| FulfilledWith (browser : Browser)    (* a launch *)
| Rejected.

(** Lines 37-42: the [catch] of the health check, up to its [await]. *)
Definition unhealthy (browserType : string) (browser : Browser) (s : t) : pending * t :=
  (AtUnhealthyClose browserType,
   withBrowsers (JsMap.delete browserType (browsers s)) [browser] s).

(** Lines 18-30 and 49-82: from the call to its first [await].
    [connected] is what [isConnected()] answers, [None] when it throws. *)
Definition begin (connected : option bool) (s : t) : pending * t :=
  let browserType := pick s in
  let s1 := mk (browsers s) (maxBrowsers s) (browserTypes s)
               (S (currentBrowserIndex s)) browserType (closeCalls s) in
  match JsMap.get browserType (browsers s1) with
  | Some browser =>
      match connected with
      | Some true => (AtNewContext browserType browser, s1)
      | Some false => (AtLaunch browserType, s1)
      | None => unhealthy browserType browser s1
      end
  | None => (AtLaunch browserType, s1)
  end.

(** From one [await] to the next, or to the end of the call.  [None]: the
    answer is not one that this [await] can get. *)
Definition resume (a : answer) (p : pending) (s : t) : option (pending * t) :=
  match p, a with
  | AtNewContext browserType browser, Fulfilled =>
      Some (AtContextClose browserType browser, s)
  | AtNewContext browserType browser, Rejected => Some (unhealthy browserType browser s)
  | AtContextClose browserType browser, Fulfilled => Some (Finished (Returns browser), s)
  | AtContextClose browserType browser, Rejected => Some (unhealthy browserType browser s)
  | AtUnhealthyClose browserType, Fulfilled => Some (AtLaunch browserType, s)
  | AtUnhealthyClose browserType, Rejected => Some (AtLaunch browserType, s)
  | AtLaunch browserType, FulfilledWith browser =>
      let m := JsMap.set browserType browser (browsers s) in
      if (maxBrowsers s <? Z.of_nat (JsMap.size m))%Z then
        match JsMap.first m with
        | Some (oldestType, oldestBrowser) =>
            Some (AtOldestClose browser oldestType, withBrowsers m [oldestBrowser] s)
        | None => Some (Finished (Returns browser), withBrowsers m [] s)
        end
      else Some (Finished (Returns browser), withBrowsers m [] s)
  | AtLaunch browserType, Rejected => Some (Finished Throws, s)
  | AtOldestClose browser oldestType, Fulfilled =>
      Some (Finished (Returns browser),
            withBrowsers (JsMap.delete oldestType (browsers s)) [] s)
  | AtOldestClose browser oldestType, Rejected =>
      Some (Finished (Returns browser),
            withBrowsers (JsMap.delete oldestType (browsers s)) [] s)
  | _, _ => None
  end.

(** The pool and the calls made on it so far, in the order of their start. *)
Definition system : Type := t * list pending.

Inductive event :=
| Call (connected : option bool)        (* a caller enters [getBrowser] *)
| Settle (call : nat) (a : answer).     (* the promise that a call awaits settles *)

Fixpoint setNth {A : Type} (i : nat) (x : A) (xs : list A) : list A :=
  match xs, i with
  | [], _ => []
  | _ :: rest, O => x :: rest
  | y :: rest, S j => y :: setNth j x rest
  end.

Definition step (e : event) (sys : system) : option system :=
  match e with
  | Call connected =>
      let (p, s) := begin connected (fst sys) in Some (s, (snd sys ++ [p])%list)
  | Settle call a =>
      match nth_error (snd sys) call with
      | Some p =>
          match resume a p (fst sys) with
          | Some (p', s) => Some (s, setNth call p' (snd sys))
          | None => None
          end
      | None => None
      end
  end.

Fixpoint run (events : list event) (sys : system) : option system :=
  match events with
  | [] => Some sys
  | e :: rest =>
      match step e sys with
      | Some sys1 => run rest sys1
      | None => None
      end
  end.

(** One call from its start to its end, with nothing in between. *)
Definition alone (connected : option bool) (answers : list answer) : list event :=
  Call connected :: map (Settle 0) answers.
End BrowserPool.

(** ** rate-limiter.js *)

Module RateLimiter.
Local Open Scope Z_scope.

Record t := mk {
  requestCount : Z;
  lastResetTime : Z;
  maxRequestsPerMinute : Z
}.

Definition resetIntervalMs : Z := 60000.

(** [pLimit(5)]: at most five callbacks in flight, the others queue in
    submission order. *)
Definition concurrency : nat := 5.

(** The constructor, run at instant [now]. *)
Definition new (maxPerMinute now : Z) : t := mk 0 now maxPerMinute.

(** [Math.ceil(a / b)] for a positive [b]. *)
Definition ceil_div (a b : Z) : Z := - ((- a) / b).

(** Lines 14-18: the window rolls over when it is a minute old. *)
Definition roll (now : Z) (s : t) : t :=
  if resetIntervalMs <=? now - lastResetTime s
  then mk 0 now (maxRequestsPerMinute s)
  else s.

Inductive gate :=
| Pass (s : t)
| Exceeded (waitSeconds : Z) (s : t).

(** Lines 14-23: the synchronous prefix of [execute].  [Exceeded w] is the
    thrown [Error("Rate limit exceeded. Please wait w seconds.")]. *)
Definition check (now : Z) (s : t) : gate :=
  let s1 := roll now s in
  if maxRequestsPerMinute s1 <=? requestCount s1
  then Exceeded (ceil_div (resetIntervalMs - (now - lastResetTime s1)) 1000) s1
  else Pass s1.

(** Line 26, the first statement of the callback given to [limit]. *)
Definition bump (s : t) : t :=
  mk (requestCount s + 1) (lastResetTime s) (maxRequestsPerMinute s).

Inductive result (A : Type) :=
| Resolved (a : A)
| RateLimitExceeded (waitSeconds : Z).
Arguments RateLimitExceeded {A} waitSeconds.

(** [execute] when the caller awaits each call before the next one: the
    queue of [limit] is empty, the callback runs at once. *)
Definition execute {A : Type} (now : Z) (fn : unit -> A) (s : t)
  : result A * t :=
  match check now s with
  | Exceeded w s1 => (RateLimitExceeded w, s1)
  | Pass s1 => (Resolved (fn tt), bump s1)
  end.

(** Sequential submissions at the instants [nows]; the outcomes in order. *)
Fixpoint submit {A : Type} (fn : unit -> A) (nows : list Z) (s : t)
  : list (result A) * t :=
  match nows with
  | [] => ([], s)
  | now :: rest =>
      let (r, s1) := execute now fn s in
      let (rs, s2) := submit fn rest s1 in
      (r :: rs, s2)
  end.

Definition getStatus (s : t) : Z * Z * Z :=
  (requestCount s, maxRequestsPerMinute s, lastResetTime s + resetIntervalMs).

(** *** Interleaved callers

    Between the check of line 20 and the increment of line 26 lies the
    queue of [limit].  A configuration holds the limiter, the number of
    callbacks in flight, the queued callers and, as a record of what
    happened, the callers dispatched (with the instant) and rejected. *)
Record sched := mkSched {
  limiter : t;
  activeCount : nat;
  pending : list nat;
  started : list (nat * Z);
  rejected : list nat
}.

Inductive event :=
| Call (now : Z) (caller : nat)   (* execute runs up to [this.limit(...)] *)
| Dispatch (now : Z)              (* limit starts the oldest queued callback *)
| Settle.                         (* a callback in flight finishes *)

Definition idle (s : t) : sched := mkSched s 0 [] [] [].

Definition step (e : event) (c : sched) : option sched :=
  match e with
  | Call now caller =>
      match check now (limiter c) with
      | Exceeded _ s1 =>
          Some (mkSched s1 (activeCount c) (pending c) (started c)
                        (rejected c ++ [caller]))
      | Pass s1 =>
          Some (mkSched s1 (activeCount c) (pending c ++ [caller])
                        (started c) (rejected c))
      end
  | Dispatch now =>
      match pending c with
      | caller :: rest =>
          if (activeCount c <? concurrency)%nat
          then Some (mkSched (bump (limiter c)) (S (activeCount c)) rest
                             (started c ++ [(caller, now)]) (rejected c))
          else None
      | [] => None
      end
  | Settle =>
      match activeCount c with
      | S n => Some (mkSched (limiter c) n (pending c) (started c) (rejected c))
      | O => None
      end
  end.

Fixpoint run (es : list event) (c : sched) : option sched :=
  match es with
  | [] => Some c
  | e :: rest =>
      match step e c with
      | Some c1 => run rest c1
      | None => None
      end
  end.

(** Callers dispatched in the current window of the limiter. *)
Definition dispatchedInWindow (c : sched) : nat :=
  List.length
    (filter (fun p => (lastResetTime (limiter c) <=? snd p)
                      && (snd p <? lastResetTime (limiter c) + resetIntervalMs))
            (started c)).

(** [k] callers that all enter at instant 0, before any callback has run.
    [limit] then starts as many callbacks as it lets run together, and one
    more each time one of them finishes. *)
Definition burst (k : nat) : list event :=
  map (Call 0) (seq 0 k)
  ++ repeat (Dispatch 0) (Nat.min k concurrency)
  ++ flat_map (fun _ => [Settle; Dispatch 0]) (seq 0 (k - concurrency)).

(** Eleven callers of a limiter that allows ten requests a minute. *)
Definition raceTrace : list event := burst 11.
End RateLimiter.

(** ** types.d.ts *)

Module FetchStatus.
Inductive t := success | error | timeout.
End FetchStatus.

Record SearchResult := mkSearchResult {
  title : string;
  url : string;
  description : string;
  fullContent : string;
  contentPreview : string;
  wordCount : Z;
  timestamp : string;
  fetchStatus : FetchStatus.t;
  error : option string
}.

Record SearchResultWithMetadata := mkMeta {
  results : list SearchResult;
  engine : string
}.

(** ** cheerio: what a loaded page answers to the queries of the parsers *)

Module Cheerio.
(** One matched element: its text, its [href] attribute, the nearest [a]
    at or above it, and the elements below it that a selector matches. *)
#[local] Unset Elimination Schemes.
Inductive element :=
| Element (text : string) (href : option string)
          (closestA : option element) (find : string -> list element).
#[local] Set Elimination Schemes.

Definition text (e : element) : string :=
  match e with Element t _ _ _ => t end.
Definition href (e : element) : option string :=
  match e with Element _ h _ _ => h end.
Definition closestA (e : element) : option element :=
  match e with Element _ _ a _ => a end.
Definition find (e : element) (selector : string) : list element :=
  match e with Element _ _ _ f => f selector end.

(** The loaded page, as the function from a selector to its matches. *)
Definition page := string -> list element.

(** [selection.first()] *)
Definition first (sel : list element) : option element := hd_error sel.

(** [selection.text()]: the texts of all matched elements, concatenated. *)
Definition textOf (sel : list element) : string :=
  fold_right (fun e acc => (text e ++ acc)%string) ""%string sel.

(** [selection.attr('href')]: of the first matched element. *)
Definition attrHref (sel : list element) : option string :=
  match sel with
  | [] => None
  | e :: _ => href e
  end.

(** [x.attr('href') || ''] *)
Definition hrefOrEmpty (e : element) : string :=
  match href e with Some h => h | None => ""%string end.

(** [selection.each(callback)]: [None] from the callback is its
    [return false], which stops the iteration. *)
Fixpoint each {S : Type} (callback : element -> S -> option S)
         (sel : list element) (st : S) : S :=
  match sel with
  | [] => st
  | e :: rest =>
      match callback e st with
      | Some st1 => each callback rest st1
      | None => st
      end
  end.
End Cheerio.

(** ** search-engine.js: URL validation and normalization *)

Module SearchEngine.
Import Js.
Local Open Scope string_scope.
Local Open Scope bool_scope.

Definition isValidSearchUrl (url : string) : bool :=
  startsWith url "/url?"
  || startsWith url "http://"
  || startsWith url "https://"
  || startsWith url "//"
  || startsWith url "/search?"
  || startsWith url "/"
  || includes url "google.com"
  || (10 <? String.length url)%nat.

Definition cleanGoogleUrl (url : string) : string :=
  let rest :=
    if startsWith url "//" then "https:" ++ url else url in
  if startsWith url "/url?" then
    let urlParams := URLSearchParams (drop 5 url) in
    match orElse (get "q" urlParams) (get "url" urlParams) with
    | Some actualUrl => if truthy actualUrl then actualUrl else rest
    | None => rest
    end
  else rest.

Definition cleanBraveUrl (url : string) : string :=
  if startsWith url "//" then "https:" ++ url
  else if startsWith url "http://" || startsWith url "https://" then url
  else url.

(** [url.match(/[?&]u=a1([^&]+)/)]: the first capture group of the
    leftmost match. *)
Fixpoint matchBingTarget (s : string) : option string :=
  match s with
  | EmptyString => None
  | String c rest =>
      if (Ascii.eqb c "?" || Ascii.eqb c "&") && startsWith rest "u=a1" then
        let captured := takeWhile (fun d => negb (Ascii.eqb d "&")) (drop 4 rest) in
        if truthy captured then Some captured else matchBingTarget rest
      else matchBingTarget rest
  end.

Definition cleanBingUrl (url : string) : string :=
  let rest :=
    if startsWith url "//" then "https:" ++ url
    else if startsWith url "http://" || startsWith url "https://" then url
    else url in
  if includes url "bing.com/ck/a?" || includes url "bing.com/ck/a&" then
    match matchBingTarget url with
    | Some captured =>
        match decodeURIComponent captured with
        | Some encoded =>
            let padding := 4 - (String.length encoded mod 4) in
            let paddedEncoded :=
              if negb (padding =? 0)%nat && negb (padding =? 4)%nat
              then encoded ++ repeatChar "=" padding
              else encoded in
            let decoded := base64Decode paddedEncoded in
            if startsWith decoded "http://" || startsWith decoded "https://"
            then decoded
            else rest
        | None => rest        (* URIError, caught *)
        end
    | None => rest
    end
  else rest.

Definition cleanDuckDuckGoUrl (url : string) : string :=
  let rest :=
    if startsWith url "//" then "https:" ++ url else url in
  if startsWith url "//duckduckgo.com/l/" then
    let urlParams := URLSearchParams (afterFirst "?" url url) in
    match get "uddg" urlParams with
    | Some actualUrl =>
        if truthy actualUrl then
          match decodeURIComponent actualUrl with
          | Some decodedUrl => decodedUrl
          | None => rest      (* URIError, caught *)
          end
        else rest
    | None => rest
    end
  else rest.

(** ** search-engine.js: the parsers *)

Import Cheerio.

(** The object literal pushed by every parser (lines 543-552, 574-583,
    660-669, 757-766 and 792-801): the same fields each time. *)
Definition newResult (title url description timestamp : string) : SearchResult :=
  mkSearchResult title url description "" "" 0 timestamp FetchStatus.success None.

(** [snippet || 'No description available'] *)
Definition orNoDescription (snippet : string) : string :=
  if truthy snippet then snippet else "No description available".

(** [results.length >= maxResults] *)
Definition reached (maxResults : Z) (results : list SearchResult) : bool :=
  (maxResults <=? Z.of_nat (List.length results))%Z.

(** The snippet loops of the Google and Brave parsers: the first selector
    that matches gives the snippet. *)
Fixpoint firstSnippet (selectors : list string) (el : element) : string :=
  match selectors with
  | [] => ""
  | selector :: rest =>
      match first (find el selector) with
      | Some sn => trim (text sn)
      | None => firstSnippet rest el
      end
  end.

(** *** parseSearchResults (Google markup) *)

Definition searchResultSelectors : list string :=
  ["div.g"; "div[data-sokoban-container]"; ".tF2Cxc"; ".rc"; "[data-ved]";
   "div[jscontroller]"].

Definition googleTitleSelectors : list string :=
  ["h3"; ".LC20lb"; ".DKV0Md"; "a[data-ved]"; ".r"; ".s"].

Definition googleSnippetSelectors : list string :=
  [".VwiC3b"; ".st"; ".aCOpRe"; ".IsZvec"; ".s3v9rd"; ".MUxGbd"; ".aCOpRe";
   ".snippet-content"].

(** Lines 508-529: title and URL of a card. *)
Fixpoint googleTitleAndUrl (selectors : list string) (el : element)
  : string * string :=
  match selectors with
  | [] => ("", "")
  | selector :: rest =>
      match first (find el selector) with
      | Some t =>
          (trim (text t),
           match closestA t with
           | Some link => hrefOrEmpty link
           | None =>
               match first (find el "a[href]") with
               | Some anyLink => hrefOrEmpty anyLink
               | None => ""
               end
           end)
      | None => googleTitleAndUrl rest el
      end
  end.

(** Lines 500-558: the callback of [elements.each]; the state is
    [(results, foundResults)]. *)
Definition googleCard (timestamp : string) (maxResults : Z) (el : element)
           (st : list SearchResult * bool) : option (list SearchResult * bool) :=
  if reached maxResults (fst st) then None
  else
    let (title, url) := googleTitleAndUrl googleTitleSelectors el in
    let snippet := firstSnippet googleSnippetSelectors el in
    if truthy title && truthy url && isValidSearchUrl url
    then Some ((fst st ++ [newResult title (cleanGoogleUrl url)
                                     (orNoDescription snippet) timestamp])%list,
               true)
    else Some st.

(** Lines 494-559: [if (foundResults) break] heads the loop body. *)
Fixpoint googleSelectorLoop (timestamp : string) (maxResults : Z) (doc : page)
         (selectors : list string) (st : list SearchResult * bool)
  : list SearchResult * bool :=
  match selectors with
  | [] => st
  | selector :: rest =>
      if snd st then st
      else googleSelectorLoop timestamp maxResults doc rest
             (each (googleCard timestamp maxResults) (doc selector) st)
  end.

(** Lines 564-586: the last-resort pass over every [h3]. *)
Definition googleHeading (timestamp : string) (maxResults : Z) (h3 : element)
           (results : list SearchResult) : option (list SearchResult) :=
  if reached maxResults results then None
  else
    let title := trim (text h3) in
    match closestA h3 with
    | Some link =>
        if truthy title then
          let url := hrefOrEmpty link in
          if isValidSearchUrl url
          then Some (results ++ [newResult title (cleanGoogleUrl url)
                                           "No description available" timestamp])%list
          else Some results
        else Some results
    | None => Some results
    end.

Definition parseSearchResults (timestamp : string) (doc : page) (maxResults : Z)
  : list SearchResult :=
  let results :=
    fst (googleSelectorLoop timestamp maxResults doc searchResultSelectors ([], false)) in
  match results with
  | [] => each (googleHeading timestamp maxResults) (doc "h3") results
  | _ :: _ => results
  end.

(** *** parseBraveResults *)

(** The double-quote character of the selector [[data-type="web"]]. *)
Definition quote : string := String (ascii_of_nat 34) EmptyString.

Definition braveResultSelectors : list string :=
  ["[data-type=" ++ quote ++ "web" ++ quote ++ "]"; ".result"; ".fdb"].

Definition braveTitleSelectors : list string :=
  [".title a"; "h2 a"; ".result-title a"; "a[href*=" ++ quote ++ "://" ++ quote ++ "]";
   ".snippet-title a"].

Definition braveSnippetSelectors : list string :=
  [".snippet-content"; ".snippet"; ".description"; "p"].

(** Lines 623-633: a match overwrites title and URL; the loop stops only
    at a match whose URL starts with [http]. *)
Fixpoint braveTitleAndUrl (selectors : list string) (el : element)
         (cur : string * string) : string * string :=
  match selectors with
  | [] => cur
  | selector :: rest =>
      match first (find el selector) with
      | Some t =>
          let title := trim (text t) in
          let url := hrefOrEmpty t in
          if truthy title && truthy url && startsWith url "http"
          then (title, url)
          else braveTitleAndUrl rest el (title, url)
      | None => braveTitleAndUrl rest el cur
      end
  end.

(** Lines 635-642: the first non-blank line of the card's text. *)
Definition braveTitleFromText (el : element) (title : string) : string :=
  if truthy title then title
  else
    let textContent := trim (text el) in
    let lines :=
      filter (fun line => (0 <? String.length (trim line))%nat)
             (split (ascii_of_nat 10) textContent) in
    match lines with
    | line :: _ => trim line
    | [] => title
    end.

Definition braveCard (timestamp : string) (maxResults : Z) (el : element)
           (st : list SearchResult * bool) : option (list SearchResult * bool) :=
  if reached maxResults (fst st) then None
  else
    let (title0, url) := braveTitleAndUrl braveTitleSelectors el ("", "") in
    let title := braveTitleFromText el title0 in
    let snippet := firstSnippet braveSnippetSelectors el in
    if truthy title && truthy url && isValidSearchUrl url
    then Some ((fst st ++ [newResult title (cleanBraveUrl url)
                                     (orNoDescription snippet) timestamp])%list,
               true)
    else Some st.

(** Lines 603-673 and 702-770: [if (foundResults && results.length >=
    maxResults) break] heads the body of the selector loop of the Brave and
    of the Bing parser. *)
Fixpoint selectorLoop (card : element -> list SearchResult * bool ->
                              option (list SearchResult * bool))
         (maxResults : Z) (doc : page) (selectors : list string)
         (st : list SearchResult * bool) : list SearchResult * bool :=
  match selectors with
  | [] => st
  | selector :: rest =>
      if snd st && reached maxResults (fst st) then st
      else
        let elements := doc selector in
        match elements with
        | [] => selectorLoop card maxResults doc rest st      (* [continue] *)
        | _ :: _ => selectorLoop card maxResults doc rest (each card elements st)
        end
  end.

Definition parseBraveResults (timestamp : string) (doc : page) (maxResults : Z)
  : list SearchResult :=
  fst (selectorLoop (braveCard timestamp maxResults) maxResults doc
                    braveResultSelectors ([], false)).

(** *** parseBingResults *)

Definition bingResultSelectors : list string := [".b_algo"; ".b_result"; ".b_card"].

Definition bingTitleSelectors : list string := ["h2 a"; ".b_title a"; "a[data-seid]"].

Definition bingSnippetSelectors : list string :=
  [".b_caption p"; ".b_snippet"; ".b_descript"; ".b_caption"; ".b_caption > span";
   ".b_excerpt"; "p"; ".b_algo_content p"; ".b_algo_content"; ".b_context"].

(** Lines 720-728: the first selector that matches decides. *)
Fixpoint bingTitleAndUrl (selectors : list string) (el : element)
  : string * string :=
  match selectors with
  | [] => ("", "")
  | selector :: rest =>
      match first (find el selector) with
      | Some t => (trim (text t), hrefOrEmpty t)
      | None => bingTitleAndUrl rest el
      end
  end.

(** [/^\d+\s*(min|sec|hour|day|week|month|year)/i] *)
Definition looksLikeAge (s : string) : bool :=
  truthy (takeWhile isDigit s)
  && (let unit := toLowerCase (dropWhile isSpace (dropWhile isDigit s)) in
      existsb (startsWith unit)
              ["min"; "sec"; "hour"; "day"; "week"; "month"; "year"]).

(** Lines 743-754: the first candidate longer than 20 characters that
    does not look like an age. *)
Fixpoint bingSnippet (selectors : list string) (el : element) : string :=
  match selectors with
  | [] => ""
  | selector :: rest =>
      match first (find el selector) with
      | Some sn =>
          let candidateSnippet := trim (text sn) in
          if (20 <? String.length candidateSnippet)%nat
             && negb (looksLikeAge candidateSnippet)
          then candidateSnippet
          else bingSnippet rest el
      | None => bingSnippet rest el
      end
  end.

Definition bingCard (timestamp : string) (maxResults : Z) (el : element)
           (st : list SearchResult * bool) : option (list SearchResult * bool) :=
  if reached maxResults (fst st) then None
  else
    let (title, url) := bingTitleAndUrl bingTitleSelectors el in
    let snippet := bingSnippet bingSnippetSelectors el in
    if truthy title && truthy url && isValidSearchUrl url
    then Some ((fst st ++ [newResult title (cleanBingUrl url)
                                     (orNoDescription snippet) timestamp])%list,
               true)
    else Some st.

Definition parseBingResults (timestamp : string) (doc : page) (maxResults : Z)
  : list SearchResult :=
  fst (selectorLoop (bingCard timestamp maxResults) maxResults doc
                    bingResultSelectors ([], false)).

(** *** parseDuckDuckGoResults *)

Definition duckDuckGoCard (timestamp : string) (maxResults : Z) (el : element)
           (results : list SearchResult) : option (list SearchResult) :=
  if reached maxResults results then None
  else
    let titleElement := find el ".result__title a" in
    let title := trim (textOf titleElement) in
    let snippet := trim (textOf (find el ".result__snippet")) in
    match attrHref titleElement with
    | Some url =>
        if truthy title && truthy url
        then Some (results ++ [newResult title (cleanDuckDuckGoUrl url)
                                         (orNoDescription snippet) timestamp])%list
        else Some results
    | None => Some results
    end.

Definition parseDuckDuckGoResults (timestamp : string) (doc : page) (maxResults : Z)
  : list SearchResult :=
  each (duckDuckGoCard timestamp maxResults) (doc ".result") [].

(** *** What the properties of the parsers speak of *)

(** An address with the [http:] or [https:] scheme and an authority. *)
Definition schemeQualified (url : string) : bool :=
  startsWith url "http://" || startsWith url "https://".

(** A result as a parser leaves it: nothing fetched, nothing extracted. *)
Definition unfetched (r : SearchResult) : Prop :=
  fullContent r = "" /\ contentPreview r = "" /\ wordCount r = 0%Z
  /\ fetchStatus r = FetchStatus.success.

(** [r] was pushed for a card with a non-empty title and a non-empty raw
    [href] that [accept] lets through, its URL normalized by [clean]. *)
Definition pushedFor (clean : string -> string) (accept : string -> bool)
           (timestamp : string) (r : SearchResult) : Prop :=
  exists title href description,
    r = newResult title (clean href) description timestamp
    /\ truthy title = true /\ truthy href = true /\ accept href = true.

(** ** search-engine.js: assessResultQuality *)

Definition commonWords : list string :=
  ["the"; "a"; "an"; "and"; "or"; "but"; "in"; "on"; "at"; "to"; "for"; "of";
   "with"; "by"; "is"; "are"; "was"; "were"; "be"; "been"; "have"; "has"; "had";
   "do"; "does"; "did"; "will"; "would"; "could"; "should"; "may"; "might";
   "must"; "can"; "group"; "members"].

(** Lines 925-928. *)
Definition queryWordsOf (originalQuery : string) : list string :=
  filter (fun word => (2 <? String.length word)%nat
                      && negb (existsb (String.eqb word) commonWords))
         (splitWhitespace
            (mapChars (fun c => if isWord c || isSpace c then c else " "%char)
                      (toLowerCase originalQuery))).

(** Lines 944-950: every pair of neighbours, then the first three words. *)
Definition queryPhrasesOf (queryWords : list string) : list string :=
  (map (fun i => join " " (slice i (i + 2) queryWords))
       (seq 0 (List.length queryWords - 1))
   ++ (if (3 <=? List.length queryWords)%nat
       then [join " " (slice 0 3 queryWords)]
       else []))%list.

(** The patterns of lines 968-978; each is matched with the [i] flag. *)
Definition irrelevantPatterns : list string :=
  ["recipe"; "cooking"; "food"; "restaurant"; "menu";
   "weather"; "temperature"; "forecast";
   "shopping"; "sale"; "price"; "buy"; "store";
   "movie"; "film"; "tv show"; "entertainment";
   "sports"; "game"; "score"; "team";
   "fashion"; "clothing"; "style";
   "travel"; "hotel"; "flight"; "vacation";
   "car"; "vehicle"; "automotive";
   "real estate"; "property"; "house"; "apartment"].

(** [/pattern/i.test(text)] for a pattern of lower-case letters and spaces. *)
Definition testIgnoreCase (pattern text : string) : bool :=
  includes (toLowerCase text) pattern.

Definition combinedTextOf (result : SearchResult) : string :=
  toLowerCase (title result) ++ " " ++ toLowerCase (description result)
  ++ " " ++ toLowerCase (url result).

(** A counting loop: [for (const x of xs) if (p(x)) n++]. *)
Definition countLoop {A : Type} (p : A -> bool) (xs : list A) : nat :=
  fold_left (fun n x => if p x then S n else n) xs 0%nat.

Definition ofNat (n : nat) : Q := inject_Z (Z.of_nat n).

(** [penalty += 0.2] *)
Definition addTwoTenths (pen : Q) : Q := Double.add pen (Double.literal (2 # 10)).

(** [scoredResults++] *)
Definition addOne (count : Q) : Q := Double.add count 1.

(** Lines 935-985: the score of one result.  The two counters and the
    length of the array are whole numbers that doubles hold exactly; the
    four operations round. *)
Definition scoreOfResult (queryWords : list string) (result : SearchResult) : Q :=
  let combinedText := combinedTextOf result in
  let phraseMatches :=
    if (2 <=? List.length queryWords)%nat
    then countLoop (includes combinedText) (queryPhrasesOf queryWords)
    else 0%nat in
  let keywordMatches := countLoop (includes combinedText) queryWords in
  let keywordRatio := Double.div (ofNat keywordMatches) (ofNat (List.length queryWords)) in
  let phraseBonus := Double.mul (ofNat phraseMatches) (Double.literal (3 # 10)) in
  let resultScore := Qmin 1 (Double.add keywordRatio phraseBonus) in
  let penalty :=
    fold_left (fun pen pattern =>
                 if testIgnoreCase pattern combinedText
                 then addTwoTenths pen else pen)
              irrelevantPatterns 0%Q in
  Qmax 0 (Double.sub resultScore penalty).

(** Lines 920-992.  [totalScore += finalScore] is an addition of doubles,
    as [scoredResults++] is. *)
Definition assessResultQuality (results : list SearchResult) (originalQuery : string)
  : Q :=
  match results with
  | [] => 0%Q
  | _ :: _ =>
      let queryWords := queryWordsOf originalQuery in
      match queryWords with
      | [] => (1 # 2)%Q
      | _ :: _ =>
          let acc :=
            fold_left (fun acc result =>
                         (Double.add (fst acc) (scoreOfResult queryWords result),
                          addOne (snd acc)))
                      results (0%Q, 0%Q) in
          let totalScore := fst acc in
          let scoredResults := snd acc in
          if negb (Qle_bool scoredResults 0)
          then Double.div totalScore scoredResults
          else 0%Q
      end
  end.

(** ** search-engine.js: search *)

(** The environment variables read at lines 21-23. *)
Record config := mkConfig {
  enableQualityCheck : bool;
  qualityThreshold : Q;
  forceMultiEngine : bool
}.

(** The defaults: checking on, threshold [parseFloat('0.3')], no forced
    multi-engine run. *)
Definition defaultConfig : config := mkConfig true (Double.literal (3 # 10)) false.

(** What one engine method does when it is awaited: it resolves with the
    parsed results or rejects with an [Error]. *)
Inductive attempt :=
| Resolves (found : list SearchResult)
| Rejects (message : string).

Record approach := mkApproach {
  name : string;
  method : attempt
}.

(** Lines 27-31. *)
Definition approachesOf (bing brave duckDuckGo : attempt) : list approach :=
  [mkApproach "Browser Bing" bing;
   mkApproach "Browser Brave" brave;
   mkApproach "Axios DuckDuckGo" duckDuckGo].

(** The lines of the console that the properties below read. *)
Inductive logLine :=
| Attempting (engineName : string)                (* line 38 *)
| ApproachFailed (engineName message : string)    (* line 80 *)
| SessionClosureDetected (engineName : string)    (* line 1023 *)
| AllApproachesFailed.                            (* line 85 *)

Record state := mkState {
  browserPool : BrowserPool.t;
  log : list logLine
}.

Definition say (l : logLine) (st : state) : state :=
  mkState (browserPool st) (log st ++ [l]).

Definition sessionClosed (errorMessage : string) : bool :=
  includes errorMessage "Target page, context or browser has been closed"
  || includes errorMessage "Browser has been closed"
  || includes errorMessage "Session has been closed".

(** Lines 1016-1033.  [closeAll] swallows the failure of every [close]. *)
Definition handleBrowserError (errorMessage engineName : string) (st : state) : state :=
  if sessionClosed errorMessage
  then mkState (BrowserPool.closeAll (browserPool st))
               (log st ++ [SessionClosureDetected engineName])
  else st.

Record best := mkBest {
  bestResults : list SearchResult;
  bestEngine : string;
  bestQuality : Q
}.

(** Lines 32-34. *)
Definition noBest : best := mkBest [] "None" 0.

Inductive verdict :=
| Return (r : SearchResultWithMetadata)
| Continue (b : best).

(** [a > b] and [a >= b] on scores. *)
Definition gt (a b : Q) : bool := negb (Qle_bool a b).
Definition ge (a b : Q) : bool := Qle_bool b a.

(** Lines 43-76: the body of [if (results.length > 0)], for the engine at
    index [i] of [n].  The literal [0.8] of line 54 is the double next above
    eight tenths; a score is a double, and is at least the one exactly when it
    is at least the other. *)
Definition onResults (cfg : config) (sanitizedQuery : string) (i n : nat)
           (engineName : string) (found : list SearchResult) (b : best) : verdict :=
  let qualityScore :=
    if enableQualityCheck cfg then assessResultQuality found sanitizedQuery
    else 1%Q in
  let b1 :=
    if gt qualityScore (bestQuality b) then mkBest found engineName qualityScore
    else b in
  if ge qualityScore (8 # 10) && negb (forceMultiEngine cfg)
  then Return (mkMeta found engineName)
  else if ge qualityScore (qualityThreshold cfg)
          && negb (String.eqb engineName "Browser Bing")
          && negb (forceMultiEngine cfg)
  then Return (mkMeta found engineName)
  else if (i =? n - 1)%nat then
    if ge (bestQuality b1) (qualityThreshold cfg) || negb (enableQualityCheck cfg)
    then Return (mkMeta (bestResults b1) (bestEngine b1))
    else if (0 <? List.length (bestResults b1))%nat
    then Return (mkMeta (bestResults b1) (bestEngine b1))
    else Continue b1
  else Continue b1.

(** Lines 35-86: the loop over the approaches from index [i] on. *)
Fixpoint attemptLoop (cfg : config) (sanitizedQuery : string) (n i : nat)
         (approaches : list approach) (b : best) (st : state)
  : SearchResultWithMetadata * state :=
  match approaches with
  | [] => (mkMeta [] "None", say AllApproachesFailed st)
  | a :: rest =>
      let st1 := say (Attempting (name a)) st in
      match method a with
      | Resolves found =>
          if (0 <? List.length found)%nat then
            match onResults cfg sanitizedQuery i n (name a) found b with
            | Return r => (r, st1)
            | Continue b1 => attemptLoop cfg sanitizedQuery n (S i) rest b1 st1
            end
          else attemptLoop cfg sanitizedQuery n (S i) rest b st1
      | Rejects message =>
          attemptLoop cfg sanitizedQuery n (S i) rest b
            (handleBrowserError message (name a)
               (say (ApproachFailed (name a) message) st1))
      end
  end.

(** utils.js *)
Definition sanitizeQuery (query : string) : string := take 1000 (trim query).

Inductive searchOutcome :=
| Found (r : SearchResultWithMetadata)
| SearchFailed (waitSeconds : Z).   (* "Failed to perform search: Rate limit exceeded..." *)

Record engineState := mkEngine {
  rateLimiter : RateLimiter.t;
  inner : state
}.

(** Lines 13-100, for a caller that awaits the search. *)
Definition search (cfg : config) (now : Z) (query : string)
           (bing brave duckDuckGo : attempt) (e : engineState)
  : searchOutcome * engineState :=
  let sanitizedQuery := sanitizeQuery query in
  let approaches := approachesOf bing brave duckDuckGo in
  match RateLimiter.execute now
          (fun _ => attemptLoop cfg sanitizedQuery (List.length approaches) 0
                                approaches noBest (inner e))
          (rateLimiter e) with
  | (RateLimiter.Resolved (r, st), rl) => (Found r, mkEngine rl st)
  | (RateLimiter.RateLimitExceeded w, rl) => (SearchFailed w, mkEngine rl (inner e))
  end.

Definition closeAll (e : engineState) : engineState :=
  mkEngine (rateLimiter e)
           (mkState (BrowserPool.closeAll (browserPool (inner e))) (log (inner e))).
End SearchEngine.

(** ** The quality score as the specification words it

    Zero for no results; one half when no query term is left; otherwise the
    arithmetic mean, over the results, of
    [max(0, min(1, hitRatio + phraseBonus) - penalty)]: once in exact
    arithmetic, once in the arithmetic of doubles. *)

Module QualityReference.
Import Js SearchEngine.
Local Open Scope string_scope.

(** The phrases built from adjacent query terms: every two neighbours ... *)
Fixpoint adjacentPairs (terms : list string) : list string :=
  match terms with
  | [] => []
  | a :: rest =>
      match rest with
      | [] => []
      | b :: _ => (a ++ " " ++ b) :: adjacentPairs rest
      end
  end.

(** ... and the first three terms. *)
Definition leadingTriple (terms : list string) : list string :=
  match terms with
  | a :: b :: c :: _ => [a ++ " " ++ b ++ " " ++ c]
  | _ => []
  end.

Definition phrases (terms : list string) : list string :=
  (adjacentPairs terms ++ leadingTriple terms)%list.

(** Title, description and URL, concatenated and case-folded. *)
Definition haystack (r : SearchResult) : string :=
  toLowerCase (title r ++ " " ++ description r ++ " " ++ url r).

(** How many of [xs] occur in [text]. *)
Definition matched (text : string) (xs : list string) : nat :=
  List.length (filter (includes text) xs).

(** *** In exact arithmetic *)

Definition hitRatio (terms : list string) (text : string) : Q :=
  (ofNat (matched text terms) / ofNat (List.length terms))%Q.

(** 0.3 per matched phrase. *)
Definition phraseBonus (terms : list string) (text : string) : Q :=
  ((3 # 10) * ofNat (matched text (phrases terms)))%Q.

(** 0.2 per matched off-topic pattern. *)
Definition penalty (text : string) : Q :=
  ((2 # 10) * ofNat (matched text irrelevantPatterns))%Q.

Definition resultScore (terms : list string) (r : SearchResult) : Q :=
  let text := haystack r in
  Qmax 0 (Qmin 1 (hitRatio terms text + phraseBonus terms text) - penalty text)%Q.

Fixpoint sum (xs : list Q) : Q :=
  match xs with
  | [] => 0%Q
  | x :: rest => (x + sum rest)%Q
  end.

Definition mean (xs : list Q) : Q := (sum xs / ofNat (List.length xs))%Q.

Definition score (found : list SearchResult) (query : string) : Q :=
  match found with
  | [] => 0%Q
  | _ :: _ =>
      let terms := queryWordsOf query in
      match terms with
      | [] => (1 # 2)%Q
      | _ :: _ => mean (map (resultScore terms) found)
      end
  end.

(** *** In the arithmetic of doubles

    The same formulas with every quotient, product, sum and difference
    rounded to the nearest double; the sum of the mean is taken from the
    left. *)

Definition hitRatioRounded (terms : list string) (text : string) : Q :=
  Double.div (ofNat (matched text terms)) (ofNat (List.length terms)).

Definition phraseBonusRounded (terms : list string) (text : string) : Q :=
  Double.mul (Double.literal (3 # 10)) (ofNat (matched text (phrases terms))).

Definition penaltyRounded (text : string) : Q :=
  Double.mul (Double.literal (2 # 10)) (ofNat (matched text irrelevantPatterns)).

Definition resultScoreRounded (terms : list string) (r : SearchResult) : Q :=
  let text := haystack r in
  Qmax 0 (Double.sub (Qmin 1 (Double.add (hitRatioRounded terms text)
                                         (phraseBonusRounded terms text)))
                     (penaltyRounded text)).

Definition sumRounded (xs : list Q) : Q := fold_left Double.add xs 0%Q.

Definition meanRounded (xs : list Q) : Q :=
  Double.div (sumRounded xs) (ofNat (List.length xs)).

Definition scoreRounded (found : list SearchResult) (query : string) : Q :=
  match found with
  | [] => 0%Q
  | _ :: _ =>
      let terms := queryWordsOf query in
      match terms with
      | [] => (1 # 2)%Q
      | _ :: _ => meanRounded (map (resultScoreRounded terms) found)
      end
  end.
End QualityReference.

(** ** Concrete inputs used by the examples of Part II *)

Module Scenarios.
Import Cheerio SearchEngine.
Local Open Scope string_scope.

(** An element with a text and an [href] and nothing below it. *)
Definition leaf (text : string) (href : option string) : element :=
  Element text href None (fun _ => []).

(** A card whose only match is [child], under [selector]. *)
Definition cardWith (selector : string) (child : element) : element :=
  Element "" None None (fun s => if String.eqb s selector then [child] else []).

(** A page whose only match is [card], under [selector]. *)
Definition pageWith (selector : string) (card : element) : page :=
  fun s => if String.eqb s selector then [card] else [].


(** A Bing card whose title links to an absolute address. *)
Definition bingAbsolutePage : page :=
  pageWith ".b_algo" (cardWith "h2 a" (leaf "Rust" (Some "https://www.rust-lang.org/"))).


(** A DuckDuckGo card whose redirect link carries an encoded target. *)
Definition duckDuckGoWrappedPage : page :=
  pageWith ".result"
    (cardWith ".result__title a"
       (leaf "Rust" (Some "//duckduckgo.com/l/?uddg=https%3A%2F%2Fwww.rust-lang.org%2F&rut=1"))).

(** A Google card whose title sits in a redirect link. *)
Definition googleWrappedPage : page :=
  pageWith "div.g"
    (cardWith "h3"
       (Element "Rust" None
                (Some (leaf "" (Some "/url?q=https://www.rust-lang.org/&sa=U")))
                (fun _ => []))).

(** A result about Rust, and queries to score it against. *)
Definition rustResult : SearchResult :=
  newResult "Rust guide" "https://example.com/rust" "About rust" "t".

(** A result that shares no word with the query [rust language]. *)
Definition gardenResult : SearchResult :=
  newResult "Growing tomatoes" "https://example.com/garden" "Soil and water" "t".

(** A result that names the query word [rust] and three off-topic
    patterns. *)
Definition recipeResult : SearchResult :=
  newResult "Rust recipe" "https://example.com/rust" "food menu" "t".

(** Ten query words, and a result that names nine of them, no two in the
    order of the query, and three off-topic patterns. *)
Definition spellingQuery : string :=
  "alpha bravo charlie delta echo foxtrot golf india juliet kilo".

Definition spellingResult : SearchResult :=
  newResult "juliet india golf foxtrot echo delta charlie bravo alpha"
            "https://example.com/" "food menu recipe" "t".

(** The card of scenario A of the specification. *)
Definition parisResult : SearchResult :=
  newResult "Paris - Wikipedia" "https://en.wikipedia.org/wiki/Paris"
            "Paris is the capital of France" "t".

(** A search engine as its constructor leaves it, made at instant 0, with
    the pool's defaults: three browsers at most, two browser types. *)
Definition freshEngine : engineState :=
  mkEngine (RateLimiter.new 10 0)
           (mkState (BrowserPool.new 3 ["chromium"; "firefox"]) []).

(** [FORCE_MULTI_ENGINE_SEARCH=true], the rest as by default. *)
Definition forcedConfig : config := mkConfig true (Double.literal (3 # 10)) true.

(** A pool with one cached browser. *)
Definition warmState : state :=
  mkState (snd (BrowserPool.getBrowser
                  (BrowserPool.mkWorld BrowserPool.Healthy (Some 1%nat))
                  (BrowserPool.new 3 ["chromium"; "firefox"])))
          [].
End Scenarios.

(** ** utils.js *)

Module Utils.
Import Js.
Local Open Scope string_scope.
Local Open Scope bool_scope.

Definition lineFeed : ascii := "010"%char.

(** [text.replace(/\s+/g, ' ')]: every run of white space becomes one space. *)
Fixpoint collapseSpaces (inRun : bool) (s : string) : string :=
  match s with
  | EmptyString => EmptyString
  | String c rest =>
      if isSpace c
      then if inRun then collapseSpaces true rest
           else String " " (collapseSpaces true rest)
      else String c (collapseSpaces false rest)
  end.

(** The part of a white-space run after its last line feed, if it has one. *)
Fixpoint afterLastLineFeed (run : string) : option string :=
  match run with
  | EmptyString => None
  | String c rest =>
      match afterLastLineFeed rest with
      | Some tail => Some tail
      | None => if Ascii.eqb c lineFeed then Some rest else None
      end
  end.

(** [text.replace(/\n\s*\n/g, '\n')]: at a line feed, the greedy [\s*]
    reaches the last line feed of the white space that follows; the match
    is replaced by one line feed and the scan resumes after it.  [skip]
    counts the characters of a match still to be passed over. *)
Fixpoint squeezeBlankLines (skip : nat) (s : string) : string :=
  match s with
  | EmptyString => EmptyString
  | String c rest =>
      match skip with
      | S k => squeezeBlankLines k rest
      | O =>
          if Ascii.eqb c lineFeed then
            let run := takeWhile isSpace rest in
            match afterLastLineFeed run with
            | Some tail =>
                String lineFeed
                  (squeezeBlankLines (String.length run - String.length tail) rest)
            | None => String c (squeezeBlankLines 0 rest)
            end
          else String c (squeezeBlankLines 0 rest)
      end
  end.

(** [s.substring(0, maxLength)]: a negative bound counts as 0. *)
Definition upTo (maxLength : Z) (s : string) : string := take (Z.to_nat maxLength) s.

Definition cleanText (text : string) (maxLength : Z) : string :=
  upTo maxLength (trim (squeezeBlankLines 0 (collapseSpaces false text))).

Definition getWordCount (text : string) : nat :=
  List.length (filter (fun word => (0 <? String.length word)%nat)
                      (splitWhitespace (trim text))).

Definition getContentPreview (text : string) (maxLength : Z) : string :=
  let cleaned := cleanText text maxLength in
  if (Z.of_nat (String.length cleaned) =? maxLength)%Z then cleaned ++ "..." else cleaned.

(** *** What the properties of these functions speak of *)

(** No white space but single spaces, and (with [afterSpace]) none in front. *)
Fixpoint singleSpaced (afterSpace : bool) (s : string) : bool :=
  match s with
  | EmptyString => true
  | String c rest =>
      if isSpace c
      then Ascii.eqb c " " && negb afterSpace && singleSpaced true rest
      else singleSpaced false rest
  end.

(** The number of maximal runs of characters that are not white space. *)
Fixpoint wordRuns (inWord : bool) (s : string) : nat :=
  match s with
  | EmptyString => if inWord then 1 else 0
  | String c rest =>
      if isSpace c then (if inWord then 1 else 0) + wordRuns false rest
      else wordRuns true rest
  end.

(** Only white space. *)
Fixpoint blank (s : string) : bool :=
  match s with
  | EmptyString => true
  | String c rest => isSpace c && blank rest
  end.
End Utils.

(** ** search-engine.js: the engine methods around the parsers *)

Module EngineMethods.
Import Js Cheerio SearchEngine.
Local Open Scope string_scope.
Local Open Scope bool_scope.

(** What happens in one pass of the retry loop of [tryBrowserBraveSearch]
    and [tryBrowserBingSearch]: the launch of the dedicated browser gives a
    browser or throws, the internal search resolves or throws. *)
Record pass := mkPass {
  launched : BrowserPool.Browser + string;
  internal : list SearchResult + string
}.

(** Launches, [close()] calls and 500 ms delays, in order. *)
Inductive effect :=
| Launch (b : BrowserPool.Browser)
| Close (b : BrowserPool.Browser)
| Delay.

(** Lines 101-141 and 189-245.  The body of the [for] loop for the passes
    from number [attemptNo] on; [giveUp] is the message of the [throw] after
    the loop.  The [finally] block runs after the [return], after the
    [throw] and after the delay. *)
Fixpoint retryLoop (giveUp : string) (attemptNo : nat) (passes : list pass)
         (done : list effect) : attempt * list effect :=
  match passes with
  | [] => (Rejects giveUp, done)
  | w :: rest =>
      match launched w with
      | inr message =>
          if (attemptNo =? 2)%nat then (Rejects message, done)
          else retryLoop giveUp (S attemptNo) rest (done ++ [Delay])%list
      | inl browser =>
          match internal w with
          | inl found => (Resolves found, (done ++ [Launch browser; Close browser])%list)
          | inr message =>
              if (attemptNo =? 2)%nat
              then (Rejects message, (done ++ [Launch browser; Close browser])%list)
              else retryLoop giveUp (S attemptNo) rest
                     (done ++ [Launch browser; Delay; Close browser])%list
          end
      end
  end.

Definition tryBrowserBraveSearch (first second : pass) : attempt * list effect :=
  retryLoop "All Brave search attempts failed" 1 [first; second] [].

Definition tryBrowserBingSearch (first second : pass) : attempt * list effect :=
  retryLoop "All Bing search attempts failed" 1 [first; second] [].

(** The HTML that [page.content()] gives, loaded, and the instant at which
    the parser stamps its results. *)
Record content := mkContent {
  document : page;
  parsedAt : string
}.

(** Lines 142-188.  [inl] when every call on the browser, the context and
    the page returns; the error thrown otherwise. *)
Definition tryBrowserBraveSearchInternal (c : content + string) (numResults : Z)
  : list SearchResult + string :=
  match c with
  | inl c => inl (parseBraveResults (parsedAt c) (document c) numResults)
  | inr message => inr message
  end.

(** Lines 246-317, 318-382 and 383-424.  [setup] is the error of the connection check, of
    [newContext] or of [newPage]; the direct search runs when the enhanced
    one throws, which includes a throwing [context.close()] after it. *)
Record bingRun := mkBingRun {
  setup : option string;
  enhanced : content + string;
  direct : content + string
}.

Definition tryBrowserBingSearchInternal (w : bingRun) (numResults : Z)
  : list SearchResult + string :=
  match setup w with
  | Some message => inr message
  | None =>
      match enhanced w with
      | inl c => inl (parseBingResults (parsedAt c) (document c) numResults)
      | inr _ =>
          match direct w with
          | inl c => inl (parseBingResults (parsedAt c) (document c) numResults)
          | inr message => inr message
          end
      end
  end.

(** Lines 434-462.  [response] is the page of an answer with a status below
    400, or [None] when [axios.get] throws. *)
Definition tryDuckDuckGoSearch (timestamp : string) (response : option page)
           (numResults : Z) : attempt :=
  match response with
  | Some doc => Resolves (parseDuckDuckGoResults timestamp doc numResults)
  | None => Rejects "DuckDuckGo search failed"
  end.

(** Lines 425-433.  [random i] is the value of the [i]-th call of
    [Math.random()]; [Math.floor(r * chars.length)] picks the character. *)
Definition hexChars : string := "0123456789ABCDEF".

Definition charAt (s : string) (i : Z) : string :=
  match String.get (Z.to_nat i) s with
  | Some c => if (0 <=? i)%Z then String c EmptyString else "undefined"
  | None => "undefined"
  end.

Definition generateConversationId (random : nat -> Q) : string :=
  fold_left (fun cvid i =>
               cvid ++ charAt hexChars
                         (Qfloor (random i * inject_Z (Z.of_nat (String.length hexChars)))))
            (seq 0 32) "".

(** The effects that are launches, and those that are closes. *)
Definition launchesOf (done : list effect) : list BrowserPool.Browser :=
  flat_map (fun e => match e with Launch b => [b] | _ => [] end) done.

Definition closesOf (done : list effect) : list BrowserPool.Browser :=
  flat_map (fun e => match e with Close b => [b] | _ => [] end) done.

(** What a pass comes to: the results, or the error that the loop sees. *)
Definition passOutcome (w : pass) : list SearchResult + string :=
  match launched w with
  | inr message => inr message
  | inl _ => internal w
  end.
End EngineMethods.

(** ** Shapes of strings that the properties of Part II speak of *)

Module Shapes.
Local Open Scope bool_scope.

(** [c] does not occur in [s]. *)
Fixpoint lacks (c : ascii) (s : string) : bool :=
  match s with
  | EmptyString => true
  | String d rest => negb (Ascii.eqb d c) && lacks c rest
  end.





(** A result with a title, a URL and a description that are not empty,
    stamped [stamp] and without an error. *)
Definition filled (stamp : string) (r : SearchResult) : Prop :=
  Js.truthy (title r) = true /\ Js.truthy (url r) = true
  /\ Js.truthy (description r) = true
  /\ timestamp r = stamp /\ error r = None.

(** The engines that the console shows as attempted, in order. *)
Definition attempted (lines : list SearchEngine.logLine) : list string :=
  flat_map (fun l => match l with
                     | SearchEngine.Attempting engineName => [engineName]
                     | _ => []
                     end) lines.

(** The approach resolves with at least one result. *)
Definition yields (a : SearchEngine.approach) : bool :=
  match SearchEngine.method a with
  | SearchEngine.Resolves (_ :: _) => true
  | _ => false
  end.

(** What the approach resolves with; nothing when it rejects. *)
Definition foundBy (a : SearchEngine.approach) : list SearchResult :=
  match SearchEngine.method a with
  | SearchEngine.Resolves found => found
  | SearchEngine.Rejects _ => []
  end.

(** A set and an engine name as a search may give them: the empty set under
    the name [None], or the whole non-empty set of one of the approaches
    under that approach's name. *)
Definition fromOneOf (approaches : list SearchEngine.approach)
           (found : list SearchResult) (engineName : string) : Prop :=
  (found = [] /\ engineName = "None"%string)
  \/ exists a, In a approaches
               /\ SearchEngine.method a = SearchEngine.Resolves found
               /\ SearchEngine.name a = engineName
               /\ found <> [].

(** Every character of [s] is one of [chars]. *)
Fixpoint within (chars s : string) : bool :=
  match s with
  | EmptyString => true
  | String c rest => negb (lacks c chars) && within chars rest
  end.

(** A result set as a caller of the search expects it: no more than
    [numResults] results, all filled and stamped alike. *)
Definition presentable (numResults : Z) (found : list SearchResult) : Prop :=
  (Z.of_nat (List.length found) <= Z.max 0 numResults)%Z
  /\ exists stamp, Forall (filled stamp) found.
End Shapes.

(* ================================================================== *)
(** * Part II: properties                                               *)
(* ================================================================== *)

(** ** The rate limiter *)

Module RateLimiterFacts.
Import RateLimiter.
Local Open Scope Z_scope.

Lemma roll_inside (now : Z) (s : t) :
  now - lastResetTime s < resetIntervalMs -> roll now s = s.
Proof.
  intros H. unfold roll.
  destruct (Z.leb_spec resetIntervalMs (now - lastResetTime s)); [lia | reflexivity].
Qed.

Lemma roll_over (now : Z) (s : t) :
  resetIntervalMs <= now - lastResetTime s ->
  roll now s = mk 0 now (maxRequestsPerMinute s).
Proof.
  intros H. unfold roll.
  destruct (Z.leb_spec resetIntervalMs (now - lastResetTime s)); [reflexivity | lia].
Qed.

Lemma roll_max (now : Z) (s : t) :
  maxRequestsPerMinute (roll now s) = maxRequestsPerMinute s.
Proof. unfold roll. destruct (_ <=? _); reflexivity. Qed.

Lemma execute_pass (A : Type) (fn : unit -> A) (now : Z) (s : t) :
  requestCount (roll now s) < maxRequestsPerMinute (roll now s) ->
  execute now fn s = (Resolved (fn tt), bump (roll now s)).
Proof.
  intros H. unfold execute, check. cbv zeta.
  destruct (Z.leb_spec (maxRequestsPerMinute (roll now s)) (requestCount (roll now s)));
    [lia | reflexivity].
Qed.

Lemma execute_exceeded (A : Type) (fn : unit -> A) (now : Z) (s : t) :
  maxRequestsPerMinute (roll now s) <= requestCount (roll now s) ->
  execute now fn s =
    (RateLimitExceeded
       (ceil_div (resetIntervalMs - (now - lastResetTime (roll now s))) 1000),
     roll now s).
Proof.
  intros H. unfold execute, check. cbv zeta.
  destruct (Z.leb_spec (maxRequestsPerMinute (roll now s)) (requestCount (roll now s)));
    [reflexivity | lia].
Qed.



(** An awaited [execute] is one caller going through the three events. *)
Lemma execute_as_events (A : Type) (fn : unit -> A) (now : Z) (s : t) (caller : nat) :
  match run [Call now caller; Dispatch now; Settle] (idle s) with
  | Some c => limiter c = snd (execute now fn s) /\ activeCount c = 0%nat /\ pending c = []
  | None => exists w, fst (execute now fn s) = RateLimitExceeded w
  end.
Proof.
  unfold execute. cbn [run step idle limiter activeCount pending started rejected].
  destruct (check now s) as [s1 | w s1]; cbn.
  - repeat split.
  - exists w. reflexivity.
Qed.

(** The increment of line 26 and the dispatch are one event. *)
Lemma dispatch_bumps (now : Z) (c c' : sched) :
  step (Dispatch now) c = Some c' ->
  requestCount (limiter c') = requestCount (limiter c) + 1
  /\ List.length (started c') = S (List.length (started c)).
Proof.
  cbn [step]. destruct (pending c) as [| caller rest]; [discriminate |].
  destruct (_ <? _)%nat; [| discriminate].
  intros H; inversion H; subst; cbn. split; [reflexivity |].
  rewrite length_app. cbn. lia.
Qed.

Lemma check_fresh (maxPerMinute : Z) :
  0 < maxPerMinute -> check 0 (new maxPerMinute 0) = Pass (new maxPerMinute 0).
Proof.
  intros H. unfold check, roll, new. cbn.
  destruct (Z.leb_spec maxPerMinute 0); [lia | reflexivity].
Qed.

Lemma calls_enqueue (maxPerMinute : Z) (ids : list nat) :
  0 < maxPerMinute ->
  forall p : list nat,
    run (map (Call 0) ids) (mkSched (new maxPerMinute 0) 0 p [] [])
    = Some (mkSched (new maxPerMinute 0) 0 (p ++ ids) [] []).
Proof.
  intros H. induction ids as [| id rest IH]; intros p; cbn [map run].
  - rewrite app_nil_r. reflexivity.
  - cbn [step limiter]. rewrite (check_fresh H).
    cbn [activeCount pending started rejected]. rewrite IH, <- app_assoc. reflexivity.
Qed.

Lemma dispatches_run (m : nat) :
  forall (lim : t) (a : nat) (p : list nat) (st : list (nat * Z)) (rej : list nat),
    (a + m <= concurrency)%nat ->
    (m <= List.length p)%nat ->
    run (repeat (Dispatch 0) m) (mkSched lim a p st rej)
    = Some (mkSched (mk (requestCount lim + Z.of_nat m)
                        (lastResetTime lim) (maxRequestsPerMinute lim))
                    (a + m) (skipn m p)
                    (st ++ map (fun id => (id, 0)) (firstn m p)) rej).
Proof.
  induction m as [| m IH]; intros lim a p st rej Ha Hp.
  - cbn. rewrite Z.add_0_r, Nat.add_0_r, app_nil_r. destruct lim; reflexivity.
  - destruct p as [| id rest]; [cbn in Hp; lia |].
    cbn [repeat run step pending activeCount limiter started rejected].
    assert (Hlt : (a <? concurrency)%nat = true) by (apply Nat.ltb_lt; lia).
    rewrite Hlt, IH by (cbn in Hp; lia).
    cbn [bump requestCount lastResetTime maxRequestsPerMinute skipn firstn map].
    rewrite <- app_assoc. cbn [app].
    replace (requestCount lim + 1 + Z.of_nat m) with (requestCount lim + Z.of_nat (S m))
      by lia.
    replace (S a + m)%nat with (a + S m)%nat by lia.
    reflexivity.
Qed.

Lemma rounds_run (q : list nat) :
  forall (lim : t) (a : nat) (p : list nat) (st : list (nat * Z)) (rej : list nat),
    (a < concurrency)%nat ->
    (List.length q <= List.length p)%nat ->
    run (flat_map (fun _ => [Settle; Dispatch 0]) q) (mkSched lim (S a) p st rej)
    = Some (mkSched (mk (requestCount lim + Z.of_nat (List.length q))
                        (lastResetTime lim) (maxRequestsPerMinute lim))
                    (S a) (skipn (List.length q) p)
                    (st ++ map (fun id => (id, 0)) (firstn (List.length q) p)) rej).
Proof.
  induction q as [| x q IH]; intros lim a p st rej Ha Hp.
  - cbn. rewrite Z.add_0_r, app_nil_r. destruct lim; reflexivity.
  - destruct p as [| id rest]; [cbn in Hp; lia |].
    cbn [flat_map app run step pending activeCount limiter started rejected].
    assert (Hlt : (a <? concurrency)%nat = true) by (apply Nat.ltb_lt; lia).
    rewrite Hlt, IH by (cbn in Hp; lia).
    cbn [bump requestCount lastResetTime maxRequestsPerMinute skipn firstn map
         List.length].
    rewrite <- app_assoc. cbn [app].
    replace (requestCount lim + 1 + Z.of_nat (List.length q))
      with (requestCount lim + Z.of_nat (S (List.length q))) by lia.
    reflexivity.
Qed.

Lemma run_app (xs ys : list event) :
  forall c c1 : sched, run xs c = Some c1 -> run (xs ++ ys) c = run ys c1.
Proof.
  induction xs as [| e xs IH]; intros c c1; cbn [app run].
  - intros Heq. injection Heq as ->. reflexivity.
  - destruct (step e c); [apply IH | discriminate].
Qed.

Lemma all_at_zero_in_window (ids : list nat) :
  List.length
    (filter (fun p : nat * Z => (0 <=? snd p) && (snd p <? 0 + resetIntervalMs))
            (map (fun id => (id, 0)) ids))
  = List.length ids.
Proof.
  induction ids as [| id rest IH]; [reflexivity |].
  cbn [map filter snd]. cbn [Z.leb Z.compare Z.ltb Z.add resetIntervalMs andb List.length].
  f_equal. exact IH.
Qed.

(** The race is open for every positive quota and every number of callers:
    all of them are dispatched in the window in which they entered. *)
Lemma burst_is_dispatched_whole (maxPerMinute : Z) (k : nat) :
  0 < maxPerMinute ->
  exists c : sched,
    run (burst k) (idle (new maxPerMinute 0)) = Some c
    /\ rejected c = []
    /\ dispatchedInWindow c = k
    /\ requestCount (limiter c) = Z.of_nat k.
Proof.
  intros H. set (ids := seq 0 k). set (m := Nat.min k concurrency).
  assert (Hids : List.length ids = k) by apply length_seq.
  assert (Hcalls : run (map (Call 0) ids) (idle (new maxPerMinute 0))
                   = Some (mkSched (new maxPerMinute 0) 0 ids [] []))
    by (apply (@calls_enqueue maxPerMinute ids H [])).
  assert (Hfirst : run (repeat (Dispatch 0) m) (mkSched (new maxPerMinute 0) 0 ids [] [])
                   = Some (mkSched (mk (Z.of_nat m) 0 maxPerMinute) m (skipn m ids)
                                   (map (fun id => (id, 0)) (firstn m ids)) [])).
  { rewrite dispatches_run; [reflexivity | subst m; lia | subst m; lia]. }
  unfold burst. fold ids. fold m.
  rewrite (@run_app _ _ _ _ Hcalls), (@run_app _ _ _ _ Hfirst).
  destruct (Nat.le_gt_cases k concurrency) as [Hle | Hgt].
  - replace (k - concurrency)%nat with 0%nat by lia. cbn [seq flat_map run].
    replace m with k by (subst m; lia).
    eexists. split; [reflexivity |]. cbn [rejected limiter requestCount].
    split; [reflexivity |]. split; [| reflexivity].
    unfold dispatchedInWindow. cbn [limiter started lastResetTime].
    rewrite all_at_zero_in_window, length_firstn. lia.
  - assert (Hm : m = S 4) by (subst m; unfold concurrency in *; lia).
    rewrite Hm. rewrite rounds_run.
    + eexists. split; [reflexivity |]. cbn [rejected limiter requestCount].
      split; [reflexivity |]. rewrite length_seq. split.
      * unfold dispatchedInWindow. cbn [limiter started lastResetTime].
        rewrite <- map_app, all_at_zero_in_window, length_app, !length_firstn,
          length_skipn.
        unfold concurrency in *. lia.
      * unfold concurrency in *. lia.
    + unfold concurrency. lia.
    + rewrite length_seq, length_skipn. unfold concurrency in *. lia.
Qed.

(** C3 (the code departs from it).  Eleven callers that enter [execute] of a
    limiter with [maxRequestsPerMinute = 10] before any callback has started
    are all dispatched inside one window: the check of line 20 and the
    increment of line 26 are separated by the queue of [limit]. *)
Theorem concurrent_callers_exceed_quota :
  exists c : sched,
    run raceTrace (idle (new 10 0)) = Some c
    /\ rejected c = []
    /\ dispatchedInWindow c = 11%nat
    /\ requestCount (limiter c) = 11
    /\ maxRequestsPerMinute (limiter c) = 10.
Proof.
  eexists. split; [vm_compute; reflexivity |].
  repeat split.
Qed.


End RateLimiterFacts.

(** ** The browser pool *)

Module JsMapFacts.
Section WithValue.
Variable V : Type.
Implicit Types (m : JsMap.t V) (k : string) (v : V).

Lemma set_size_le k v m : (JsMap.size (JsMap.set k v m) <= S (JsMap.size m))%nat.
Proof.
  induction m as [| [k' v'] rest IH]; cbn; [lia |].
  destruct (String.eqb k' k); cbn; [lia |]. unfold JsMap.size in IH. lia.
Qed.

Lemma set_absent k v m :
  JsMap.get k m = None -> JsMap.set k v m = (m ++ [(k, v)])%list.
Proof.
  induction m as [| [k' v'] rest IH]; cbn; [reflexivity |].
  destruct (String.eqb k' k); [discriminate |].
  intros H. rewrite IH by exact H. reflexivity.
Qed.

Lemma set_present k v m :
  JsMap.get k m <> None -> JsMap.keys (JsMap.set k v m) = JsMap.keys m.
Proof.
  induction m as [| [k' v'] rest IH]; cbn; [congruence |].
  destruct (String.eqb_spec k' k) as [-> | Hne]; cbn; [reflexivity |].
  intros H. unfold JsMap.keys in IH. rewrite IH by exact H. reflexivity.
Qed.

Lemma get_none_keys k m : JsMap.get k m = None -> ~ In k (JsMap.keys m).
Proof.
  induction m as [| [k' v'] rest IH]; cbn; [tauto |].
  destruct (String.eqb_spec k' k) as [-> | Hne]; [discriminate |].
  intros H [Heq | Hin]; [congruence | exact (IH H Hin)].
Qed.

Lemma set_keys_nodup k v m : NoDup (JsMap.keys m) -> NoDup (JsMap.keys (JsMap.set k v m)).
Proof.
  intros Hnd. destruct (JsMap.get k m) eqn:Hget.
  - rewrite set_present by congruence. exact Hnd.
  - rewrite set_absent by exact Hget. unfold JsMap.keys. rewrite map_app. cbn.
    apply NoDup_app; repeat split.
    + exact Hnd.
    + constructor; [simpl; tauto | constructor].
    + intros a Ha [<- | []]. exact (@get_none_keys k m Hget Ha).
Qed.

Lemma delete_size_le k m : (JsMap.size (JsMap.delete k m) <= JsMap.size m)%nat.
Proof. apply filter_length_le. Qed.

Lemma delete_keys_incl k m a : In a (JsMap.keys (JsMap.delete k m)) -> In a (JsMap.keys m).
Proof.
  unfold JsMap.keys, JsMap.delete. rewrite !in_map_iff.
  intros (e & He & Hin). apply filter_In in Hin. exists e. tauto.
Qed.

Lemma delete_keys_nodup k m : NoDup (JsMap.keys m) -> NoDup (JsMap.keys (JsMap.delete k m)).
Proof.
  induction m as [| [k' v'] rest IH]; cbn; [constructor |].
  intros Hnd. inversion Hnd as [| ? ? Hnotin Hrest]; subst.
  destruct (String.eqb k' k); cbn; [exact (IH Hrest) |].
  constructor; [| exact (IH Hrest)].
  intros Hin. apply Hnotin. exact (@delete_keys_incl k rest k' Hin).
Qed.

Lemma delete_absent k m : ~ In k (JsMap.keys m) -> JsMap.delete k m = m.
Proof.
  induction m as [| [k' v'] rest IH]; cbn; [reflexivity |].
  intros Hnotin. destruct (String.eqb_spec k' k) as [-> | Hne]; cbn; [tauto |].
  fold (JsMap.delete k rest). rewrite IH; [reflexivity | tauto].
Qed.

(** With distinct keys, deleting the key of the first entry leaves the
    entries after it, in order. *)
Lemma delete_first k v m :
  NoDup (JsMap.keys ((k, v) :: m)) -> JsMap.delete k ((k, v) :: m) = m.
Proof.
  intros Hnd. inversion Hnd as [| ? ? Hnotin _]; subst.
  cbn. rewrite String.eqb_refl. cbn. apply delete_absent. exact Hnotin.
Qed.
End WithValue.
End JsMapFacts.

Module BrowserPoolFacts.
Import BrowserPool JsMapFacts.
Local Open Scope Z_scope.

Lemma healthCheck_reuse (w : world) (s s1 : t) (browser : Browser) :
  healthCheck w s = inl (browser, s1) ->
  browsers s1 = browsers s /\ closeCalls s1 = closeCalls s
  /\ maxBrowsers s1 = maxBrowsers s
  /\ JsMap.get (pick s) (browsers s) = Some browser.
Proof.
  unfold healthCheck. cbn [browsers].
  destruct (JsMap.get (pick s) (browsers s)) as [b |]; [| discriminate].
  destruct (probe w); try discriminate.
  intros H; inversion H; subst; cbn. repeat split.
Qed.

Lemma healthCheck_launch (w : world) (s s1 : t) (browserType : string) :
  bounded s ->
  healthCheck w s = inr (browserType, s1) ->
  bounded s1 /\ maxBrowsers s1 = maxBrowsers s /\ browserType = pick s.
Proof.
  intros [Hnd Hsize]. unfold healthCheck. cbn [browsers].
  destruct (JsMap.get (pick s) (browsers s)) as [b |].
  - destruct (probe w); try discriminate; intros H; inversion H; subst; cbn.
    + repeat split; assumption.
    + repeat split; cbn.
      * apply delete_keys_nodup. exact Hnd.
      * pose proof (delete_size_le (pick s) (browsers s)) as Hd.
        unfold JsMap.size in *. lia.
  - intros H; inversion H; subst; cbn. repeat split; assumption.
Qed.

(** Lines 84-97: what the insertion and the eviction do to the cache. *)
Lemma launchNew_cache (w : world) (browserType : string) (s1 : t) (browser : Browser) :
  0 <= maxBrowsers s1 ->
  bounded s1 ->
  launch w = Some browser ->
  let m := JsMap.set browserType browser (browsers s1) in
  let s' := snd (launchNew w browserType s1) in
  (maxBrowsers s1 < Z.of_nat (JsMap.size m) ->
     exists oldestType oldestBrowser rest,
       m = (oldestType, oldestBrowser) :: rest
       /\ browsers s' = rest
       /\ closeCalls s' = (closeCalls s1 ++ [oldestBrowser])%list)
  /\ (Z.of_nat (JsMap.size m) <= maxBrowsers s1 ->
        browsers s' = m /\ closeCalls s' = closeCalls s1).
Proof.
  intros Hmax [Hnd Hsize] Hlaunch m s'. subst s'. unfold launchNew.
  rewrite Hlaunch. fold m.
  assert (Hndm : NoDup (JsMap.keys m)) by (apply set_keys_nodup; exact Hnd).
  destruct (Z.ltb_spec (maxBrowsers s1) (Z.of_nat (JsMap.size m))) as [Hlt | Hge].
  - split; [intros _ | lia].
    destruct m as [| [oldestType oldestBrowser] rest] eqn:Hm; [cbn in Hlt; lia |].
    exists oldestType, oldestBrowser, rest. cbn [JsMap.first hd_error snd browsers
      closeCalls withBrowsers].
    rewrite delete_first by exact Hndm. repeat split.
  - split; [lia | intros _]. cbn. rewrite app_nil_r. split; reflexivity.
Qed.

Lemma launchNew_bounded (w : world) (browserType : string) (s1 : t) :
  0 <= maxBrowsers s1 ->
  bounded s1 ->
  bounded (snd (launchNew w browserType s1))
  /\ maxBrowsers (snd (launchNew w browserType s1)) = maxBrowsers s1.
Proof.
  intros Hmax Hb. destruct (launch w) as [browser |] eqn:Hlaunch.
  - destruct (@launchNew_cache w browserType s1 browser Hmax Hb Hlaunch) as [Hevict Hkeep].
    pose proof (set_size_le browserType browser (browsers s1)) as Hle.
    destruct Hb as [Hnd Hsize].
    assert (Hndm : NoDup (JsMap.keys (JsMap.set browserType browser (browsers s1))))
      by (apply set_keys_nodup; exact Hnd).
    assert (Hsame : maxBrowsers (snd (launchNew w browserType s1)) = maxBrowsers s1).
    { unfold launchNew. rewrite Hlaunch.
      destruct (_ <? _); [destruct (JsMap.first _) as [[? ?] |] |]; reflexivity. }
    split; [| exact Hsame]. unfold bounded. rewrite Hsame.
    destruct (Z.ltb_spec (maxBrowsers s1)
                (Z.of_nat (JsMap.size (JsMap.set browserType browser (browsers s1)))))
      as [Hlt | Hge].
    + destruct (Hevict Hlt) as (k & old & rest & Hm & Hrest & _).
      rewrite Hrest. rewrite Hm in Hndm, Hle. cbn in Hndm, Hle.
      inversion Hndm; subst. split; [assumption |]. unfold JsMap.size in *. lia.
    + destruct (Hkeep Hge) as [Hm _]. rewrite Hm. split; assumption.
  - unfold launchNew. rewrite Hlaunch. cbn. split; [exact Hb | reflexivity].
Qed.

Lemma getBrowser_bounded (w : world) (s : t) :
  0 <= maxBrowsers s ->
  bounded s ->
  bounded (snd (getBrowser w s))
  /\ maxBrowsers (snd (getBrowser w s)) = maxBrowsers s.
Proof.
  intros Hmax Hb. unfold getBrowser.
  destruct (healthCheck w s) as [[browser s1] | [browserType s1]] eqn:Hc.
  - destruct (@healthCheck_reuse w s s1 browser Hc) as (Hbr & _ & Hm & _). cbn [snd].
    unfold bounded. rewrite Hbr, Hm. split; [exact Hb | reflexivity].
  - destruct (@healthCheck_launch w s s1 browserType Hb Hc) as (Hb1 & Hm & _).
    destruct (@launchNew_bounded w browserType s1) as [H1 H2];
      [lia | exact Hb1 |]. split; [exact H1 | lia].
Qed.

Lemma reachable_bounded (maxB : Z) (types : list string) (s : t) :
  0 <= maxB ->
  reachable maxB types s ->
  bounded s /\ maxBrowsers s = maxB.
Proof.
  intros Hmax Hr. induction Hr as [| w s Hr [IHb IHm] | s Hr [IHb IHm]].
  - split; [| reflexivity]. split; [constructor | cbn; lia].
  - destruct (@getBrowser_bounded w s) as [H1 H2]; [lia | exact IHb |].
    split; [exact H1 | lia].
  - split; [| exact IHm]. split; [constructor | cbn; lia].
Qed.

(** X28.  For calls that do not overlap: in every state a pool reaches by
    completed calls, a call of [getBrowser] leaves at most
    [maxBrowsers] cached entries, with distinct keys.  When the insertion of
    a launched browser makes the count exceed the maximum, the entry closed
    and removed is the first of the insertion order, and the others stay in
    order; a key that was absent is inserted last; a call that reuses the
    cached browser does not change the order. *)
Theorem getBrowser_bounded_fifo :
  forall (maxB : Z) (types : list string) (s : t) (w : world),
    0 <= maxB ->
    reachable maxB types s ->
    let s' := snd (getBrowser w s) in
    Z.of_nat (JsMap.size (browsers s')) <= maxB
    /\ NoDup (JsMap.keys (browsers s'))
    /\ (forall browserType s1 browser,
          healthCheck w s = inr (browserType, s1) ->
          launch w = Some browser ->
          let m := JsMap.set browserType browser (browsers s1) in
          (maxB < Z.of_nat (JsMap.size m) ->
             exists oldestType oldestBrowser rest,
               m = (oldestType, oldestBrowser) :: rest
               /\ browsers s' = rest
               /\ closeCalls s' = (closeCalls s1 ++ [oldestBrowser])%list)
          /\ (Z.of_nat (JsMap.size m) <= maxB ->
                browsers s' = m /\ closeCalls s' = closeCalls s1)
          /\ (JsMap.get browserType (browsers s1) = None ->
                m = (browsers s1 ++ [(browserType, browser)])%list))
    /\ (forall browser s1,
          healthCheck w s = inl (browser, s1) ->
          fst (getBrowser w s) = Returns browser
          /\ browsers s' = browsers s /\ closeCalls s' = closeCalls s).
Proof.
  intros maxB types s w Hmax Hr s'.
  destruct (@reachable_bounded maxB types s Hmax Hr) as [Hb Hm].
  destruct (@getBrowser_bounded w s) as [[Hnd Hsize] Hm']; [lia | exact Hb |].
  fold s' in Hnd, Hsize, Hm'.
  split; [lia |]. split; [exact Hnd |]. split.
  - intros browserType s1 browser Hc Hlaunch m.
    destruct (@healthCheck_launch w s s1 browserType Hb Hc) as (Hb1 & Hm1 & _).
    assert (Hs' : s' = snd (launchNew w browserType s1))
      by (subst s'; unfold getBrowser; rewrite Hc; reflexivity).
    destruct (@launchNew_cache w browserType s1 browser) as [Hevict Hkeep];
      [lia | exact Hb1 | exact Hlaunch |].
    rewrite Hs'. repeat split.
    + intros Hlt. apply Hevict. fold m. lia.
    + apply Hkeep. fold m. lia.
    + apply Hkeep. fold m. lia.
    + intros Hnone. apply set_absent. exact Hnone.
  - intros browser s1 Hc.
    destruct (@healthCheck_reuse w s s1 browser Hc) as (Hbr & Hcl & _ & _).
    subst s'. unfold getBrowser. rewrite Hc. cbn [fst snd]. repeat split; assumption.
Qed.

Lemma getBrowser_bounded_fifo_witness :
  let types := ["chromium"; "firefox"]%string in
  let s := snd (getBrowser (mkWorld Healthy (Some 1%nat)) (new 1 types)) in
  let s' := snd (getBrowser (mkWorld Healthy (Some 2%nat)) s) in
  Z.of_nat (JsMap.size (browsers s')) <= 1
  /\ browsers s' = [("firefox"%string, 2%nat)]
  /\ closeCalls s' = [1%nat].
Proof.
  intros types s s'.
  destruct (@getBrowser_bounded_fifo 1 types s (mkWorld Healthy (Some 2%nat)))
    as (Hsize & _ & Hlaunch & _).
  - lia.
  - apply reach_getBrowser. apply reach_new.
  - split; [exact Hsize |].
    destruct (Hlaunch "firefox"%string
                (mk (browsers s) 1 types 2 "firefox"%string (closeCalls s)) 2%nat)
      as (Hevict & _ & _); [reflexivity | reflexivity |].
    destruct Hevict as (oldestType & oldestBrowser & rest & Hm & Hrest & Hclosed).
    + vm_compute. reflexivity.
    + vm_compute in Hm. injection Hm as <- <- <-.
      split; [exact Hrest | exact Hclosed].
Defined.

(** *** Calls cut at their [await]s *)

(** A call that has finished awaits nothing. *)
Lemma run_finished (o : outcome) (answers : list answer) (s : t) (sys : system) :
  run (map (Settle 0) answers) (s, [Finished o]) = Some sys ->
  answers = [] /\ sys = (s, [Finished o]).
Proof.
  destruct answers as [| a rest]; cbn.
  - intros H. injection H as <-. split; reflexivity.
  - destruct a; discriminate.
Qed.

(** From the launch on, a call that nothing interrupts does what
    [launchNew] does. *)
Lemma run_launch (browserType : string) (answers : list answer) (s s' : t) (o : outcome) :
  run (map (Settle 0) answers) (s, [AtLaunch browserType]) = Some (s', [Finished o]) ->
  exists launched,
    forall probed, launchNew (mkWorld probed launched) browserType s = (o, s').
Proof.
  destruct answers as [| a rest]; [discriminate |].
  cbn [map run step nth_error snd fst]. destruct a as [| browser |].
  - discriminate.
  - cbn [resume]. intros H. exists (Some browser). intros probed.
    unfold launchNew. cbn [launch]. revert H.
    destruct (maxBrowsers s <? Z.of_nat (JsMap.size (JsMap.set browserType browser (browsers s))))%Z.
    + destruct (JsMap.first (JsMap.set browserType browser (browsers s)))
        as [[oldestType oldestBrowser] |].
      * cbn [setNth]. destruct rest as [| a rest]; [discriminate |].
        cbn [map run step nth_error snd fst].
        destruct a; try discriminate; cbn [resume setNth];
          intros H; apply run_finished in H; destruct H as [_ H];
          injection H as -> ->; unfold withBrowsers; cbn;
          rewrite app_nil_r; reflexivity.
      * cbn [setNth]. intros H. apply run_finished in H. destruct H as [_ H].
        injection H as -> ->. reflexivity.
    + cbn [setNth]. intros H. apply run_finished in H. destruct H as [_ H].
      injection H as -> ->. reflexivity.
  - cbn [resume setNth]. intros H. apply run_finished in H. destruct H as [_ H].
    injection H as -> ->. exists None. intros probed. reflexivity.
Qed.

(** From the [catch] of the health check on, likewise. *)
Lemma run_unhealthy (browserType : string) (browser : Browser)
      (answers : list answer) (s s' : t) (o : outcome) :
  run (map (Settle 0) answers) (snd (unhealthy browserType browser s),
                                [fst (unhealthy browserType browser s)])
  = Some (s', [Finished o]) ->
  exists launched,
    launchNew (mkWorld CheckThrows launched) browserType
              (withBrowsers (JsMap.delete browserType (browsers s)) [browser] s)
    = (o, s').
Proof.
  cbn [unhealthy fst snd]. destruct answers as [| a rest]; [discriminate |].
  cbn [map run step nth_error snd fst].
  destruct a; try discriminate; cbn [resume setNth]; intros H;
    destruct (run_launch _ _ _ H) as [launched Hl];
    exists launched; apply Hl.
Qed.

(** A call that no other call interrupts is a call of [getBrowser]. *)
Lemma alone_is_getBrowser (connected : option bool) (answers : list answer)
      (s s' : t) (o : outcome) :
  run (alone connected answers) (s, []) = Some (s', [Finished o]) ->
  exists w, getBrowser w s = (o, s').
Proof.
  unfold alone. cbn [run step fst snd]. unfold begin, getBrowser, healthCheck. cbv zeta.
  cbn [browsers].
  destruct (JsMap.get (pick s) (browsers s)) as [browser |].
  - destruct connected as [[|] |].
    + cbn [app]. destruct answers as [| a rest]; [discriminate |].
      cbn [map run step nth_error snd fst]. destruct a; try discriminate; cbn [resume setNth].
      * destruct rest as [| a rest]; [discriminate |].
        cbn [map run step nth_error snd fst].
        destruct a; try discriminate; cbn [resume setNth].
        -- intros H. apply run_finished in H. destruct H as [_ H]. injection H as -> ->.
           exists (mkWorld Healthy None). reflexivity.
        -- intros H. apply run_unhealthy in H. destruct H as [launched H].
           exists (mkWorld CheckThrows launched). exact H.
      * intros H. apply run_unhealthy in H. destruct H as [launched H].
        exists (mkWorld CheckThrows launched). exact H.
    + cbn [app]. intros H. destruct (run_launch _ _ _ H) as [launched Hl].
      exists (mkWorld NotConnected launched). apply Hl.
    + intros H. apply (@run_unhealthy (pick s) browser answers) in H.
      destruct H as [launched H]. exists (mkWorld CheckThrows launched). exact H.
  - cbn [app]. intros H. destruct (run_launch _ _ _ H) as [launched Hl].
    exists (mkWorld Healthy launched). apply Hl.
Qed.

(** And every call of [getBrowser] is such a call. *)
Lemma launchNew_is_run (w : world) (browserType : string) (s : t) :
  exists answers,
    run (map (Settle 0) answers) (s, [AtLaunch browserType])
    = Some (snd (launchNew w browserType s), [Finished (fst (launchNew w browserType s))]).
Proof.
  unfold launchNew. destruct (launch w) as [browser |].
  - destruct (maxBrowsers s <? Z.of_nat (JsMap.size (JsMap.set browserType browser (browsers s))))%Z
      eqn:Hfull.
    + destruct (JsMap.first (JsMap.set browserType browser (browsers s)))
        as [[oldestType oldestBrowser] |] eqn:Hfirst.
      * exists [FulfilledWith browser; Fulfilled].
        cbn [map run step nth_error snd fst resume]. rewrite Hfull, Hfirst.
        cbn [setNth run step nth_error snd fst resume map].
        unfold withBrowsers. cbn. rewrite app_nil_r. reflexivity.
      * exists [FulfilledWith browser].
        cbn [map run step nth_error snd fst resume]. rewrite Hfull, Hfirst. reflexivity.
    + exists [FulfilledWith browser].
      cbn [map run step nth_error snd fst resume]. rewrite Hfull. reflexivity.
  - exists [Rejected]. reflexivity.
Qed.

Lemma getBrowser_is_alone (w : world) (s : t) :
  exists connected answers,
    run (alone connected answers) (s, [])
    = Some (snd (getBrowser w s), [Finished (fst (getBrowser w s))]).
Proof.
  unfold getBrowser, healthCheck, alone. cbv zeta. cbn [browsers run step fst snd].
  unfold begin. cbv zeta. cbn [browsers].
  destruct (JsMap.get (pick s) (browsers s)) as [browser |].
  - destruct (probe w).
    + exists (Some true), [Fulfilled; Fulfilled]. reflexivity.
    + match goal with
      | |- context [launchNew w ?bt ?s1] =>
          destruct (launchNew_is_run w bt s1) as [answers Hrun]
      end.
      exists (Some false), answers. cbn [app]. exact Hrun.
    + match goal with
      | |- context [launchNew w ?bt ?s1] =>
          destruct (launchNew_is_run w bt s1) as [answers Hrun]
      end.
      exists None, (Fulfilled :: answers). cbn [unhealthy app map run step nth_error
                                                  snd fst resume setNth].
      exact Hrun.
  - match goal with
    | |- context [launchNew w ?bt ?s1] =>
        destruct (launchNew_is_run w bt s1) as [answers Hrun]
    end.
    exists None, answers. cbn [app]. exact Hrun.
Qed.

(** C8 (the code departs from it).  The pool allows one cached browser and
    rotates over three types; chromium is cached.  Two calls of
    [getBrowser] overlap: each launches its browser, each inserts it, finds
    the cache too large, takes chromium for the oldest entry and awaits its
    [close()]; each then deletes chromium.  Both calls return, and the cache
    is left with two entries where the maximum is one. *)
Theorem overlapping_calls_exceed_maxBrowsers :
  let pool := new 1 ["chromium"; "firefox"; "webkit"]%string in
  let warm := run (alone (Some true) [FulfilledWith 1%nat]) (pool, []) in
  let after :=
    run [Call (Some true); Settle 0 (FulfilledWith 1%nat);
         Call (Some true); Call (Some true);
         Settle 1 (FulfilledWith 2%nat); Settle 2 (FulfilledWith 3%nat);
         Settle 1 Fulfilled; Settle 2 Fulfilled]
        (pool, []) in
  warm = Some (snd (getBrowser (mkWorld Healthy (Some 1%nat)) pool),
               [Finished (Returns 1%nat)])
  /\ (exists s,
        after = Some (s, [Finished (Returns 1%nat); Finished (Returns 2%nat);
                          Finished (Returns 3%nat)])
        /\ browsers s = [("firefox"%string, 2%nat); ("webkit"%string, 3%nat)]
        /\ closeCalls s = [1%nat; 1%nat]
        /\ maxBrowsers s = 1
        /\ maxBrowsers s < Z.of_nat (JsMap.size (browsers s))).
Proof.
  split; [vm_compute; reflexivity |].
  eexists. split; [vm_compute; reflexivity |].
  repeat split.
Qed.
End BrowserPoolFacts.

(** ** URL normalization *)

Module UrlFacts.
Import Js SearchEngine Shapes.
Local Open Scope string_scope.
Local Open Scope bool_scope.

Lemma startsWith_cons (c : ascii) (p s : string) :
  startsWith s (String c p) = true ->
  exists rest, s = String c rest /\ startsWith rest p = true.
Proof.
  unfold startsWith. destruct s as [| d rest]; cbn; [discriminate |].
  destruct (ascii_dec c d) as [<- | Hne]; [| discriminate].
  intros H. exists rest. split; [reflexivity | exact H].
Qed.

Lemma startsWith_app (p q s : string) :
  startsWith s (p ++ q) = true -> startsWith s p = true.
Proof.
  revert s. induction p as [| c p IH]; intros s H.
  - unfold startsWith. destruct s; reflexivity.
  - cbn [append] in H. apply startsWith_cons in H. destruct H as (rest & -> & H).
    unfold startsWith in *. cbn. destruct (ascii_dec c c); [| congruence].
    apply IH. exact H.
Qed.

(** An address with a scheme does not begin with a slash. *)
Lemma schemeQualified_no_slash (url p : string) :
  schemeQualified url = true -> startsWith url (String "/" p) = false.
Proof.
  unfold schemeQualified. intros H.
  destruct (startsWith url (String "/" p)) eqn:Hs; [| reflexivity].
  apply startsWith_cons in Hs. destruct Hs as (rest & -> & _).
  cbn in H. discriminate.
Qed.


(** The fixed points: what is neither a wrapper nor protocol-relative is
    returned as it is. *)
Lemma cleanGoogleUrl_plain (v : string) :
  startsWith v "/url?" = false -> startsWith v "//" = false -> cleanGoogleUrl v = v.
Proof. intros H1 H2. unfold cleanGoogleUrl. rewrite H1, H2. reflexivity. Qed.

Lemma cleanBingUrl_plain (v : string) :
  includes v "bing.com/ck/a?" = false -> includes v "bing.com/ck/a&" = false ->
  startsWith v "//" = false -> cleanBingUrl v = v.
Proof.
  intros H1 H2 H3. unfold cleanBingUrl. rewrite H1, H2, H3. cbn.
  destruct (_ || _); reflexivity.
Qed.

Lemma cleanDuckDuckGoUrl_plain (v : string) :
  startsWith v "//" = false -> cleanDuckDuckGoUrl v = v.
Proof.
  intros H. unfold cleanDuckDuckGoUrl. rewrite H.
  destruct (startsWith v "//duckduckgo.com/l/") eqn:Hw; [| reflexivity].
  apply (@startsWith_app "//" "duckduckgo.com/l/" v) in Hw. congruence.
Qed.

Lemma cleanBraveUrl_plain (v : string) :
  startsWith v "//" = false -> cleanBraveUrl v = v.
Proof. intros H. unfold cleanBraveUrl. rewrite H. destruct (_ || _); reflexivity. Qed.





(** The padding that [cleanBingUrl] appends changes nothing: [=] ends the
    decoding. *)
Lemma sextets_padding (s : string) (k : nat) :
  sextets (s ++ repeatChar "=" k) = sextets s.
Proof.
  induction s as [| c s IH]; cbn [append sextets].
  - destruct k; reflexivity.
  - destruct (Ascii.eqb c "="); [reflexivity |].
    destruct (unbase64 c); rewrite IH; reflexivity.
Qed.

Lemma base64Decode_padding (s : string) (k : nat) :
  base64Decode (s ++ repeatChar "=" k) = base64Decode s.
Proof. unfold base64Decode. rewrite sextets_padding. reflexivity. Qed.





Example cleanGoogleUrl_redirect :
  cleanGoogleUrl "/url?q=https://example.com/a%20b&sa=U" = "https://example.com/a b".
Proof. vm_compute. reflexivity. Qed.

Example cleanBingUrl_redirect :
  cleanBingUrl "https://www.bing.com/ck/a?!&&p=abc&u=a1aHR0cHM6Ly9leGFtcGxlLmNvbQ&ntb=1"
  = "https://example.com".
Proof. vm_compute. reflexivity. Qed.

Example cleanDuckDuckGoUrl_redirect :
  cleanDuckDuckGoUrl "//duckduckgo.com/l/?uddg=https%3A%2F%2Fexample.com%2F&rut=1"
  = "https://example.com/".
Proof. vm_compute. reflexivity. Qed.

(** C9, as stated, fails: a wrapper around a protocol-relative target, or
    around another wrapper, is unwrapped one level at each application. *)
Lemma normalization_not_idempotent :
  cleanGoogleUrl (cleanGoogleUrl "/url?q=//example.com")
    <> cleanGoogleUrl "/url?q=//example.com"
  /\ cleanBingUrl
       (cleanBingUrl
          "https://www.bing.com/ck/a?u=a1aHR0cHM6Ly93d3cuYmluZy5jb20vY2svYT91PWExYUhSMGNITTZMeTlsZUdGdGNHeGxMbU52YlE")
     <> cleanBingUrl
          "https://www.bing.com/ck/a?u=a1aHR0cHM6Ly93d3cuYmluZy5jb20vY2svYT91PWExYUhSMGNITTZMeTlsZUdGdGNHeGxMbU52YlE"
  /\ cleanDuckDuckGoUrl (cleanDuckDuckGoUrl "//duckduckgo.com/l/?uddg=%2F%2Fexample.com")
     <> cleanDuckDuckGoUrl "//duckduckgo.com/l/?uddg=%2F%2Fexample.com".
Proof.
  repeat split; vm_compute; discriminate.
Qed.

(** C9, amended.  Each normalizer is idempotent at every [u] whose
    normalized form is not itself wrapped or protocol-relative: there
    [normalize (normalize u) = normalize u]. *)
Theorem normalization_idempotent_when_unwrapped :
  forall u : string,
    (startsWith (cleanGoogleUrl u) "/url?" = false ->
     startsWith (cleanGoogleUrl u) "//" = false ->
     cleanGoogleUrl (cleanGoogleUrl u) = cleanGoogleUrl u)
    /\ (includes (cleanBingUrl u) "bing.com/ck/a?" = false ->
        includes (cleanBingUrl u) "bing.com/ck/a&" = false ->
        startsWith (cleanBingUrl u) "//" = false ->
        cleanBingUrl (cleanBingUrl u) = cleanBingUrl u)
    /\ (startsWith (cleanDuckDuckGoUrl u) "//" = false ->
        cleanDuckDuckGoUrl (cleanDuckDuckGoUrl u) = cleanDuckDuckGoUrl u).
Proof.
  intros u. repeat split.
  - apply cleanGoogleUrl_plain.
  - apply cleanBingUrl_plain.
  - apply cleanDuckDuckGoUrl_plain.
Qed.

Lemma normalization_idempotent_when_unwrapped_witness :
  cleanGoogleUrl (cleanGoogleUrl "/url?q=https://example.com/&sa=U")
    = cleanGoogleUrl "/url?q=https://example.com/&sa=U"
  /\ cleanBingUrl (cleanBingUrl "https://www.bing.com/ck/a?u=a1aHR0cHM6Ly9leGFtcGxlLmNvbQ&ntb=1")
     = cleanBingUrl "https://www.bing.com/ck/a?u=a1aHR0cHM6Ly9leGFtcGxlLmNvbQ&ntb=1"
  /\ cleanDuckDuckGoUrl
       (cleanDuckDuckGoUrl "//duckduckgo.com/l/?uddg=https%3A%2F%2Fexample.com%2F")
     = cleanDuckDuckGoUrl "//duckduckgo.com/l/?uddg=https%3A%2F%2Fexample.com%2F".
Proof.
  split; [| split].
  - apply (normalization_idempotent_when_unwrapped "/url?q=https://example.com/&sa=U");
      vm_compute; reflexivity.
  - apply (normalization_idempotent_when_unwrapped
             "https://www.bing.com/ck/a?u=a1aHR0cHM6Ly9leGFtcGxlLmNvbQ&ntb=1");
      vm_compute; reflexivity.
  - apply (normalization_idempotent_when_unwrapped
             "//duckduckgo.com/l/?uddg=https%3A%2F%2Fexample.com%2F");
      vm_compute; reflexivity.
Defined.
End UrlFacts.

(** ** The parsers *)

Module ParserFacts.
Import Js Cheerio SearchEngine UrlFacts Scenarios Shapes.
Local Open Scope string_scope.
Local Open Scope bool_scope.

(** What holds of the state before [each] and is kept by every call of the
    callback holds after [each]. *)
Lemma each_invariant (S : Type) (P : S -> Prop)
      (callback : element -> S -> option S) :
  (forall e st st', P st -> callback e st = Some st' -> P st') ->
  forall sel st, P st -> P (each callback sel st).
Proof.
  intros Hstep sel. induction sel as [| e rest IH]; intros st HP; cbn; [exact HP |].
  destruct (callback e st) as [st1 |] eqn:Hcb; [| exact HP].
  apply IH. exact (Hstep e st st1 HP Hcb).
Qed.

Lemma selectorLoop_invariant (P : list SearchResult * bool -> Prop)
      (card : element -> list SearchResult * bool -> option (list SearchResult * bool))
      (maxResults : Z) (doc : page) :
  (forall e st st', P st -> card e st = Some st' -> P st') ->
  forall selectors st, P st -> P (selectorLoop card maxResults doc selectors st).
Proof.
  intros Hstep selectors. induction selectors as [| selector rest IH];
    intros st HP; cbn; [exact HP |].
  destruct (snd st && reached maxResults (fst st)); [exact HP |].
  destruct (doc selector) as [| e es] eqn:Hdoc; [apply IH; exact HP |].
  apply IH. apply each_invariant; assumption.
Qed.

Lemma googleSelectorLoop_invariant (P : list SearchResult * bool -> Prop)
      (timestamp : string) (maxResults : Z) (doc : page) :
  (forall e st st', P st -> googleCard timestamp maxResults e st = Some st' -> P st') ->
  forall selectors st,
    P st -> P (googleSelectorLoop timestamp maxResults doc selectors st).
Proof.
  intros Hstep selectors. induction selectors as [| selector rest IH];
    intros st HP; cbn; [exact HP |].
  destruct (snd st); [exact HP |].
  apply IH. apply each_invariant; assumption.
Qed.

Section Pushed.
Variables (clean : string -> string) (accept : string -> bool) (timestamp : string).

Lemma push_kept (found : list SearchResult) (title href description : string) :
  Forall (pushedFor clean accept timestamp) found ->
  truthy title && truthy href && accept href = true ->
  Forall (pushedFor clean accept timestamp)
         (found ++ [newResult title (clean href) description timestamp]).
Proof.
  intros Hall Hok. apply andb_prop in Hok. destruct Hok as [Hok Hacc].
  apply andb_prop in Hok. destruct Hok as [Ht Hh].
  apply Forall_app. split; [exact Hall |]. constructor; [| constructor].
  exists title, href, description. repeat split; assumption.
Qed.
End Pushed.

Lemma pushedFor_unfetched (clean : string -> string) (accept : string -> bool)
      (timestamp : string) (r : SearchResult) :
  pushedFor clean accept timestamp r -> unfetched r.
Proof.
  intros (title & href & description & -> & _). repeat split.
Qed.

Lemma googleCard_pushes (timestamp : string) (maxResults : Z) (e : element)
      (st st' : list SearchResult * bool) :
  Forall (pushedFor cleanGoogleUrl isValidSearchUrl timestamp) (fst st) ->
  googleCard timestamp maxResults e st = Some st' ->
  Forall (pushedFor cleanGoogleUrl isValidSearchUrl timestamp) (fst st').
Proof.
  intros HP. unfold googleCard. destruct (reached _ _); [discriminate |].
  destruct (googleTitleAndUrl _ _) as [title href].
  destruct (truthy title && truthy href && isValidSearchUrl href) eqn:Hok;
    intros H; inversion H; subst; [| exact HP].
  cbn [fst]. apply push_kept; assumption.
Qed.

Lemma googleHeading_pushes (timestamp : string) (maxResults : Z) (h3 : element)
      (found found' : list SearchResult) :
  Forall (pushedFor cleanGoogleUrl isValidSearchUrl timestamp) found ->
  googleHeading timestamp maxResults h3 found = Some found' ->
  Forall (pushedFor cleanGoogleUrl isValidSearchUrl timestamp) found'.
Proof.
  intros HP. unfold googleHeading. destruct (reached _ _); [discriminate |].
  destruct (closestA h3) as [link |]; [| intros H; inversion H; subst; exact HP].
  destruct (truthy (trim (text h3))) eqn:Ht; [| intros H; inversion H; subst; exact HP].
  destruct (isValidSearchUrl (hrefOrEmpty link)) eqn:Hv;
    intros H; inversion H; subst; [| exact HP].
  apply push_kept; [exact HP |]. rewrite Ht, Hv.
  destruct (truthy (hrefOrEmpty link)) eqn:Hh; [reflexivity |].
  unfold truthy in Hh. apply negb_false_iff, String.eqb_eq in Hh.
  rewrite Hh in Hv. cbn in Hv. discriminate.
Qed.

Lemma braveCard_pushes (timestamp : string) (maxResults : Z) (e : element)
      (st st' : list SearchResult * bool) :
  Forall (pushedFor cleanBraveUrl isValidSearchUrl timestamp) (fst st) ->
  braveCard timestamp maxResults e st = Some st' ->
  Forall (pushedFor cleanBraveUrl isValidSearchUrl timestamp) (fst st').
Proof.
  intros HP. unfold braveCard. destruct (reached _ _); [discriminate |].
  destruct (braveTitleAndUrl _ _ _) as [title0 href].
  destruct (truthy (braveTitleFromText e title0) && truthy href && isValidSearchUrl href)
    eqn:Hok; intros H; inversion H; subst; [| exact HP].
  cbn [fst]. apply push_kept; assumption.
Qed.

Lemma bingCard_pushes (timestamp : string) (maxResults : Z) (e : element)
      (st st' : list SearchResult * bool) :
  Forall (pushedFor cleanBingUrl isValidSearchUrl timestamp) (fst st) ->
  bingCard timestamp maxResults e st = Some st' ->
  Forall (pushedFor cleanBingUrl isValidSearchUrl timestamp) (fst st').
Proof.
  intros HP. unfold bingCard. destruct (reached _ _); [discriminate |].
  destruct (bingTitleAndUrl _ _) as [title href].
  destruct (truthy title && truthy href && isValidSearchUrl href) eqn:Hok;
    intros H; inversion H; subst; [| exact HP].
  cbn [fst]. apply push_kept; assumption.
Qed.

Lemma duckDuckGoCard_pushes (timestamp : string) (maxResults : Z) (e : element)
      (found found' : list SearchResult) :
  Forall (pushedFor cleanDuckDuckGoUrl (fun _ => true) timestamp) found ->
  duckDuckGoCard timestamp maxResults e found = Some found' ->
  Forall (pushedFor cleanDuckDuckGoUrl (fun _ => true) timestamp) found'.
Proof.
  intros HP. unfold duckDuckGoCard. destruct (reached _ _); [discriminate |].
  destruct (attrHref _) as [href |]; [| intros H; inversion H; subst; exact HP].
  destruct (truthy _ && truthy href) eqn:Hok; intros H; inversion H; subst; [| exact HP].
  apply push_kept; [exact HP |]. rewrite Hok. reflexivity.
Qed.

(** Every result of every parser was pushed for a card, by the literal of
    [newResult], after the normalizer of the engine. *)
Lemma parseSearchResults_pushed (timestamp : string) (doc : page) (maxResults : Z) :
  Forall (pushedFor cleanGoogleUrl isValidSearchUrl timestamp)
         (parseSearchResults timestamp doc maxResults).
Proof.
  unfold parseSearchResults.
  assert (Hloop : Forall (pushedFor cleanGoogleUrl isValidSearchUrl timestamp)
                    (fst (googleSelectorLoop timestamp maxResults doc
                            searchResultSelectors ([], false)))).
  { apply (@googleSelectorLoop_invariant
             (fun st => Forall (pushedFor cleanGoogleUrl isValidSearchUrl timestamp) (fst st))).
    - intros e st st'. apply googleCard_pushes.
    - constructor. }
  destruct (fst (googleSelectorLoop _ _ _ _ _)) as [| r rs]; [| exact Hloop].
  apply (@each_invariant _
           (Forall (pushedFor cleanGoogleUrl isValidSearchUrl timestamp))).
  - intros e st st'. apply googleHeading_pushes.
  - constructor.
Qed.

Lemma parseBraveResults_pushed (timestamp : string) (doc : page) (maxResults : Z) :
  Forall (pushedFor cleanBraveUrl isValidSearchUrl timestamp)
         (parseBraveResults timestamp doc maxResults).
Proof.
  unfold parseBraveResults.
  apply (@selectorLoop_invariant
           (fun st => Forall (pushedFor cleanBraveUrl isValidSearchUrl timestamp) (fst st))).
  - intros e st st'. apply braveCard_pushes.
  - constructor.
Qed.

Lemma parseBingResults_pushed (timestamp : string) (doc : page) (maxResults : Z) :
  Forall (pushedFor cleanBingUrl isValidSearchUrl timestamp)
         (parseBingResults timestamp doc maxResults).
Proof.
  unfold parseBingResults.
  apply (@selectorLoop_invariant
           (fun st => Forall (pushedFor cleanBingUrl isValidSearchUrl timestamp) (fst st))).
  - intros e st st'. apply bingCard_pushes.
  - constructor.
Qed.

Lemma parseDuckDuckGoResults_pushed (timestamp : string) (doc : page) (maxResults : Z) :
  Forall (pushedFor cleanDuckDuckGoUrl (fun _ => true) timestamp)
         (parseDuckDuckGoResults timestamp doc maxResults).
Proof.
  unfold parseDuckDuckGoResults.
  apply (@each_invariant _
           (Forall (pushedFor cleanDuckDuckGoUrl (fun _ => true) timestamp))).
  - intros e st st'. apply duckDuckGoCard_pushes.
  - constructor.
Qed.

(** C10.  Whatever the page and the limit, every result a parser returns has
    an empty [fullContent] and [contentPreview], a [wordCount] of 0 and the
    [fetchStatus] ['success'], although nothing was fetched for it. *)
Theorem parsed_results_unfetched :
  forall (timestamp : string) (doc : page) (maxResults : Z),
    Forall unfetched (parseSearchResults timestamp doc maxResults)
    /\ Forall unfetched (parseBraveResults timestamp doc maxResults)
    /\ Forall unfetched (parseBingResults timestamp doc maxResults)
    /\ Forall unfetched (parseDuckDuckGoResults timestamp doc maxResults).
Proof.
  intros timestamp doc maxResults. repeat split.
  - eapply Forall_impl; [| apply parseSearchResults_pushed].
    intros r. apply pushedFor_unfetched.
  - eapply Forall_impl; [| apply parseBraveResults_pushed].
    intros r. apply pushedFor_unfetched.
  - eapply Forall_impl; [| apply parseBingResults_pushed].
    intros r. apply pushedFor_unfetched.
  - eapply Forall_impl; [| apply parseDuckDuckGoResults_pushed].
    intros r. apply pushedFor_unfetched.
Qed.



Example google_redirect_is_unwrapped :
  map url (parseSearchResults "t" googleWrappedPage 5) = ["https://www.rust-lang.org/"].
Proof. vm_compute. reflexivity. Qed.

Example duckDuckGo_redirect_is_unwrapped :
  map url (parseDuckDuckGoResults "t" duckDuckGoWrappedPage 5)
  = ["https://www.rust-lang.org/"].
Proof. vm_compute. reflexivity. Qed.

End ParserFacts.

(** ** Rounding to a double *)

Module DoubleFacts.
Import Double.
Local Open Scope Q_scope.

Lemma pow2_pos (e : Z) : 0 < pow2 e.
Proof. apply Qpower_0_lt. reflexivity. Qed.

Lemma pow2_add (a b : Z) : pow2 (a + b) == pow2 a * pow2 b.
Proof. apply Qpower_plus. discriminate. Qed.

Lemma pow2_le (a b : Z) : (a <= b)%Z -> pow2 a <= pow2 b.
Proof. intros H. apply Qpower_le_compat_l; [exact H | discriminate]. Qed.

Lemma pow2_lt (a b : Z) : (a < b)%Z -> pow2 a < pow2 b.
Proof. intros H. apply Qpower_lt_compat_l; [exact H | reflexivity]. Qed.

Lemma pow2_int (e : Z) : (0 <= e)%Z -> pow2 e == inject_Z (2 ^ e).
Proof. intros H. symmetry. apply (Zpower_Qpower 2 e H). Qed.

(** [2^(a-b)] as a quotient of integers. *)
Lemma pow2_sub (a b : Z) :
  (0 <= a)%Z -> (0 <= b)%Z -> pow2 (a - b) == inject_Z (2 ^ a) / inject_Z (2 ^ b).
Proof.
  intros Ha Hb. unfold Z.sub. rewrite pow2_add. unfold pow2 at 2.
  rewrite Qpower_opp. fold (pow2 b). rewrite (pow2_int Ha), (pow2_int Hb).
  reflexivity.
Qed.

Lemma inject_Z_pos (n : Z) : (0 < n)%Z -> 0 < inject_Z n.
Proof. intros H. change 0 with (inject_Z 0). rewrite <- Zlt_Qlt. exact H. Qed.

(** A fraction of positive integers against a quotient of integers. *)
Lemma fraction_lt (n d a b : Z) :
  (0 < d)%Z -> (0 < b)%Z -> (n * b < a * d)%Z ->
  inject_Z n / inject_Z d < inject_Z a / inject_Z b.
Proof.
  intros Hd Hb H. apply Qlt_shift_div_r; [apply inject_Z_pos; exact Hd |].
  assert (Heq : inject_Z a / inject_Z b * inject_Z d
                == inject_Z a * inject_Z d / inject_Z b).
  { field. intros Hz. pose proof (inject_Z_pos Hb) as Hp. rewrite Hz in Hp.
    discriminate. }
  rewrite Heq. apply Qlt_shift_div_l; [apply inject_Z_pos; exact Hb |].
  rewrite <- !inject_Z_mult, <- Zlt_Qlt. exact H.
Qed.

Lemma fraction_le (n d a b : Z) :
  (0 < d)%Z -> (0 < b)%Z -> (a * d <= n * b)%Z ->
  inject_Z a / inject_Z b <= inject_Z n / inject_Z d.
Proof.
  intros Hd Hb H. apply Qle_shift_div_l; [apply inject_Z_pos; exact Hd |].
  assert (Heq : inject_Z a / inject_Z b * inject_Z d
                == inject_Z a * inject_Z d / inject_Z b).
  { field. intros Hz. pose proof (inject_Z_pos Hb) as Hp. rewrite Hz in Hp.
    discriminate. }
  rewrite Heq. apply Qle_shift_div_r; [apply inject_Z_pos; exact Hb |].
  rewrite <- !inject_Z_mult, <- Zle_Qle. exact H.
Qed.

(** The binade of a positive number holds it. *)
Lemma binade_spec (x : Q) :
  0 < x -> pow2 (binade x) <= x /\ x < pow2 (binade x + 1).
Proof.
  intros Hx. destruct x as [n d].
  assert (Hn : (0 < n)%Z).
  { unfold Qlt in Hx. cbn in Hx. lia. }
  pose proof (Z.log2_spec n Hn) as [Hn1 Hn2].
  pose proof (Z.log2_spec (Zpos d) (Pos2Z.is_pos d)) as [Hd1 Hd2].
  pose proof (Z.log2_nonneg n) as Hln. pose proof (Z.log2_nonneg (Zpos d)) as Hld.
  set (ln := Z.log2 n) in *. set (ld := Z.log2 (Zpos d)) in *.
  assert (Hpn : (0 < 2 ^ ln)%Z) by (apply Z.pow_pos_nonneg; lia).
  assert (Hpd : (0 < 2 ^ ld)%Z) by (apply Z.pow_pos_nonneg; lia).
  assert (Hsn : (2 ^ Z.succ ln = 2 * 2 ^ ln)%Z) by (apply Z.pow_succ_r; lia).
  assert (Hsd : (2 ^ Z.succ ld = 2 * 2 ^ ld)%Z) by (apply Z.pow_succ_r; lia).
  assert (Hfrac : n # d == inject_Z n / inject_Z (Zpos d)) by apply Qmake_Qdiv.
  assert (Hup : n # d < pow2 (ln - ld + 1)).
  { replace (ln - ld + 1)%Z with (Z.succ ln - ld)%Z by lia.
    rewrite pow2_sub by lia. rewrite Hfrac.
    apply fraction_lt; [lia | lia | nia]. }
  assert (Hlow : pow2 (ln - ld - 1) <= n # d).
  { replace (ln - ld - 1)%Z with (ln - Z.succ ld)%Z by lia.
    rewrite pow2_sub by lia. rewrite Hfrac.
    apply fraction_le; [lia | lia | nia]. }
  unfold binade. cbn [Qnum Qden]. fold ln ld.
  destruct (Qle_bool (pow2 (ln - ld)) (n # d)) eqn:Hcmp.
  - apply Qle_bool_iff in Hcmp. split; [exact Hcmp | exact Hup].
  - split; [exact Hlow |].
    replace (ln - ld - 1 + 1)%Z with (ln - ld)%Z by lia.
    apply Qnot_le_lt. intros Hle. apply Qle_bool_iff in Hle. congruence.
Qed.

Lemma binade_le (x y : Q) : 0 < x -> x <= y -> (binade x <= binade y)%Z.
Proof.
  intros Hx Hxy.
  assert (Hy : 0 < y) by (eapply Qlt_le_trans; eassumption).
  destruct (binade_spec Hx) as [Hx1 _]. destruct (binade_spec Hy) as [_ Hy2].
  destruct (Z_le_gt_dec (binade x) (binade y)) as [H | H]; [exact H | exfalso].
  assert (Hp : pow2 (binade y + 1) <= pow2 (binade x)) by (apply pow2_le; lia).
  lra.
Qed.

(** The binade is settled by the value, not by the fraction that writes it. *)
Lemma binade_unique (x : Q) (e : Z) :
  pow2 e <= x -> x < pow2 (e + 1) -> binade x = e.
Proof.
  intros H1 H2.
  assert (Hx : 0 < x) by (pose proof (pow2_pos e); lra).
  destruct (binade_spec Hx) as [Hb1 Hb2].
  destruct (Z.lt_trichotomy (binade x) e) as [H | [H | H]]; [exfalso | exact H | exfalso].
  - assert (Hp : pow2 (binade x + 1) <= pow2 e) by (apply pow2_le; lia). lra.
  - assert (Hp : pow2 (e + 1) <= pow2 (binade x)) by (apply pow2_le; lia). lra.
Qed.

(** *** Rounding to an integer *)

Lemma nearestEven_bounds (x : Q) :
  (Qfloor x <= nearestEven x <= Qfloor x + 1)%Z.
Proof.
  unfold nearestEven. destruct (Qcompare _ _); [destruct (Z.even _) | |]; lia.
Qed.

Lemma nearestEven_int (n : Z) : nearestEven (inject_Z n) = n.
Proof.
  unfold nearestEven. rewrite Qfloor_Z.
  destruct (Qcompare_spec (inject_Z n - inject_Z n) (1 # 2)) as [H | H | H];
    [exfalso; lra | reflexivity | exfalso; lra].
Qed.

Lemma nearestEven_le (x y : Q) : x <= y -> (nearestEven x <= nearestEven y)%Z.
Proof.
  intros Hxy. pose proof (Qfloor_resp_le _ _ Hxy) as Hf.
  pose proof (nearestEven_bounds x) as Bx. pose proof (nearestEven_bounds y) as By.
  destruct (Z.eq_dec (Qfloor x) (Qfloor y)) as [Heq | Hne]; [| lia].
  unfold nearestEven. rewrite Heq.
  destruct (Qcompare_spec (x - inject_Z (Qfloor y)) (1 # 2)) as [Hx | Hx | Hx];
    destruct (Qcompare_spec (y - inject_Z (Qfloor y)) (1 # 2)) as [Hy | Hy | Hy];
    try destruct (Z.even (Qfloor y)); try lia; exfalso; lra.
Qed.

(** *** Rounding to a double *)

Lemma round_comp (x y : Q) : x == y -> round x = round y.
Proof. intros H. unfold round. rewrite (Qred_complete _ _ H). reflexivity. Qed.

Lemma round_nonneg (x : Q) : 0 <= x -> 0 <= round x.
Proof.
  intros Hx. unfold round. cbv zeta.
  set (u := pow2 (ulpExponent (Qred x))).
  assert (Hu : 0 < u) by apply pow2_pos.
  assert (Hq : 0 <= Qred x / u).
  { apply Qle_shift_div_l; [exact Hu |]. rewrite Qred_correct. lra. }
  pose proof (nearestEven_le Hq) as Hn.
  change (nearestEven 0) with (nearestEven (inject_Z 0)) in Hn.
  rewrite (nearestEven_int 0) in Hn.
  apply Qmult_le_0_compat; [| lra].
  change 0 with (inject_Z 0). rewrite <- Zle_Qle. exact Hn.
Qed.

Lemma round_nonpos (x : Q) : x <= 0 -> round x <= 0.
Proof.
  intros Hx. unfold round. cbv zeta.
  set (u := pow2 (ulpExponent (Qred x))).
  assert (Hu : 0 < u) by apply pow2_pos.
  assert (Hq : Qred x / u <= 0).
  { apply Qle_shift_div_r; [exact Hu |]. rewrite Qred_correct. lra. }
  pose proof (nearestEven_le Hq) as Hn.
  change (nearestEven 0) with (nearestEven (inject_Z 0)) in Hn.
  rewrite (nearestEven_int 0) in Hn.
  assert (Hi : inject_Z (nearestEven (Qred x / u)) <= 0).
  { change 0 with (inject_Z 0). rewrite <- Zle_Qle. exact Hn. }
  nra.
Qed.
Lemma Qabs_positive (x : Q) : 0 < x -> Qabs x = x.
Proof.
  destruct x as [n d]. unfold Qlt. cbn. intros H. unfold Qabs.
  rewrite Z.abs_eq by lia. reflexivity.
Qed.

Lemma pow2_split (e u : Z) :
  (u <= e)%Z -> pow2 e == inject_Z (2 ^ (e - u)) * pow2 u.
Proof.
  intros H. rewrite <- pow2_int by lia. rewrite <- pow2_add.
  replace (e - u + u)%Z with e by lia. reflexivity.
Qed.

(** What is at most a power of two is rounded to at most that power, on
    every grid that holds the power; likewise from below. *)
Lemma grid_up (x : Q) (e u : Z) :
  x <= pow2 e -> (u <= e)%Z ->
  inject_Z (nearestEven (x / pow2 u)) * pow2 u <= pow2 e.
Proof.
  intros Hx Hu. pose proof (pow2_pos u) as Hp.
  rewrite (pow2_split Hu). apply Qmult_le_compat_r; [| lra].
  rewrite <- Zle_Qle. rewrite <- (nearestEven_int (2 ^ (e - u))).
  apply nearestEven_le. apply Qle_shift_div_r; [exact Hp |].
  rewrite <- (pow2_split Hu). exact Hx.
Qed.

Lemma grid_down (x : Q) (e u : Z) :
  pow2 e <= x -> (u <= e)%Z ->
  pow2 e <= inject_Z (nearestEven (x / pow2 u)) * pow2 u.
Proof.
  intros Hx Hu. pose proof (pow2_pos u) as Hp.
  rewrite (pow2_split Hu). apply Qmult_le_compat_r; [| lra].
  rewrite <- Zle_Qle. rewrite <- (nearestEven_int (2 ^ (e - u))) at 1.
  apply nearestEven_le. apply Qle_shift_div_l; [exact Hp |].
  rewrite <- (pow2_split Hu). exact Hx.
Qed.

Lemma round_le_pos (x y : Q) : 0 < x -> x <= y -> round x <= round y.
Proof.
  intros Hx Hxy. unfold round. cbv zeta.
  assert (Hxr : 0 < Qred x) by (rewrite Qred_correct; exact Hx).
  assert (Hle : Qred x <= Qred y) by (rewrite !Qred_correct; exact Hxy).
  assert (Hyr : 0 < Qred y) by lra.
  unfold ulpExponent. rewrite (Qabs_positive Hxr), (Qabs_positive Hyr).
  pose proof (binade_le Hxr Hle) as Hb.
  destruct (binade_spec Hxr) as [_ Hx2]. destruct (binade_spec Hyr) as [Hy1 _].
  set (bx := binade (Qred x)) in *. set (by' := binade (Qred y)) in *.
  destruct (Z.eq_dec (Z.max (bx - 52) (-1074)) (Z.max (by' - 52) (-1074)))
    as [Heq | Hne].
  - rewrite Heq. set (u := pow2 (Z.max (by' - 52) (-1074))).
    assert (Hu : 0 < u) by apply pow2_pos.
    apply Qmult_le_compat_r; [| lra]. rewrite <- Zle_Qle.
    apply nearestEven_le. apply Qle_shift_div_l; [exact Hu |].
    assert (Hcancel : Qred x / u * u == Qred x) by (field; lra).
    rewrite Hcancel. exact Hle.
  - apply Qle_trans with (pow2 by').
    + apply grid_up; [| lia].
      assert (Hp : pow2 (bx + 1) <= pow2 by') by (apply pow2_le; lia). lra.
    + apply grid_down; [exact Hy1 | lia].
Qed.

(** Rounding keeps the order of what is not negative. *)
Lemma round_le (x y : Q) : 0 <= x -> x <= y -> round x <= round y.
Proof.
  intros Hx Hxy. destruct (Qlt_le_dec 0 x) as [Hpos | Hzero].
  - apply round_le_pos; assumption.
  - apply Qle_trans with 0; [apply round_nonpos; exact Hzero |].
    apply round_nonneg. lra.
Qed.

Lemma round_0 : round 0 == 0.
Proof. vm_compute. reflexivity. Qed.

Lemma round_1 : round 1 == 1.
Proof. vm_compute. reflexivity. Qed.

Lemma round_le_1 (x : Q) : x <= 1 -> round x <= 1.
Proof.
  intros H. destruct (Qlt_le_dec 0 x) as [Hpos | Hneg].
  - rewrite <- round_1. apply round_le_pos; assumption.
  - apply Qle_trans with 0; [apply round_nonpos; exact Hneg | discriminate].
Qed.

Lemma round_ge_1 (x : Q) : 1 <= x -> 1 <= round x.
Proof. intros H. rewrite <- round_1 at 1. apply round_le_pos; [reflexivity | exact H]. Qed.
Lemma nearestEven_comp (x y : Q) : x == y -> nearestEven x = nearestEven y.
Proof.
  intros H. apply Z.le_antisymm; apply nearestEven_le; rewrite H; apply Qle_refl.
Qed.

(** The whole numbers up to [2^53] are doubles. *)
Lemma round_int (k : Z) : (0 <= k <= 2 ^ 53)%Z -> round (inject_Z k) == inject_Z k.
Proof.
  intros [Hk0 Hk53].
  destruct (Z.eq_dec k 0) as [-> | Hnz]; [vm_compute; reflexivity |].
  destruct (Z.eq_dec k (2 ^ 53)) as [-> | Hne]; [vm_compute; reflexivity |].
  assert (Hpos : (0 < k)%Z) by lia.
  pose proof (Z.log2_spec k Hpos) as [Hl1 Hl2].
  pose proof (Z.log2_nonneg k) as Hl0.
  assert (Hl52 : (Z.log2 k <= 52)%Z).
  { apply Z.lt_succ_r. apply (Z.pow_lt_mono_r_iff 2); lia. }
  set (b := Z.log2 k) in *.
  unfold round. cbv zeta.
  assert (Hred : Qred (inject_Z k) == inject_Z k) by apply Qred_correct.
  assert (Hrpos : 0 < Qred (inject_Z k)) by (rewrite Hred; apply inject_Z_pos; exact Hpos).
  unfold ulpExponent. rewrite (Qabs_positive Hrpos).
  assert (Hb : binade (Qred (inject_Z k)) = b).
  { apply binade_unique; rewrite Hred.
    - rewrite pow2_int by lia. rewrite <- Zle_Qle. exact Hl1.
    - rewrite pow2_int by lia. rewrite <- Zlt_Qlt.
      replace (b + 1)%Z with (Z.succ b) by lia. exact Hl2. }
  rewrite Hb. replace (Z.max (b - 52) (-1074)) with (b - 52)%Z by lia.
  assert (Hu : pow2 (b - 52) * inject_Z (2 ^ (52 - b)) == 1).
  { rewrite <- pow2_int by lia. rewrite <- pow2_add.
    replace (b - 52 + (52 - b))%Z with 0%Z by lia. reflexivity. }
  pose proof (pow2_pos (b - 52)) as Hp.
  assert (Hq : Qred (inject_Z k) / pow2 (b - 52) == inject_Z (k * 2 ^ (52 - b))).
  { rewrite Hred, inject_Z_mult. apply Qmult_inj_r with (pow2 (b - 52)); [lra |].
    assert (Hc : inject_Z k / pow2 (b - 52) * pow2 (b - 52) == inject_Z k)
      by (field; lra).
    rewrite Hc. rewrite <- Qmult_assoc, (Qmult_comm (inject_Z (2 ^ (52 - b)))), Hu.
    ring. }
  rewrite (nearestEven_comp Hq), nearestEven_int, inject_Z_mult.
  rewrite <- Qmult_assoc, (Qmult_comm (inject_Z (2 ^ (52 - b)))), Hu. ring.
Qed.
(** Between a half and one the doubles are the multiples of [2^-53]. *)
Lemma round_half_to_one (x : Q) :
  1 # 2 <= x -> x < 1 ->
  exists n : Z, round x = inject_Z n * pow2 (-53).
Proof.
  intros H1 H2. unfold round. cbv zeta.
  assert (Hred : Qred x == x) by apply Qred_correct.
  assert (Hpos : 0 < Qred x) by lra.
  unfold ulpExponent. rewrite (Qabs_positive Hpos).
  assert (Hb : binade (Qred x) = (-1)%Z).
  { apply binade_unique; rewrite Hred; [exact H1 | exact H2]. }
  rewrite Hb. eexists. reflexivity.
Qed.

(** The literal [0.8] is the double next above eight tenths, so a double is
    at least eight tenths exactly when it is at least the literal. *)
Lemma eight_tenths (x : Q) : 8 # 10 <= round x <-> round (8 # 10) <= round x.
Proof.
  assert (Hs : round (8 # 10) == 3602879701896397 # 4503599627370496)
    by (vm_compute; reflexivity).
  split; intros H.
  - destruct (Qlt_le_dec x (8 # 10)) as [Hlow | Hhigh];
      [| apply round_le; [lra | exact Hhigh]].
    destruct (Qlt_le_dec x (1 # 2)) as [Hsmall | Hhalf].
    + exfalso. destruct (Qlt_le_dec x 0) as [Hneg | Hnn].
      * pose proof (@round_nonpos x ltac:(lra)). lra.
      * pose proof (@round_le x (1 # 2) Hnn ltac:(lra)) as Hr.
        assert (Hh : round (1 # 2) == 1 # 2) by (vm_compute; reflexivity). lra.
    + destruct (@round_half_to_one x Hhalf ltac:(lra)) as [n Hn].
      rewrite Hs. rewrite Hn in H |- *.
      assert (Hp : pow2 (-53) == 1 # 9007199254740992) by (vm_compute; reflexivity).
      rewrite Hp in H |- *. revert H. unfold Qle. cbn. lia.
  - rewrite Hs in H. lra.
Qed.
End DoubleFacts.

(** ** The quality score *)

Module QualityFacts.
Import Js SearchEngine QualityReference DoubleFacts.
Local Open Scope Q_scope.

Lemma countLoop_filter (A : Type) (p : A -> bool) (xs : list A) :
  countLoop p xs = List.length (filter p xs).
Proof.
  unfold countLoop.
  assert (H : forall n, fold_left (fun n x => if p x then S n else n) xs n
                        = (n + List.length (filter p xs))%nat).
  { induction xs as [| x rest IH]; intros n; cbn; [lia |].
    rewrite IH. destruct (p x); cbn; lia. }
  apply H.
Qed.

Lemma pairs_by_index (terms : list string) :
  map (fun i => join " " (slice i (i + 2) terms)) (seq 0 (List.length terms - 1))
  = adjacentPairs terms.
Proof.
  induction terms as [| a rest IH]; [reflexivity |].
  destruct rest as [| b rest']; [reflexivity |].
  replace (List.length (a :: b :: rest') - 1)%nat with (S (List.length rest'))
    by (cbn; lia).
  change (adjacentPairs (a :: b :: rest'))
    with ((a ++ " " ++ b)%string :: adjacentPairs (b :: rest')).
  cbn [seq map]. f_equal.
  rewrite <- seq_shift, map_map.
  replace (List.length (b :: rest') - 1)%nat with (List.length rest') in IH
    by (cbn; lia).
  rewrite <- IH. apply map_ext. intros i. unfold slice.
  replace (S i + 2 - S i)%nat with (i + 2 - i)%nat by lia. reflexivity.
Qed.

Lemma queryPhrasesOf_phrases (terms : list string) :
  queryPhrasesOf terms = phrases terms.
Proof.
  unfold queryPhrasesOf, phrases. rewrite pairs_by_index. f_equal.
  destruct terms as [| a [| b [| c rest]]]; reflexivity.
Qed.

Lemma phrases_of_few (terms : list string) :
  (2 <=? List.length terms)%nat = false -> phrases terms = [].
Proof. destruct terms as [| a [| b rest]]; [reflexivity | reflexivity | discriminate]. Qed.

Lemma ofNat_S (n : nat) : ofNat (S n) == ofNat n + 1.
Proof. unfold ofNat. rewrite Nat2Z.inj_succ, <- Z.add_1_r, inject_Z_plus. reflexivity. Qed.

Lemma ofNat_nonneg (n : nat) : 0 <= ofNat n.
Proof.
  unfold ofNat. change 0 with (inject_Z 0). rewrite <- Zle_Qle. lia.
Qed.

Lemma ofNat_pos (n : nat) : (0 < n)%nat -> 0 < ofNat n.
Proof.
  intros H. unfold ofNat. change 0 with (inject_Z 0). rewrite <- Zlt_Qlt. lia.
Qed.

Lemma ofNat_le (m n : nat) : (m <= n)%nat -> ofNat m <= ofNat n.
Proof. intros H. unfold ofNat. rewrite <- Zle_Qle. lia. Qed.

(** *** The text that is searched *)

Lemma lowerChar_twice (c : ascii) : lowerChar (lowerChar c) = lowerChar c.
Proof. destruct c as [[] [] [] [] [] [] [] []]; vm_compute; reflexivity. Qed.

Lemma toLowerCase_twice (s : string) : toLowerCase (toLowerCase s) = toLowerCase s.
Proof.
  unfold toLowerCase. induction s as [| c rest IH]; [reflexivity |].
  cbn [mapChars]. rewrite lowerChar_twice, IH. reflexivity.
Qed.

Lemma toLowerCase_app (a b : string) :
  toLowerCase (a ++ b) = (toLowerCase a ++ toLowerCase b)%string.
Proof.
  unfold toLowerCase. induction a as [| c rest IH]; [reflexivity |].
  cbn [mapChars String.append]. rewrite IH. reflexivity.
Qed.

(** The three lower-cased fields joined by spaces are the lower-cased
    concatenation. *)
Lemma combinedTextOf_haystack (r : SearchResult) : combinedTextOf r = haystack r.
Proof.
  unfold combinedTextOf, haystack. rewrite !toLowerCase_app. reflexivity.
Qed.

(** On that text a pattern with the [i] flag matches where it occurs. *)
Lemma testIgnoreCase_haystack (pattern : string) (r : SearchResult) :
  testIgnoreCase pattern (combinedTextOf r) = includes (haystack r) pattern.
Proof.
  unfold testIgnoreCase. rewrite combinedTextOf_haystack. unfold haystack.
  rewrite toLowerCase_twice. reflexivity.
Qed.

(** *** The penalty: 0.2 added once for each pattern, against 0.2 times their
    number *)

Lemma penalty_loop (p : string -> bool) (step : Q -> Q) (patterns : list string) :
  forall pen : Q,
    fold_left (fun pen pattern => if p pattern then step pen else pen) patterns pen
    = Nat.iter (List.length (filter p patterns)) step pen.
Proof.
  induction patterns as [| x rest IH]; intros pen; cbn [fold_left filter]; [reflexivity |].
  rewrite IH. destruct (p x); [| reflexivity].
  cbn [List.length]. rewrite Nat.iter_succ_r. reflexivity.
Qed.

Lemma penalty_of (text : string) :
  fold_left (fun pen pattern =>
               if testIgnoreCase pattern text then addTwoTenths pen else pen)
            irrelevantPatterns 0
  = Nat.iter (List.length (filter (fun pattern => testIgnoreCase pattern text)
                                  irrelevantPatterns))
             addTwoTenths 0.
Proof.
  exact (@penalty_loop (fun pattern => testIgnoreCase pattern text) addTwoTenths
                       irrelevantPatterns 0).
Qed.

Lemma addTwoTenths_nonneg (m : nat) : 0 <= Nat.iter m addTwoTenths 0.
Proof.
  induction m as [| m IH]; [discriminate |].
  rewrite Nat.iter_succ. unfold addTwoTenths at 1. unfold Double.add.
  apply round_nonneg.
  assert (H : 0 <= Double.literal (2 # 10)) by (vm_compute; discriminate). lra.
Qed.

(** Up to five patterns, adding and multiplying give the same double. *)
Lemma addTwoTenths_few (m : nat) :
  (m <= 5)%nat ->
  Nat.iter m addTwoTenths 0 == Double.mul (Double.literal (2 # 10)) (ofNat m).
Proof.
  intros H.
  do 6 (destruct m as [| m]; [vm_compute; reflexivity |]). lia.
Qed.

(** From five patterns on, both are at least 1. *)
Lemma addTwoTenths_many (m : nat) : (5 <= m)%nat -> 1 <= Nat.iter m addTwoTenths 0.
Proof.
  induction m as [| m IH]; intros H; [lia |].
  destruct (Nat.eq_dec m 4) as [-> | Hne]; [vm_compute; discriminate |].
  rewrite Nat.iter_succ. unfold addTwoTenths at 1. unfold Double.add.
  apply round_ge_1.
  assert (Hm : 1 <= Nat.iter m addTwoTenths 0) by (apply IH; lia).
  assert (Hl : 0 <= Double.literal (2 # 10)) by (vm_compute; discriminate). lra.
Qed.

Lemma timesTwoTenths_many (m : nat) :
  (5 <= m)%nat -> 1 <= Double.mul (Double.literal (2 # 10)) (ofNat m).
Proof.
  intros H. unfold Double.mul. apply round_ge_1.
  assert (Hl : 2 # 10 <= Double.literal (2 # 10)) by (vm_compute; discriminate).
  pose proof (@ofNat_le 5 m H) as Hm. change (ofNat 5) with 5 in Hm. nra.
Qed.

(** What is left after the penalty, for a score [x] that is at most 1. *)
Lemma after_penalty (x : Q) (m : nat) :
  x <= 1 ->
  Qmax 0 (Double.sub x (Nat.iter m addTwoTenths 0))
  == Qmax 0 (Double.sub x (Double.mul (Double.literal (2 # 10)) (ofNat m))).
Proof.
  intros Hx. destruct (le_lt_dec m 5) as [Hfew | Hmany].
  - unfold Double.sub.
    rewrite (@round_comp (x - Nat.iter m addTwoTenths 0)
                         (x - Double.mul (Double.literal (2 # 10)) (ofNat m))).
    + reflexivity.
    + rewrite (addTwoTenths_few Hfew). reflexivity.
  - pose proof (@addTwoTenths_many m ltac:(lia)) as H1.
    pose proof (@timesTwoTenths_many m ltac:(lia)) as H2.
    unfold Double.sub.
    rewrite !Q.max_l; [reflexivity | |]; apply round_nonpos; lra.
Qed.

(** *** One result *)

(** The score the loop body computes for a result is the reference one. *)
Lemma scoreOfResult_reference (terms : list string) (r : SearchResult) :
  scoreOfResult terms r == resultScoreRounded terms r.
Proof.
  unfold scoreOfResult, resultScoreRounded, hitRatioRounded, phraseBonusRounded,
    penaltyRounded, matched.
  cbv zeta.
  rewrite penalty_of.
  rewrite (@filter_ext _ (fun pattern => testIgnoreCase pattern (combinedTextOf r))
                       (includes (haystack r)))
    by (intros pattern; apply testIgnoreCase_haystack).
  rewrite !countLoop_filter, queryPhrasesOf_phrases, combinedTextOf_haystack.
  assert (Hph : ofNat (if (2 <=? List.length terms)%nat
                       then List.length (filter (includes (haystack r)) (phrases terms))
                       else 0%nat)
                = ofNat (List.length (filter (includes (haystack r)) (phrases terms)))).
  { destruct (2 <=? List.length terms)%nat eqn:H2; [reflexivity |].
    rewrite (@phrases_of_few terms H2). reflexivity. }
  rewrite Hph.
  set (ratio := Double.div _ _).
  set (p := ofNat (List.length (filter (includes (haystack r)) (phrases terms)))).
  assert (Hbonus : Double.mul p (Double.literal (3 # 10))
                   = Double.mul (Double.literal (3 # 10)) p).
  { unfold Double.mul. apply round_comp. ring. }
  rewrite Hbonus.
  apply after_penalty. apply Q.le_min_l.
Qed.

Lemma scoreOfResult_range (terms : list string) (r : SearchResult) :
  0 <= scoreOfResult terms r <= 1.
Proof.
  unfold scoreOfResult. cbv zeta.
  rewrite penalty_of.
  split; [apply Q.le_max_l |].
  apply Q.max_lub; [discriminate |].
  unfold Double.sub at 1. apply round_le_1.
  set (x := Double.add _ _).
  assert (Hmin : Qmin 1 x <= 1) by apply Q.le_min_l.
  pose proof (addTwoTenths_nonneg
                (List.length (filter (fun pattern => testIgnoreCase pattern (combinedTextOf r))
                                     irrelevantPatterns))) as Hpen.
  lra.
Qed.

(** *** The loop over the results *)

Lemma total_loop (terms : list string) (found : list SearchResult) :
  forall total count : Q,
    let acc := fold_left (fun acc result =>
                            (Double.add (fst acc) (scoreOfResult terms result),
                             addOne (snd acc)))
                         found (total, count) in
    fst acc = fold_left Double.add (map (scoreOfResult terms) found) total
    /\ snd acc = Nat.iter (List.length found) addOne count.
Proof.
  induction found as [| r rest IH]; intros total count;
    cbn [fold_left map List.length fst snd]; [split; reflexivity |].
  destruct (IH (Double.add total (scoreOfResult terms r)) (addOne count)) as [H1 H2].
  cbv zeta in H1, H2. split; [exact H1 |].
  rewrite H2, Nat.iter_succ_r. reflexivity.
Qed.

(** The counter of scored results is the number of results, as long as a
    double can count them. *)
Lemma counter_exact (n : nat) :
  (Z.of_nat n <= 2 ^ 53)%Z -> Nat.iter n addOne 0 == ofNat n.
Proof.
  induction n as [| n IH]; intros H; [reflexivity |].
  rewrite Nat.iter_succ. unfold addOne at 1. unfold Double.add.
  rewrite (@round_comp (Nat.iter n addOne 0 + 1) (inject_Z (Z.of_nat (S n)))).
  - apply round_int. lia.
  - rewrite IH by lia. rewrite <- ofNat_S. reflexivity.
Qed.

Lemma counter_nonneg (n : nat) : 0 <= Nat.iter n addOne 0.
Proof.
  induction n as [| n IH]; [discriminate |].
  rewrite Nat.iter_succ. unfold addOne at 1. unfold Double.add.
  apply round_nonneg. lra.
Qed.

Lemma counter_positive (n : nat) : (0 < n)%nat -> 1 <= Nat.iter n addOne 0.
Proof.
  destruct n as [| n]; intros H; [lia |].
  rewrite Nat.iter_succ. unfold addOne at 1. unfold Double.add.
  apply round_ge_1. pose proof (counter_nonneg n). lra.
Qed.

(** The running total never passes the counter. *)
Lemma total_below_counter (xs : list Q) :
  Forall (fun x => 0 <= x <= 1) xs ->
  forall total count : Q,
    0 <= total <= count ->
    0 <= fold_left Double.add xs total <= Nat.iter (List.length xs) addOne count.
Proof.
  induction 1 as [| x rest [Hx0 Hx1] _ IH]; intros total count [Ht0 Ht1];
    cbn [fold_left List.length]; [split; assumption |].
  rewrite Nat.iter_succ_r. apply IH. unfold addOne, Double.add. split.
  - apply round_nonneg. lra.
  - apply round_le; lra.
Qed.

Lemma sum_comp (xs ys : list Q) :
  Forall2 Qeq xs ys ->
  forall a b : Q, a == b -> fold_left Double.add xs a == fold_left Double.add ys b.
Proof.
  induction 1 as [| x y xs' ys' Hxy _ IH]; intros a b Hab; cbn [fold_left]; [exact Hab |].
  apply IH. unfold Double.add. rewrite (@round_comp (a + x) (b + y)); [reflexivity |].
  rewrite Hab, Hxy. reflexivity.
Qed.

Lemma scores_reference (terms : list string) (found : list SearchResult) :
  Forall2 Qeq (map (scoreOfResult terms) found) (map (resultScoreRounded terms) found).
Proof.
  induction found as [| r rest IH]; cbn [map]; constructor;
    [apply scoreOfResult_reference | exact IH].
Qed.

Lemma scores_range (terms : list string) (found : list SearchResult) :
  Forall (fun x => 0 <= x <= 1) (map (scoreOfResult terms) found).
Proof.
  apply Forall_forall. intros x Hx. apply in_map_iff in Hx.
  destruct Hx as (r & <- & _). apply scoreOfResult_range.
Qed.

(** The value returned for a non-empty set and a non-empty list of terms. *)
Lemma assess_some (found : list SearchResult) (query : string) :
  found <> [] -> queryWordsOf query <> [] ->
  assessResultQuality found query
  = Double.div (fold_left Double.add (map (scoreOfResult (queryWordsOf query)) found) 0)
               (Nat.iter (List.length found) addOne 0).
Proof.
  intros Hfound Hterms. unfold assessResultQuality.
  destruct found as [| r rs]; [congruence |].
  cbv zeta. destruct (queryWordsOf query) as [| t ts]; [congruence |].
  destruct (@total_loop (t :: ts) (r :: rs) 0 0) as [H1 H2]. cbv zeta in H1, H2.
  rewrite H1, H2.
  pose proof (@counter_positive (List.length (r :: rs)) ltac:(cbn; lia)) as Hpos.
  assert (Hgt : Qle_bool (Nat.iter (List.length (r :: rs)) addOne 0) 0 = false).
  { destruct (Qle_bool _ 0) eqn:Hle; [| reflexivity].
    apply Qle_bool_iff in Hle. lra. }
  rewrite Hgt. reflexivity.
Qed.

Lemma assess_range (found : list SearchResult) (query : string) :
  0 <= assessResultQuality found query <= 1.
Proof.
  destruct found as [| r rs]; [split; discriminate |].
  destruct (queryWordsOf query) as [| t ts] eqn:Hq.
  - unfold assessResultQuality. cbv zeta. rewrite Hq. split; discriminate.
  - rewrite assess_some by (rewrite ?Hq; discriminate). rewrite Hq.
    set (n := List.length (r :: rs)).
    pose proof (@counter_positive n ltac:(subst n; cbn; lia)) as Hpos.
    destruct (@total_below_counter _ (scores_range (t :: ts) (r :: rs)) 0 0
                                   ltac:(split; discriminate)) as [H0 H1].
    rewrite length_map in H1. fold n in H1.
    unfold Double.div. split.
    + apply round_nonneg. apply Qle_shift_div_l; lra.
    + apply round_le_1. apply Qle_shift_div_r; lra.
Qed.

Lemma assess_reference (found : list SearchResult) (query : string) :
  (Z.of_nat (List.length found) <= 2 ^ 53)%Z ->
  assessResultQuality found query = scoreRounded found query.
Proof.
  intros Hlen. destruct found as [| r rs]; [reflexivity |].
  destruct (queryWordsOf query) as [| t ts] eqn:Hq.
  - unfold assessResultQuality, scoreRounded. cbv zeta. rewrite Hq. reflexivity.
  - rewrite assess_some by (rewrite ?Hq; discriminate).
    unfold scoreRounded. cbv zeta. rewrite Hq.
    unfold meanRounded, sumRounded, Double.div. rewrite length_map.
    apply round_comp.
    pose proof (@counter_positive (List.length (r :: rs)) ltac:(cbn; lia)) as Hpos.
    rewrite (@sum_comp _ _ (scores_reference (t :: ts) (r :: rs)) 0 0 ltac:(reflexivity)).
    rewrite (@counter_exact _ Hlen). reflexivity.
Qed.

(** A score is a double, and the literal [0.8] is the double next above
    eight tenths: comparing a score with eight tenths is comparing it with
    the literal. *)
Lemma excellent_is_literal (found : list SearchResult) (query : string) :
  ge (assessResultQuality found query) (8 # 10)
  = ge (assessResultQuality found query) (Double.literal (8 # 10)).
Proof.
  assert (H : exists x, assessResultQuality found query == Double.round x).
  { destruct found as [| r rs]; [exists 0; vm_compute; reflexivity |].
    destruct (queryWordsOf query) as [| t ts] eqn:Hq.
    - exists (1 # 2). unfold assessResultQuality. cbv zeta. rewrite Hq.
      vm_compute. reflexivity.
    - rewrite assess_some by (rewrite ?Hq; discriminate).
      unfold Double.div. eexists. reflexivity. }
  destruct H as [x Hx]. unfold ge, Double.literal.
  apply eq_true_iff_eq. rewrite !Qle_bool_iff, Hx. apply eight_tenths.
Qed.

Example scenario_A_scores_one :
  assessResultQuality [Scenarios.parisResult] "capital of France" == 1.
Proof. vm_compute. reflexivity. Qed.

Example half_the_terms_score_half :
  assessResultQuality [Scenarios.rustResult] "rust language" == 1 # 2.
Proof. vm_compute. reflexivity. Qed.

(** C4, as stated, fails.  For a query of ten terms and one result that
    names nine of them, no phrase and three off-topic patterns, the formula
    gives [max(0, min(1, 0.9) - 0.6)], three tenths, which meets the default
    acceptance threshold.  The code subtracts from the double 0.9 the double
    that three additions of 0.2 give, 0.6000000000000001, and returns
    0.29999999999999993: neither three tenths nor the double next to it, and
    below the threshold. *)
Lemma assessResultQuality_not_exact :
  let found := [Scenarios.spellingResult] in
  let query := Scenarios.spellingQuery in
  List.length (queryWordsOf query) = 10%nat
  /\ matched (haystack Scenarios.spellingResult) (queryWordsOf query) = 9%nat
  /\ matched (haystack Scenarios.spellingResult) (phrases (queryWordsOf query)) = 0%nat
  /\ matched (haystack Scenarios.spellingResult) irrelevantPatterns = 3%nat
  /\ score found query == 3 # 10
  /\ assessResultQuality found query == 2702159776422297 # 9007199254740992
  /\ ~ assessResultQuality found query == score found query
  /\ ~ assessResultQuality found query == Double.round (score found query)
  /\ ge (score found query) (qualityThreshold defaultConfig) = true
  /\ ge (assessResultQuality found query) (qualityThreshold defaultConfig) = false.
Proof.
  cbv zeta. repeat split; try (vm_compute; reflexivity); vm_compute; discriminate.
Qed.

(** C4, amended.  [assessResultQuality] equals the reference score evaluated
    in the arithmetic of doubles, every quotient, product, sum and
    difference rounded to the nearest double: 0 for no results, one half
    when no query term survives, otherwise the mean (the sum taken in order,
    divided by the number of results) of
    [max(0, min(1, hitRatio + 0.3 * matched phrases) - 0.2 * matched
    patterns)]; and it lies between 0 and 1.  The equality is for sets of at
    most [2^53] results, the whole numbers a double counts; an array holds
    fewer than [2^32]. *)
Theorem assessResultQuality_reference :
  forall (found : list SearchResult) (query : string),
    ((Z.of_nat (List.length found) <= 2 ^ 53)%Z ->
       assessResultQuality found query = scoreRounded found query)
    /\ 0 <= assessResultQuality found query <= 1
    /\ assessResultQuality [] query = 0
    /\ (forall r rs, queryWordsOf query = [] ->
          assessResultQuality (r :: rs) query = 1 # 2)
    /\ (forall r rs, queryWordsOf query <> [] ->
          (Z.of_nat (List.length (r :: rs)) <= 2 ^ 53)%Z ->
          assessResultQuality (r :: rs) query
          = meanRounded (map (resultScoreRounded (queryWordsOf query)) (r :: rs))).
Proof.
  intros found query. split; [apply assess_reference |]. split; [apply assess_range |].
  split; [reflexivity |]. split.
  - intros r rs Hnone. unfold assessResultQuality. cbv zeta. rewrite Hnone. reflexivity.
  - intros r rs Hsome Hlen. rewrite (@assess_reference (r :: rs) query Hlen). unfold scoreRounded.
    cbv zeta. destruct (queryWordsOf query); [congruence | reflexivity].
Qed.

Lemma assessResultQuality_reference_witness :
  assessResultQuality [Scenarios.rustResult] "the of" = 1 # 2
  /\ assessResultQuality [Scenarios.recipeResult] "rust"
     = scoreRounded [Scenarios.recipeResult] "rust"
  /\ assessResultQuality [Scenarios.rustResult] "rust language"
     = meanRounded (map (resultScoreRounded (queryWordsOf "rust language"))
                        [Scenarios.rustResult]).
Proof.
  destruct (assessResultQuality_reference [] "the of") as (_ & _ & _ & Hnone & _).
  destruct (assessResultQuality_reference [Scenarios.recipeResult] "rust")
    as (Hsame & _).
  destruct (assessResultQuality_reference [] "rust language")
    as (_ & _ & _ & _ & Hmean).
  split; [| split].
  - apply Hnone. reflexivity.
  - apply Hsame. vm_compute. discriminate.
  - apply Hmean; vm_compute; discriminate.
Defined.
End QualityFacts.

(** ** The orchestrator *)

Module SearchFacts.
Import Js SearchEngine Scenarios.
Local Open Scope string_scope.
Local Open Scope bool_scope.

Lemma gt_true (a b : Q) : gt a b = true <-> (b < a)%Q.
Proof.
  unfold gt. rewrite negb_true_iff. split.
  - intros H. apply Qnot_le_lt. intros Hle. apply Qle_bool_iff in Hle. congruence.
  - intros H. destruct (Qle_bool a b) eqn:Hb; [| reflexivity].
    apply Qle_bool_iff in Hb. exfalso. exact (Qlt_not_le _ _ H Hb).
Qed.

Lemma gt_false (a b : Q) : gt a b = false <-> (a <= b)%Q.
Proof. unfold gt. rewrite negb_false_iff. apply Qle_bool_iff. Qed.

Lemma ge_true (a b : Q) : ge a b = true <-> (b <= a)%Q.
Proof. unfold ge. apply Qle_bool_iff. Qed.

(** The loop takes the verdict of [onResults] for a non-empty result set. *)
Lemma attemptLoop_resolves (cfg : config) (query : string) (n i : nat)
      (a : approach) (rest : list approach) (b : best) (st : state)
      (found : list SearchResult) :
  method a = Resolves found ->
  found <> [] ->
  attemptLoop cfg query n i (a :: rest) b st =
    match onResults cfg query i n (name a) found b with
    | Return r => (r, say (Attempting (name a)) st)
    | Continue b1 =>
        attemptLoop cfg query n (S i) rest b1 (say (Attempting (name a)) st)
    end.
Proof.
  intros Hm Hne. cbn [attemptLoop]. rewrite Hm.
  destruct found as [| r rs]; [congruence | reflexivity].
Qed.

Lemma attemptLoop_rejects (cfg : config) (query : string) (n i : nat)
      (a : approach) (rest : list approach) (b : best) (st : state)
      (message : string) :
  method a = Rejects message ->
  attemptLoop cfg query n i (a :: rest) b st =
    attemptLoop cfg query n (S i) rest b
      (handleBrowserError message (name a)
         (say (ApproachFailed (name a) message) (say (Attempting (name a)) st))).
Proof. intros Hm. cbn [attemptLoop]. rewrite Hm. reflexivity. Qed.

(** The loop only appends to the console. *)
Lemma attemptLoop_log (cfg : config) (query : string) (n : nat)
      (approaches : list approach) :
  forall (i : nat) (b : best) (st : state),
  exists suffix,
    log (snd (attemptLoop cfg query n i approaches b st)) = (log st ++ suffix)%list.
Proof.
  induction approaches as [| a rest IH]; intros i b st; cbn [attemptLoop].
  - exists [AllApproachesFailed]. reflexivity.
  - set (st1 := say (Attempting (name a)) st).
    assert (Hst1 : log st1 = (log st ++ [Attempting (name a)])%list) by reflexivity.
    destruct (method a) as [found | message].
    + destruct (0 <? List.length found)%nat.
      * destruct (onResults cfg query i n (name a) found b) as [r | b1].
        -- exists [Attempting (name a)]. exact Hst1.
        -- destruct (IH (S i) b1 st1) as [suffix Hs]. rewrite Hs, Hst1, <- app_assoc.
           eexists. reflexivity.
      * destruct (IH (S i) b st1) as [suffix Hs]. rewrite Hs, Hst1, <- app_assoc.
        eexists. reflexivity.
    + match goal with
      | |- context [attemptLoop cfg query n (S i) rest b ?s] =>
          destruct (IH (S i) b s) as [suffix Hs]; rewrite Hs
      end.
      unfold handleBrowserError. destruct (sessionClosed message); cbn [log say];
        rewrite Hst1, <- !app_assoc; eexists; reflexivity.
Qed.

(** An attempt begins with its line on the console. *)
Lemma attemptLoop_announces (cfg : config) (query : string) (n i : nat)
      (a : approach) (rest : list approach) (b : best) (st : state) :
  exists suffix,
    log (snd (attemptLoop cfg query n i (a :: rest) b st))
    = (log st ++ Attempting (name a) :: suffix)%list.
Proof.
  cbn [attemptLoop]. set (st1 := say (Attempting (name a)) st).
  assert (Hst1 : log st1 = (log st ++ [Attempting (name a)])%list) by reflexivity.
  assert (Hext : forall s, (exists x, log s = (log st1 ++ x)%list) ->
                           exists suffix, log s = (log st ++ Attempting (name a) :: suffix)%list).
  { intros s [x Hx]. exists x. rewrite Hx, Hst1, <- app_assoc. reflexivity. }
  destruct (method a) as [found | message].
  - destruct (0 <? List.length found)%nat.
    + destruct (onResults cfg query i n (name a) found b) as [r | b1].
      * apply Hext. exists []. cbn [snd]. rewrite app_nil_r. reflexivity.
      * apply Hext. apply attemptLoop_log.
    + apply Hext. apply attemptLoop_log.
  - apply Hext.
    match goal with
    | |- context [attemptLoop cfg query n (S i) rest b ?s] =>
        destruct (attemptLoop_log cfg query n rest (S i) b s) as [x Hx]; rewrite Hx
    end.
    unfold handleBrowserError. destruct (sessionClosed message); cbn [log say];
      rewrite <- !app_assoc; eexists; reflexivity.
Qed.

(** The only failure of a search is the refusal of the rate limiter. *)
Lemma search_fails_only_on_rate_limit (cfg : config) (now : Z) (query : string)
      (bing brave duckDuckGo : attempt) (e : engineState) (w : Z) :
  fst (search cfg now query bing brave duckDuckGo e) = SearchFailed w ->
  exists rl, RateLimiter.check now (rateLimiter e) = RateLimiter.Exceeded w rl.
Proof.
  unfold search, RateLimiter.execute.
  destruct (RateLimiter.check now (rateLimiter e)) as [rl | w' rl].
  - cbv zeta. destruct (attemptLoop _ _ _ _ _ _ _). cbn. discriminate.
  - cbn. intros H. injection H as ->. exists rl. reflexivity.
Qed.

(** Whatever the best set so far, a last attempt that rejects or resolves
    with nothing ends the search with the empty set tagged [None]. *)
Lemma last_attempt_without_results (cfg : config) (query : string) (n i : nat)
      (a : approach) (b : best) (st : state) :
  method a = Resolves [] \/ (exists message, method a = Rejects message) ->
  fst (attemptLoop cfg query n i [a] b st) = mkMeta [] "None".
Proof.
  intros [Hm | [message Hm]]; cbn [attemptLoop]; rewrite Hm; reflexivity.
Qed.

(** C1 (the code departs from it).  Bing finds a result that scores one half,
    above the acceptance threshold 0.3; it is kept as the best so far.  When
    the last engine then rejects, or resolves with no results, the decision
    of lines 64-73 is not reached and the search returns the empty set
    tagged [None].  The same happens when the only non-empty set scores 0:
    it never becomes the best. *)
Theorem best_set_dropped_when_last_engine_fails :
  (assessResultQuality [rustResult] (sanitizeQuery "rust language") == 1 # 2)%Q
  /\ fst (search defaultConfig 0 "rust language"
            (Resolves [rustResult]) (Rejects "Timeout 4000ms exceeded")
            (Rejects "DuckDuckGo search failed") freshEngine)
     = Found (mkMeta [] "None")
  /\ fst (search defaultConfig 0 "rust language"
            (Resolves [rustResult]) (Resolves []) (Resolves []) freshEngine)
     = Found (mkMeta [] "None")
  /\ fst (search defaultConfig 0 "rust language"
            (Resolves []) (Resolves []) (Resolves [gardenResult]) freshEngine)
     = Found (mkMeta [] "None").
Proof.
  split; [vm_compute; reflexivity |].
  repeat split; vm_compute; reflexivity.
Qed.

Example last_engine_with_results_returns_best :
  fst (search defaultConfig 0 "rust language"
         (Resolves [rustResult]) (Resolves []) (Resolves [gardenResult]) freshEngine)
  = Found (mkMeta [rustResult] "Browser Bing").
Proof. vm_compute. reflexivity. Qed.

(** C6, as stated, fails.  With the multi-engine override set, a set from
    Brave that meets the acceptance threshold without being excellent is not
    returned: the loop goes on, and the search ends with the set of a later
    engine. *)
Lemma acceptable_set_not_returned_when_forced :
  let q := assessResultQuality [rustResult] "rust language" in
  ge q (qualityThreshold forcedConfig) = true
  /\ ge q (8 # 10) = false
  /\ String.eqb "Browser Brave" "Browser Bing" = false
  /\ onResults forcedConfig "rust language" 1 3 "Browser Brave" [rustResult] noBest
     = Continue (mkBest [rustResult] "Browser Brave" q)
  /\ fst (search forcedConfig 0 "capital of France"
            (Resolves []) (Resolves [rustResult; parisResult]) (Resolves [parisResult])
            freshEngine)
     = Found (mkMeta [parisResult] "Axios DuckDuckGo").
Proof.
  cbv zeta. repeat split; vm_compute; reflexivity.
Qed.

(** C6, amended.  For an attempt that parsed at least one result, with [q]
    its score: if [q >= 0.8] and the multi-engine override is not set, the
    set is returned at once; else if [q] meets the acceptance threshold, the
    engine is not the first one and the override is not set, the set is
    returned at once; otherwise the set is kept as the best so far exactly
    when [q] exceeds the previous best, and the loop goes on to the next
    engine (after the last engine, to the final decision on the best). *)
Theorem onResults_decision :
  forall (cfg : config) (query : string) (n i : nat) (a : approach)
         (rest : list approach) (b : best) (st : state) (found : list SearchResult),
    method a = Resolves found ->
    found <> [] ->
    let q := if enableQualityCheck cfg then assessResultQuality found query else 1%Q in
    let kept := if gt q (bestQuality b) then mkBest found (name a) q else b in
    let st1 := say (Attempting (name a)) st in
    let outcome := attemptLoop cfg query n i (a :: rest) b st in
    (ge q (8 # 10) = true -> forceMultiEngine cfg = false ->
       outcome = (mkMeta found (name a), st1))
    /\ (ge q (8 # 10) = false -> ge q (qualityThreshold cfg) = true ->
        name a <> "Browser Bing" -> forceMultiEngine cfg = false ->
          outcome = (mkMeta found (name a), st1))
    /\ (forceMultiEngine cfg = true
        \/ (ge q (8 # 10) = false
            /\ (ge q (qualityThreshold cfg) = false \/ name a = "Browser Bing")) ->
          ((bestQuality b < q)%Q -> kept = mkBest found (name a) q)
          /\ ((q <= bestQuality b)%Q -> kept = b)
          /\ (i <> (n - 1)%nat ->
                outcome = attemptLoop cfg query n (S i) rest kept st1)
          /\ (i = (n - 1)%nat ->
                outcome =
                  if ge (bestQuality kept) (qualityThreshold cfg)
                     || negb (enableQualityCheck cfg)
                  then (mkMeta (bestResults kept) (bestEngine kept), st1)
                  else if (0 <? List.length (bestResults kept))%nat
                  then (mkMeta (bestResults kept) (bestEngine kept), st1)
                  else attemptLoop cfg query n (S i) rest kept st1)).
Proof.
  intros cfg query n i a rest b st found Hm Hne q kept st1 outcome.
  subst outcome. rewrite (@attemptLoop_resolves cfg query n i a rest b st found Hm Hne).
  unfold onResults. fold q. cbv zeta. fold kept. fold st1.
  split; [| split].
  - intros Hq Hf. rewrite Hq, Hf. reflexivity.
  - intros Hq Ht Hname Hf. rewrite Hq, Ht, Hf.
    apply String.eqb_neq in Hname. rewrite Hname. reflexivity.
  - intros Hcase.
    assert (H1 : ge q (8 # 10) && negb (forceMultiEngine cfg) = false).
    { destruct Hcase as [-> | [-> _]]; [apply andb_false_r | reflexivity]. }
    assert (H2 : ge q (qualityThreshold cfg) && negb (name a =? "Browser Bing")
                 && negb (forceMultiEngine cfg) = false).
    { destruct Hcase as [-> | [_ [-> | ->]]];
        [apply andb_false_r | reflexivity | cbn; rewrite andb_false_r; reflexivity]. }
    rewrite H1, H2. repeat split.
    + intros Hlt. subst kept. apply gt_true in Hlt. rewrite Hlt. reflexivity.
    + intros Hle. subst kept. apply gt_false in Hle. rewrite Hle. reflexivity.
    + intros Hi. apply Nat.eqb_neq in Hi. rewrite Hi. reflexivity.
    + intros Hi. apply Nat.eqb_eq in Hi. rewrite Hi.
      destruct (_ || _); [reflexivity |].
      destruct (0 <? _)%nat; reflexivity.
Qed.

Lemma onResults_decision_witness :
  attemptLoop defaultConfig "capital of France" 3 0
              [mkApproach "Browser Bing" (Resolves [parisResult])] noBest
              (inner freshEngine)
  = (mkMeta [parisResult] "Browser Bing",
     say (Attempting "Browser Bing") (inner freshEngine)).
Proof.
  destruct (@onResults_decision defaultConfig "capital of France" 3 0
              (mkApproach "Browser Bing" (Resolves [parisResult])) [] noBest
              (inner freshEngine) [parisResult]) as [Hexcellent _].
  - reflexivity.
  - discriminate.
  - apply Hexcellent; [vm_compute; reflexivity | reflexivity].
Defined.

(** C7.  An attempt that rejects does not end the search: its error is put
    on the console, the loop goes on with the next engine and the best so
    far, and the only failure a search can report is the refusal of the rate
    limiter.  When the message tells of a closed page, context, browser or
    session, every cached browser is closed and the pool is emptied before
    the next attempt begins. *)
Theorem engine_failure_is_contained :
  forall (cfg : config) (query : string) (n i : nat) (a : approach)
         (rest : list approach) (b : best) (st : state) (message : string),
    method a = Rejects message ->
    let st2 :=
      handleBrowserError message (name a)
        (say (ApproachFailed (name a) message) (say (Attempting (name a)) st)) in
    attemptLoop cfg query n i (a :: rest) b st
      = attemptLoop cfg query n (S i) rest b st2
    /\ log st2
       = (log st ++ [Attempting (name a); ApproachFailed (name a) message]
            ++ (if sessionClosed message then [SessionClosureDetected (name a)] else []))%list
    /\ (sessionClosed message = true ->
          BrowserPool.browsers (browserPool st2) = []
          /\ BrowserPool.closeCalls (browserPool st2)
             = (BrowserPool.closeCalls (browserPool st)
                  ++ JsMap.values (BrowserPool.browsers (browserPool st)))%list)
    /\ (sessionClosed message = false -> browserPool st2 = browserPool st)
    /\ (forall next rest', rest = next :: rest' ->
          exists suffix,
            log (snd (attemptLoop cfg query n i (a :: rest) b st))
            = (log st2 ++ Attempting (name next) :: suffix)%list)
    /\ (forall now q bing brave duckDuckGo e w,
          fst (search cfg now q bing brave duckDuckGo e) = SearchFailed w ->
          exists rl, RateLimiter.check now (rateLimiter e) = RateLimiter.Exceeded w rl).
Proof.
  intros cfg query n i a rest b st message Hm st2.
  assert (Hloop : attemptLoop cfg query n i (a :: rest) b st
                  = attemptLoop cfg query n (S i) rest b st2)
    by (apply attemptLoop_rejects; exact Hm).
  split; [exact Hloop |]. split; [| split; [| split; [| split]]].
  - subst st2. unfold handleBrowserError.
    destruct (sessionClosed message); cbn [log say]; rewrite <- !app_assoc; cbn;
      rewrite ?app_nil_r; reflexivity.
  - intros Hc. subst st2. unfold handleBrowserError. rewrite Hc. cbn. split; reflexivity.
  - intros Hc. subst st2. unfold handleBrowserError. rewrite Hc. reflexivity.
  - intros next rest' ->. rewrite Hloop. apply attemptLoop_announces.
  - intros now q bing brave duckDuckGo e w. apply search_fails_only_on_rate_limit.
Qed.

Lemma engine_failure_is_contained_witness :
  attemptLoop defaultConfig "rust language" 3 0
    (approachesOf (Rejects "browser.newContext: Browser has been closed")
                  (Resolves [rustResult]) (Resolves []))
    noBest warmState
  = attemptLoop defaultConfig "rust language" 3 1
      [mkApproach "Browser Brave" (Resolves [rustResult]);
       mkApproach "Axios DuckDuckGo" (Resolves [])]
      noBest
      (mkState (BrowserPool.closeAll (browserPool warmState))
               [Attempting "Browser Bing";
                ApproachFailed "Browser Bing" "browser.newContext: Browser has been closed";
                SessionClosureDetected "Browser Bing"])
  /\ BrowserPool.browsers (BrowserPool.closeAll (browserPool warmState)) = []
  /\ BrowserPool.closeCalls (BrowserPool.closeAll (browserPool warmState)) = [1%nat].
Proof.
  split; [| split; reflexivity].
  destruct (@engine_failure_is_contained defaultConfig "rust language" 3 0
              (mkApproach "Browser Bing"
                          (Rejects "browser.newContext: Browser has been closed"))
              [mkApproach "Browser Brave" (Resolves [rustResult]);
               mkApproach "Axios DuckDuckGo" (Resolves [])]
              noBest warmState "browser.newContext: Browser has been closed")
    as [Hgoes_on _].
  - reflexivity.
  - exact Hgoes_on.
Defined.
End SearchFacts.

(** ** utils.js *)

Module UtilsFacts.
Import Js Utils.
Local Open Scope string_scope.
Local Open Scope bool_scope.

Lemma take_length (n : nat) (s : string) :
  String.length (take n s) = Nat.min n (String.length s).
Proof.
  revert s. induction n as [| n IH]; intros s; [reflexivity |].
  destruct s as [| c rest]; [reflexivity |]. cbn. rewrite IH. reflexivity.
Qed.

Lemma take_all (n : nat) (s : string) :
  (String.length s <= n)%nat -> take n s = s.
Proof.
  revert s. induction n as [| n IH]; intros s H.
  - destruct s; [reflexivity | cbn in H; lia].
  - destruct s as [| c rest]; [reflexivity |]. cbn. rewrite IH; [reflexivity |].
    cbn in H. lia.
Qed.

Lemma lineFeed_is_space : isSpace lineFeed = true.
Proof. reflexivity. Qed.

Lemma collapse_singleSpaced (s : string) :
  forall inRun : bool, singleSpaced inRun (collapseSpaces inRun s) = true.
Proof.
  induction s as [| c rest IH]; intros inRun; [reflexivity |].
  cbn [collapseSpaces]. destruct (isSpace c) eqn:Hc.
  - destruct inRun; [apply IH |]. cbn. apply IH.
  - cbn [singleSpaced]. rewrite Hc. apply IH.
Qed.

Lemma singleSpaced_weaken (s : string) (b : bool) :
  singleSpaced b s = true -> singleSpaced false s = true.
Proof.
  destruct s as [| c rest]; [reflexivity |]. cbn [singleSpaced].
  destruct (isSpace c); [| tauto].
  intros H. apply andb_prop in H. destruct H as [H Hrest].
  apply andb_prop in H. destruct H as [Hc _]. rewrite Hc, Hrest. reflexivity.
Qed.

Lemma trimStart_singleSpaced (s : string) :
  forall b : bool, singleSpaced b s = true -> singleSpaced true (trimStart s) = true.
Proof.
  unfold trimStart. induction s as [| c rest IH]; intros b H; [reflexivity |].
  cbn [dropWhile]. cbn [singleSpaced] in H. destruct (isSpace c) eqn:Hc.
  - apply andb_prop in H. destruct H as [_ Hrest]. exact (IH true Hrest).
  - cbn [singleSpaced]. rewrite Hc. exact H.
Qed.

Lemma trimEnd_singleSpaced (s : string) :
  forall b : bool, singleSpaced b s = true -> singleSpaced b (trimEnd s) = true.
Proof.
  induction s as [| c rest IH]; intros b H; [reflexivity |].
  cbn [trimEnd]. cbn [singleSpaced] in H.
  destruct (isSpace c && (trimEnd rest =? "")) eqn:Hcut; [reflexivity |].
  cbn [singleSpaced]. destruct (isSpace c).
  - apply andb_prop in H. destruct H as [H Hrest]. rewrite H. cbn. exact (IH true Hrest).
  - exact (IH false H).
Qed.

Lemma take_singleSpaced (n : nat) :
  forall (s : string) (b : bool),
    singleSpaced b s = true -> singleSpaced b (take n s) = true.
Proof.
  induction n as [| n IH]; intros s b H; [reflexivity |].
  destruct s as [| c rest]; [reflexivity |]. cbn [take singleSpaced] in *.
  destruct (isSpace c).
  - apply andb_prop in H. destruct H as [H Hrest]. rewrite H. cbn. exact (IH rest true Hrest).
  - exact (IH rest false H).
Qed.

(** A text without line feeds has no blank lines to squeeze. *)
Lemma squeeze_singleSpaced (s : string) :
  forall b : bool, singleSpaced b s = true -> squeezeBlankLines 0 s = s.
Proof.
  induction s as [| c rest IH]; intros b H; [reflexivity |].
  cbn [squeezeBlankLines]. cbn [singleSpaced] in H.
  destruct (Ascii.eqb c lineFeed) eqn:Hlf.
  - apply Ascii.eqb_eq in Hlf. subst c. rewrite lineFeed_is_space in H.
    cbn in H. discriminate.
  - destruct (isSpace c).
    + apply andb_prop in H. destruct H as [_ Hrest]. rewrite (IH true Hrest). reflexivity.
    + rewrite (IH false H). reflexivity.
Qed.

(** The second [replace] of [cleanText] finds nothing to replace. *)
Lemma cleanText_one_pass (text : string) (maxLength : Z) :
  cleanText text maxLength = upTo maxLength (trim (collapseSpaces false text)).
Proof.
  unfold cleanText.
  rewrite (squeeze_singleSpaced _ _ (collapse_singleSpaced text false)). reflexivity.
Qed.

(** X1.  [cleanText]: the second [replace] never changes anything, because
    the first leaves no line feed; the result has at most [maxLength]
    characters, its only white space are single spaces, and it does not
    begin with one. *)
Theorem cleanText_tidy :
  forall (text : string) (maxLength : Z),
    cleanText text maxLength = upTo maxLength (trim (collapseSpaces false text))
    /\ (Z.of_nat (String.length (cleanText text maxLength)) <= Z.max 0 maxLength)%Z
    /\ singleSpaced true (cleanText text maxLength) = true.
Proof.
  intros text maxLength.
  pose proof (collapse_singleSpaced text false) as Hc.
  pose proof (cleanText_one_pass text maxLength) as Heq.
  split; [exact Heq |]. split.
  - unfold cleanText, upTo. rewrite take_length. lia.
  - rewrite Heq. unfold upTo, trim. apply take_singleSpaced, trimEnd_singleSpaced.
    exact (trimStart_singleSpaced _ _ Hc).
Qed.

Example cleanText_cut_ends_in_space : cleanText "ab  cd" 3 = "ab ".
Proof. reflexivity. Qed.

(** X2.  [getContentPreview]: at most [maxLength + 3] characters.  A text
    that cleans to fewer than [maxLength] characters is returned cleaned and
    whole; one that cleans to [maxLength] characters or more is cut to
    [maxLength] and gets the dots, also when nothing had to be cut. *)
Theorem getContentPreview_shape :
  forall (text : string) (maxLength : Z),
    (0 <= maxLength)%Z ->
    let whole := trim (collapseSpaces false text) in
    (String.length (getContentPreview text maxLength) <= Z.to_nat maxLength + 3)%nat
    /\ ((Z.of_nat (String.length whole) < maxLength)%Z ->
          getContentPreview text maxLength = whole)
    /\ ((maxLength <= Z.of_nat (String.length whole))%Z ->
          getContentPreview text maxLength = take (Z.to_nat maxLength) whole ++ "...").
Proof.
  intros text maxLength Hmax whole.
  pose proof (cleanText_one_pass text maxLength) as Heq. fold whole in Heq.
  assert (Happ : forall a b, String.length (a ++ b) = (String.length a + String.length b)%nat).
  { induction a as [| c a IH]; intros b; cbn; [reflexivity | rewrite IH; reflexivity]. }
  unfold getContentPreview. cbv zeta. rewrite Heq. unfold upTo.
  pose proof (take_length (Z.to_nat maxLength) whole) as Hlen.
  repeat split.
  - destruct (_ =? _)%Z; [rewrite Happ; cbn |]; lia.
  - intros Hshort. rewrite take_all by lia.
    destruct (Z.eqb_spec (Z.of_nat (String.length whole)) maxLength); [lia | reflexivity].
  - intros Hlong.
    destruct (Z.eqb_spec (Z.of_nat (String.length (take (Z.to_nat maxLength) whole)))
                         maxLength); [reflexivity | lia].
Qed.

Lemma getContentPreview_shape_witness :
  getContentPreview "  one   two  " 500 = "one two"
  /\ getContentPreview "one two" 7 = "one two...".
Proof.
  split.
  - destruct (@getContentPreview_shape "  one   two  " 500%Z) as (_ & Hwhole & _);
      [lia |]. apply Hwhole. vm_compute. reflexivity.
  - destruct (@getContentPreview_shape "one two" 7%Z) as (_ & _ & Hcut); [lia |].
    apply Hcut. vm_compute. discriminate.
Defined.

Lemma truthy_snoc (cur : string) (c : ascii) : truthy (cur ++ String c "") = true.
Proof. destruct cur; reflexivity. Qed.

Lemma nonempty_truthy (w : string) : (0 <? String.length w)%nat = truthy w.
Proof. destruct w; reflexivity. Qed.

Lemma count_pieces (s : string) :
  forall (cur : string) (inRun : bool),
    (inRun = true -> cur = "") ->
    List.length (filter (fun word => (0 <? String.length word)%nat)
                        (splitSpaces cur inRun s))
    = wordRuns (truthy cur) s.
Proof.
  induction s as [| c rest IH]; intros cur inRun Hinv.
  - destruct cur; reflexivity.
  - cbn [splitSpaces wordRuns]. destruct (isSpace c).
    + destruct inRun.
      * rewrite (Hinv eq_refl). cbn. apply (IH "" true). reflexivity.
      * cbn [filter]. rewrite nonempty_truthy.
        change (wordRuns false rest) with (wordRuns (truthy "") rest).
        rewrite <- (IH "" true (fun _ => eq_refl)). destruct (truthy cur); reflexivity.
    + rewrite (IH (cur ++ String c "") false) by discriminate.
      rewrite truthy_snoc. reflexivity.
Qed.

Lemma wordRuns_trimStart (s : string) : wordRuns false (trimStart s) = wordRuns false s.
Proof.
  unfold trimStart. induction s as [| c rest IH]; [reflexivity |].
  cbn [dropWhile wordRuns]. destruct (isSpace c) eqn:Hc; [exact IH |].
  cbn [wordRuns]. rewrite Hc. reflexivity.
Qed.

Lemma wordRuns_trimEnd (s : string) :
  forall b : bool, wordRuns b (trimEnd s) = wordRuns b s.
Proof.
  induction s as [| c rest IH]; intros b; [reflexivity |].
  cbn [trimEnd wordRuns]. destruct (isSpace c) eqn:Hc; cbn [andb].
  - destruct (trimEnd rest =? "") eqn:He.
    + apply String.eqb_eq in He. rewrite <- (IH false), He. cbn. lia.
    + cbn [wordRuns]. rewrite Hc, IH. reflexivity.
  - cbn [wordRuns]. rewrite Hc. apply IH.
Qed.

Lemma getWordCount_runs (text : string) : getWordCount text = wordRuns false text.
Proof.
  unfold getWordCount, splitWhitespace, trim.
  rewrite (@count_pieces (trimEnd (trimStart text)) "" false) by discriminate.
  cbn [truthy String.eqb negb]. rewrite wordRuns_trimEnd. apply wordRuns_trimStart.
Qed.

Lemma wordRuns_app (a b : string) (sp : ascii) :
  isSpace sp = true ->
  forall w : bool,
    wordRuns w (a ++ String sp b) = (wordRuns w a + wordRuns false b)%nat.
Proof.
  intros Hsp. induction a as [| c a IH]; intros w.
  - cbn [append wordRuns]. rewrite Hsp. reflexivity.
  - cbn [append wordRuns]. destruct (isSpace c); rewrite IH; lia.
Qed.

Lemma wordRuns_blank (s : string) : wordRuns false s = 0%nat <-> blank s = true.
Proof.
  induction s as [| c rest IH]; [cbn; tauto |].
  cbn [wordRuns blank]. destruct (isSpace c); cbn [andb Nat.add].
  - exact IH.
  - split; [| discriminate]. intros H. exfalso.
    assert (Hpos : forall t, (0 < wordRuns true t)%nat).
    { induction t as [| d t IHt]; cbn; [lia |]. destruct (isSpace d); lia. }
    specialize (Hpos rest). lia.
Qed.

Lemma wordRuns_collapse (s : string) :
  forall (inRun w : bool),
    (inRun = true -> w = false) ->
    wordRuns w (collapseSpaces inRun s) = wordRuns w s.
Proof.
  induction s as [| c rest IH]; intros inRun w Hinv; [reflexivity |].
  cbn [collapseSpaces wordRuns]. destruct (isSpace c) eqn:Hc.
  - destruct inRun.
    + rewrite (Hinv eq_refl). cbn. apply IH. reflexivity.
    + cbn [wordRuns]. change (isSpace " ") with true. cbn iota.
      rewrite IH by reflexivity. reflexivity.
  - cbn [wordRuns]. rewrite Hc. apply IH. discriminate.
Qed.

(** X3.  [getWordCount] is the number of maximal runs of characters that are
    not white space.  So it is 0 exactly for a blank text, it adds up over
    two texts joined by a space, and cleaning a text does not change it as
    long as [cleanText] cuts nothing off. *)
Theorem getWordCount_counts_runs :
  forall (a b : string) (maxLength : Z),
    getWordCount a = wordRuns false a
    /\ (getWordCount a = 0%nat <-> blank a = true)
    /\ getWordCount (a ++ " " ++ b) = (getWordCount a + getWordCount b)%nat
    /\ ((Z.of_nat (String.length (trim (collapseSpaces false a))) <= maxLength)%Z ->
          getWordCount (cleanText a maxLength) = getWordCount a).
Proof.
  intros a b maxLength. split; [apply getWordCount_runs |].
  rewrite !getWordCount_runs. repeat split.
  - apply wordRuns_blank.
  - apply wordRuns_blank.
  - change (a ++ " " ++ b) with (a ++ String " " b). apply wordRuns_app. reflexivity.
  - intros Hfits. rewrite (cleanText_one_pass a maxLength). unfold upTo. rewrite take_all by lia.
    unfold trim. rewrite wordRuns_trimEnd, wordRuns_trimStart.
    apply wordRuns_collapse. discriminate.
Qed.

Lemma getWordCount_counts_runs_witness :
  getWordCount (cleanText ("  one" ++ String lineFeed " two   three ") 10000)
  = getWordCount ("  one" ++ String lineFeed " two   three ").
Proof.
  destruct (@getWordCount_counts_runs ("  one" ++ String lineFeed " two   three ")
              "" 10000%Z) as (_ & _ & _ & Hclean).
  apply Hclean. vm_compute. discriminate.
Defined.

Lemma trimStart_fixed (s : string) :
  match s with String c _ => isSpace c = false | EmptyString => True end ->
  trimStart s = s.
Proof.
  destruct s as [| c rest]; [reflexivity |]. intros Hc. unfold trimStart. cbn.
  rewrite Hc. reflexivity.
Qed.

Lemma trimStart_head (s : string) :
  match trimStart s with String c _ => isSpace c = false | EmptyString => True end.
Proof.
  unfold trimStart. induction s as [| c rest IH]; [exact I |].
  cbn [dropWhile]. destruct (isSpace c) eqn:Hc; [exact IH | exact Hc].
Qed.

Lemma trimEnd_head (s : string) :
  match s with String c _ => isSpace c = false | EmptyString => True end ->
  match trimEnd s with String c _ => isSpace c = false | EmptyString => True end.
Proof.
  destruct s as [| c rest]; [tauto |]. intros Hc. cbn [trimEnd]. rewrite Hc. exact Hc.
Qed.

Lemma take_head (n : nat) (s : string) :
  match s with String c _ => isSpace c = false | EmptyString => True end ->
  match take n s with String c _ => isSpace c = false | EmptyString => True end.
Proof. destruct n, s; cbn; tauto. Qed.

Lemma trimEnd_twice (s : string) : trimEnd (trimEnd s) = trimEnd s.
Proof.
  induction s as [| c rest IH]; [reflexivity |]. cbn [trimEnd].
  destruct (isSpace c && (trimEnd rest =? "")) eqn:Hcut; [reflexivity |].
  cbn [trimEnd]. rewrite IH, Hcut. reflexivity.
Qed.

Lemma trim_twice (s : string) : trim (trim s) = trim s.
Proof.
  unfold trim at 1. rewrite (@trimStart_fixed (trim s)).
  - unfold trim. apply trimEnd_twice.
  - unfold trim. apply trimEnd_head, trimStart_head.
Qed.

Lemma trim_blank (s : string) : blank s = true -> trim s = "".
Proof.
  intros H. unfold trim, trimStart.
  assert (Hd : dropWhile isSpace s = "").
  { induction s as [| c rest IH]; [reflexivity |]. cbn [blank] in H.
    apply andb_prop in H. destruct H as [Hc Hrest]. cbn. rewrite Hc. exact (IH Hrest). }
  rewrite Hd. reflexivity.
Qed.

(** X4.  [sanitizeQuery] returns at most 1000 characters and nothing that
    begins with white space; a blank query becomes the empty string; and a
    query whose trimmed form has at most 1000 characters is sanitized to that
    form, which a second pass leaves as it is. *)
Theorem sanitizeQuery_bounds :
  forall query : string,
    (String.length (SearchEngine.sanitizeQuery query) <= 1000)%nat
    /\ trimStart (SearchEngine.sanitizeQuery query) = SearchEngine.sanitizeQuery query
    /\ (blank query = true -> SearchEngine.sanitizeQuery query = "")
    /\ ((String.length (trim query) <= 1000)%nat ->
          SearchEngine.sanitizeQuery query = trim query
          /\ SearchEngine.sanitizeQuery (SearchEngine.sanitizeQuery query)
             = SearchEngine.sanitizeQuery query).
Proof.
  intros query. unfold SearchEngine.sanitizeQuery. split; [| split; [| split]].
  - rewrite take_length. lia.
  - apply trimStart_fixed, take_head. unfold trim. apply trimEnd_head, trimStart_head.
  - intros Hb. rewrite (@trim_blank query Hb). reflexivity.
  - intros Hfits. rewrite (@take_all 1000 (trim query) Hfits). split; [reflexivity |].
    rewrite trim_twice. apply take_all. exact Hfits.
Qed.

Lemma sanitizeQuery_bounds_witness :
  SearchEngine.sanitizeQuery "  capital of France " = "capital of France"
  /\ SearchEngine.sanitizeQuery (String "009" "  ") = "".
Proof.
  split.
  - destruct (sanitizeQuery_bounds "  capital of France ") as (_ & _ & _ & Hfits).
    apply Hfits. apply Nat.leb_le. reflexivity.
  - destruct (sanitizeQuery_bounds (String "009" "  ")) as (_ & _ & Hblank & _).
    apply Hblank. reflexivity.
Defined.
End UtilsFacts.

(** ** More on the rate limiter *)

Module RateLimiterMore.
Import RateLimiter RateLimiterFacts.
Local Open Scope Z_scope.

Lemma execute_keeps_range (A : Type) (fn : unit -> A) (now : Z) (s : t) :
  0 <= requestCount s <= maxRequestsPerMinute s ->
  0 <= requestCount (snd (execute now fn s)) <= maxRequestsPerMinute (snd (execute now fn s))
  /\ maxRequestsPerMinute (snd (execute now fn s)) = maxRequestsPerMinute s.
Proof.
  intros Hr. unfold execute, check. cbv zeta.
  assert (Hroll : 0 <= requestCount (roll now s) <= maxRequestsPerMinute (roll now s)
                  /\ maxRequestsPerMinute (roll now s) = maxRequestsPerMinute s).
  { unfold roll. destruct (_ <=? _); cbn; lia. }
  destruct (Z.leb_spec (maxRequestsPerMinute (roll now s)) (requestCount (roll now s)));
    cbn; lia.
Qed.

(** X5.  Under awaited calls the counter stays between 0 and the quota,
    whatever the instants of the calls (also with a clock that jumps back) and
    whatever the tasks do: [getStatus] never reports more requests than
    [maxRequests]. *)
Theorem awaited_calls_keep_counter_in_range :
  forall (A : Type) (fn : unit -> A) (nows : list Z) (s : t),
    0 <= requestCount s <= maxRequestsPerMinute s ->
    let s' := snd (submit fn nows s) in
    0 <= fst (fst (getStatus s')) <= snd (fst (getStatus s'))
    /\ snd (fst (getStatus s')) = maxRequestsPerMinute s.
Proof.
  intros A fn nows. induction nows as [| now rest IH]; intros s Hr; cbn [submit].
  - cbn. lia.
  - destruct (execute now fn s) as [r s1] eqn:He.
    destruct (@execute_keeps_range A fn now s Hr) as [H1 H2]. rewrite He in H1, H2.
    cbn [snd] in H1, H2. specialize (IH s1 H1). cbv zeta in IH.
    destruct (submit fn rest s1) as [rs s2]. cbn [snd] in *. rewrite <- H2. exact IH.
Qed.

Lemma awaited_calls_keep_counter_in_range_witness :
  let s' := snd (submit (fun _ => tt) [0; 5; 70000; 3] (new 2 0)) in
  0 <= fst (fst (getStatus s')) <= snd (fst (getStatus s')).
Proof.
  apply (@awaited_calls_keep_counter_in_range unit (fun _ => tt) [0; 5; 70000; 3] (new 2 0)).
  cbn. lia.
Defined.

Lemma ceil_div_1000 (d : Z) : d <= 1000 * ceil_div d 1000 < d + 1000.
Proof. unfold ceil_div. Z.div_mod_to_equations. lia. Qed.

(** X6.  A call refused at an instant not before the start of the window
    announces a wait between 1 and 60 seconds; that wait reaches the
    [resetTime] of [getStatus] and overshoots it by less than a second; and,
    for a positive quota, any call made after the announced wait runs. *)
Theorem announced_wait_is_enough :
  forall (A : Type) (fn : unit -> A) (s : t) (now w : Z),
    lastResetTime s <= now ->
    fst (execute now fn s) = RateLimitExceeded w ->
    let s' := snd (execute now fn s) in
    1 <= w <= 60
    /\ snd (getStatus s') <= now + 1000 * w < snd (getStatus s') + 1000
    /\ (0 < maxRequestsPerMinute s ->
        forall later, now + 1000 * w <= later ->
          fst (execute later fn s') = Resolved (fn tt)).
Proof.
  intros A fn s now w Hclock Hw s'. subst s'.
  destruct (Z.leb_spec (maxRequestsPerMinute (roll now s)) (requestCount (roll now s)))
    as [Hfull | Hfree].
  2: { rewrite (@execute_pass A fn now s Hfree) in Hw. discriminate. }
  rewrite (@execute_exceeded A fn now s Hfull) in Hw |- *.
  set (s1 := roll now s) in *.
  remember (ceil_div (resetIntervalMs - (now - lastResetTime s1)) 1000) as c eqn:Hc.
  unfold fst in Hw. assert (Hcw : c = w) by congruence. subst w.
  change (snd (@RateLimitExceeded A c, s1)) with s1.
  assert (Hlast : 0 <= now - lastResetTime s1 < resetIntervalMs
                  /\ maxRequestsPerMinute s1 = maxRequestsPerMinute s).
  { subst s1. rewrite roll_max.
    destruct (Z.leb_spec resetIntervalMs (now - lastResetTime s)) as [Hold | Hyoung].
    - rewrite (@roll_over now s Hold).
      change (lastResetTime (mk 0 now (maxRequestsPerMinute s))) with now.
      unfold resetIntervalMs. lia.
    - rewrite (@roll_inside now s Hyoung). lia. }
  destruct Hlast as [Hlast Hmax].
  pose proof (ceil_div_1000 (resetIntervalMs - (now - lastResetTime s1))) as Hceil.
  rewrite <- Hc in Hceil.
  assert (Hreset : snd (getStatus s1) = lastResetTime s1 + resetIntervalMs) by reflexivity.
  rewrite Hreset. unfold resetIntervalMs in *.
  split; [lia |]. split; [lia |].
  intros Hpos later Hlater.
  rewrite execute_pass.
  - reflexivity.
  - rewrite roll_over by (unfold resetIntervalMs; lia).
    unfold requestCount at 1, maxRequestsPerMinute at 1. lia.
Qed.

Lemma announced_wait_is_enough_witness :
  fst (execute 12500 (fun _ => tt) (mk 2 0 2)) = RateLimitExceeded 48
  /\ fst (execute (12500 + 1000 * 48) (fun _ => tt)
                  (snd (execute 12500 (fun _ => tt) (mk 2 0 2))))
     = Resolved tt.
Proof.
  assert (Hrefused : fst (execute 12500 (fun _ => tt) (mk 2 0 2)) = RateLimitExceeded 48)
    by reflexivity.
  split; [exact Hrefused |].
  destruct (@announced_wait_is_enough unit (fun _ => tt) (mk 2 0 2) 12500 48)
    as (_ & _ & Hlater); [cbn; lia | exact Hrefused |].
  apply Hlater; [cbn; lia | lia].
Defined.
End RateLimiterMore.

(** ** More on the browser pool *)

Module JsMapMore.
Section WithValue.
Variable V : Type.
Implicit Types (m : JsMap.t V) (k : string) (v : V).



Lemma keys_set k v m a :
  In a (JsMap.keys (JsMap.set k v m)) -> a = k \/ In a (JsMap.keys m).
Proof.
  induction m as [| [k' v'] rest IH]; cbn.
  - intros [<- | []]. left. reflexivity.
  - destruct (String.eqb_spec k' k) as [-> | Hne]; cbn.
    + intros [<- | Hin]; [left; reflexivity | right; right; exact Hin].
    + intros [<- | Hin]; [right; left; reflexivity |].
      destruct (IH Hin) as [-> | Hr]; [left; reflexivity | right; right; exact Hr].
Qed.




End WithValue.
End JsMapMore.

Module BrowserPoolMore.
Import BrowserPool JsMapFacts JsMapMore BrowserPoolFacts.
Local Open Scope Z_scope.


Lemma launchNew_fields (w : world) (browserType : string) (s1 : t) :
  let s' := snd (launchNew w browserType s1) in
  browserTypes s' = browserTypes s1
  /\ currentBrowserIndex s' = currentBrowserIndex s1
  /\ lastUsedBrowserType s' = lastUsedBrowserType s1
  /\ (forall a, In a (JsMap.keys (browsers s')) ->
                a = browserType \/ In a (JsMap.keys (browsers s1)))
  /\ (forall b, In b (closeCalls s1) -> In b (closeCalls s')).
Proof.
  unfold launchNew. destruct (launch w) as [b |]; cbv zeta.
  2: { cbn. repeat split; auto. }
  destruct (_ <? _).
  - destruct (JsMap.first _) as [[k old] |]; cbn; repeat split; auto.
    + intros a Ha. apply delete_keys_incl in Ha. apply keys_set in Ha. exact Ha.
    + intros c Hc. apply in_or_app. left. exact Hc.
    + intros a Ha. apply keys_set in Ha. exact Ha.
    + intros c Hc. apply in_or_app. left. exact Hc.
  - cbn. repeat split; auto.
    + intros a Ha. apply keys_set in Ha. exact Ha.
    + intros c Hc. apply in_or_app. left. exact Hc.
Qed.

Lemma healthCheck_fields (w : world) (s : t) :
  match healthCheck w s with
  | inl (_, s1) | inr (_, s1) =>
      browserTypes s1 = browserTypes s
      /\ currentBrowserIndex s1 = S (currentBrowserIndex s)
      /\ lastUsedBrowserType s1 = pick s
      /\ (forall a, In a (JsMap.keys (browsers s1)) -> In a (JsMap.keys (browsers s)))
  end.
Proof.
  unfold healthCheck. cbn [browsers].
  destruct (JsMap.get (pick s) (browsers s)) as [b |]; [destruct (probe w) |];
    cbn; repeat split; auto.
  intros a Ha. exact (@delete_keys_incl _ _ _ _ Ha).
Qed.

Lemma pick_in_types (s : t) : browserTypes s <> [] -> In (pick s) (browserTypes s).
Proof.
  intros Hne. unfold pick. apply nth_In. apply Nat.mod_upper_bound.
  destruct (browserTypes s); [congruence | cbn; lia].
Qed.

Lemma getBrowser_fields (w : world) (s : t) :
  let s' := snd (getBrowser w s) in
  browserTypes s' = browserTypes s
  /\ currentBrowserIndex s' = S (currentBrowserIndex s)
  /\ lastUsedBrowserType s' = pick s
  /\ (forall a, In a (JsMap.keys (browsers s')) ->
                a = pick s \/ In a (JsMap.keys (browsers s))).
Proof.
  unfold getBrowser. pose proof (healthCheck_fields w s) as Hh.
  destruct (healthCheck w s) as [[b s1] | [browserType s1]] eqn:Hc.
  - destruct Hh as (H1 & H2 & H3 & H4). cbn [snd]. repeat split; auto.
  - destruct Hh as (H1 & H2 & H3 & H4).
    assert (Hbt : browserType = pick s).
    { unfold healthCheck in Hc. cbn [browsers] in Hc.
      destruct (JsMap.get (pick s) (browsers s)); [destruct (probe w) |];
        try discriminate; injection Hc as <- _; reflexivity. }
    destruct (launchNew_fields w browserType s1) as (L1 & L2 & L3 & L4 & _).
    cbv zeta. repeat split; try congruence.
    intros a Ha. destruct (L4 a Ha) as [-> | Hin]; [left; exact Hbt | right; auto].
Qed.

(** X7.  The rotation advances by one in every call of [getBrowser], also in
    a call that throws, and the type it uses is one of the configured types;
    so a pool never caches anything under another key. *)
Theorem pool_caches_configured_types :
  forall (maxB : Z) (types : list string) (s : t) (w : world),
    types <> [] ->
    reachable maxB types s ->
    (forall k, In k (JsMap.keys (browsers s)) -> In k types)
    /\ In (pick s) types
    /\ currentBrowserIndex (snd (getBrowser w s)) = S (currentBrowserIndex s)
    /\ getLastUsedBrowserType (snd (getBrowser w s)) = pick s.
Proof.
  intros maxB types s w Hne Hr.
  assert (Hinv : browserTypes s = types
                 /\ forall k, In k (JsMap.keys (browsers s)) -> In k types).
  { clear w. induction Hr as [| w s Hr [IHt IHk] | s Hr [IHt IHk]].
    - split; [reflexivity | cbn; tauto].
    - destruct (getBrowser_fields w s) as (H1 & _ & _ & H4). split; [congruence |].
      intros k Hk. destruct (H4 k Hk) as [-> | Hin]; [| exact (IHk k Hin)].
      rewrite <- IHt. apply pick_in_types. congruence.
    - split; [exact IHt | cbn; tauto]. }
  destruct Hinv as [Ht Hk].
  destruct (getBrowser_fields w s) as (_ & H2 & H3 & _).
  split; [exact Hk |]. split; [| split; [exact H2 | exact H3]].
  rewrite <- Ht. apply pick_in_types. congruence.
Qed.

Lemma pool_caches_configured_types_witness :
  let types := ["chromium"; "firefox"]%string in
  let s := snd (getBrowser (mkWorld Healthy None) (new 3 types)) in
  In (pick s) types
  /\ currentBrowserIndex (snd (getBrowser (mkWorld Healthy None) s)) = 2%nat.
Proof.
  intros types s.
  destruct (@pool_caches_configured_types 3 types s (mkWorld Healthy None))
    as (_ & Hpick & Hindex & _).
  - discriminate.
  - apply reach_getBrowser. apply reach_new.
  - split; [exact Hpick | exact Hindex].
Defined.









End BrowserPoolMore.

(** ** More on URL validation and normalization *)

Module UrlMore.
Import Js SearchEngine UrlFacts Shapes.
Local Open Scope string_scope.
Local Open Scope bool_scope.

Lemma prefix_length (p s : string) :
  String.prefix p s = true -> (String.length p <= String.length s)%nat.
Proof.
  revert s. induction p as [| c p IH]; intros s H; [cbn; lia |].
  destruct s as [| d s]; [discriminate |]. cbn in H.
  destruct (ascii_dec c d); [| discriminate]. specialize (IH s H). cbn. lia.
Qed.

Lemma prefix_whole (p s : string) :
  String.prefix p s = true -> String.length s = String.length p -> s = p.
Proof.
  revert s. induction p as [| c p IH]; intros s H Hlen.
  - destruct s; [reflexivity | discriminate].
  - destruct s as [| d s]; [discriminate |]. cbn in H.
    destruct (ascii_dec c d) as [<- | ]; [| discriminate].
    cbn in Hlen. rewrite (IH s H); [reflexivity | lia].
Qed.

Lemma includes_length (s p : string) :
  includes s p = true -> (String.length p <= String.length s)%nat.
Proof.
  induction s as [| c s IH]; cbn [includes]; intros H.
  - apply orb_prop in H. destruct H as [H | H]; [| discriminate].
    exact (prefix_length _ _ H).
  - apply orb_prop in H. destruct H as [H | H].
    + exact (prefix_length _ _ H).
    + specialize (IH H). cbn. lia.
Qed.

Lemma includes_whole (s p : string) :
  includes s p = true -> (String.length s <= String.length p)%nat -> s = p.
Proof.
  intros H Hlen. destruct s as [| c s]; cbn [includes] in H.
  - apply orb_prop in H. destruct H as [H | H]; [| discriminate].
    apply prefix_whole; [exact H |]. pose proof (prefix_length _ _ H). lia.
  - apply orb_prop in H. destruct H as [H | H].
    + apply prefix_whole; [exact H |]. pose proof (prefix_length _ _ H). lia.
    + pose proof (includes_length _ _ H). cbn in Hlen. lia.
Qed.

(** X11.  [isValidSearchUrl] accepts exactly the strings that begin with a
    slash or with [http://] or [https://], the string [google.com], and
    every string of more than ten characters: five of its eight tests are
    subsumed by the others, and no string of more than ten characters is
    ever refused. *)
Theorem isValidSearchUrl_accepts :
  forall url : string,
    isValidSearchUrl url = true
    <-> (startsWith url "/" = true \/ schemeQualified url = true
         \/ url = "google.com" \/ (10 < String.length url)%nat).
Proof.
  intros url. unfold isValidSearchUrl, schemeQualified. split.
  - intros H. repeat (apply orb_prop in H; destruct H as [H | H]).
    + left. exact (@startsWith_app "/" "url?" url H).
    + right. left. rewrite H. reflexivity.
    + right. left. rewrite H. apply orb_true_r.
    + left. exact (@startsWith_app "/" "/" url H).
    + left. exact (@startsWith_app "/" "search?" url H).
    + left. exact H.
    + destruct (Nat.ltb_spec 10 (String.length url)) as [Hlong | Hshort].
      * right. right. right. exact Hlong.
      * right. right. left. apply includes_whole; [exact H | exact Hshort].
    + right. right. right. apply Nat.ltb_lt. exact H.
  - intros [H | [H | [H | H]]].
    + rewrite H, !orb_true_r. reflexivity.
    + apply orb_prop in H. destruct H as [H | H]; rewrite H, ?orb_true_r; reflexivity.
    + subst url. reflexivity.
    + apply Nat.ltb_lt in H. rewrite H, !orb_true_r. reflexivity.
Qed.

Example isValidSearchUrl_script : isValidSearchUrl "javascript:void(0)" = true.
Proof. reflexivity. Qed.

(** X12.  [cleanBraveUrl] puts [https:] in front of a protocol-relative
    argument and returns every other argument as it is; a second application
    changes nothing: this normalizer is idempotent at every string. *)
Theorem cleanBraveUrl_idempotent :
  forall url : string,
    cleanBraveUrl url = (if startsWith url "//" then "https:" ++ url else url)
    /\ cleanBraveUrl (cleanBraveUrl url) = cleanBraveUrl url.
Proof.
  intros url.
  assert (Hshape : cleanBraveUrl url
                   = if startsWith url "//" then "https:" ++ url else url).
  { unfold cleanBraveUrl. destruct (startsWith url "//"); [reflexivity |].
    destruct (_ || _); reflexivity. }
  split; [exact Hshape |].
  rewrite Hshape. destruct (startsWith url "//") eqn:Hrel.
  - apply UrlFacts.cleanBraveUrl_plain. reflexivity.
  - apply UrlFacts.cleanBraveUrl_plain. exact Hrel.
Qed.

(** X13.  A link that already is an [http://] or [https://] address passes
    through [cleanGoogleUrl], [cleanBraveUrl] and [cleanDuckDuckGoUrl]
    unchanged, and through [cleanBingUrl] unless it contains the marker of a
    Bing redirect. *)
Theorem direct_links_pass_unchanged :
  forall url : string,
    schemeQualified url = true ->
    cleanGoogleUrl url = url
    /\ cleanBraveUrl url = url
    /\ cleanDuckDuckGoUrl url = url
    /\ (includes url "bing.com/ck/a?" = false ->
        includes url "bing.com/ck/a&" = false ->
        cleanBingUrl url = url).
Proof.
  intros url H. repeat split.
  - apply cleanGoogleUrl_plain; apply schemeQualified_no_slash; exact H.
  - apply cleanBraveUrl_plain; apply schemeQualified_no_slash; exact H.
  - apply cleanDuckDuckGoUrl_plain; apply schemeQualified_no_slash; exact H.
  - intros H1 H2. apply cleanBingUrl_plain; try assumption.
    apply schemeQualified_no_slash. exact H.
Qed.

Lemma direct_links_pass_unchanged_witness :
  cleanGoogleUrl "https://example.com/?q=a+b" = "https://example.com/?q=a+b"
  /\ cleanBingUrl "https://www.bing.com/search?q=x" = "https://www.bing.com/search?q=x".
Proof.
  destruct (@direct_links_pass_unchanged "https://example.com/?q=a+b") as (Hg & _);
    [reflexivity |].
  destruct (@direct_links_pass_unchanged "https://www.bing.com/search?q=x")
    as (_ & _ & _ & Hb); [reflexivity |].
  split; [exact Hg | apply Hb; reflexivity].
Defined.

Lemma append_empty (s : string) : s ++ "" = s.
Proof. induction s as [| c s IH]; cbn; [reflexivity | rewrite IH; reflexivity]. Qed.

Lemma append_snoc (cur a : string) (c : ascii) :
  (cur ++ String c "") ++ a = cur ++ String c a.
Proof. induction cur as [| d cur IH]; cbn; [reflexivity | rewrite IH; reflexivity]. Qed.

Lemma splitOn_lacks (sep : ascii) (a : string) :
  lacks sep a = true ->
  forall cur b : string,
    splitOn sep cur a = [cur ++ a]
    /\ splitOn sep cur (a ++ String sep b) = (cur ++ a) :: splitOn sep "" b.
Proof.
  induction a as [| c a IH]; intros Hl cur b.
  - cbn. rewrite Ascii.eqb_refl, append_empty. split; reflexivity.
  - cbn [lacks] in Hl. apply andb_prop in Hl. destruct Hl as [Hc Ha].
    apply negb_true_iff in Hc. cbn [splitOn append]. rewrite Hc.
    destruct (IH Ha (cur ++ String c "") b) as [H1 H2].
    rewrite H1, H2, append_snoc. split; reflexivity.
Qed.

(** Well-formed UTF-8 is read as it is. *)
Lemma utf8Decode_wellFormed (s : string) : wellFormed s = true -> utf8Decode s = s.
Proof.
  assert (H : forall n s, (String.length s < n)%nat ->
                          wellFormed s = true -> utf8Decode s = s).
  { clear s. induction n as [| n IH]; intros s Hlen Hwf; [lia |].
    destruct s as [| c rest]; [reflexivity |].
    cbn [wellFormed utf8Decode] in Hwf |- *. cbn [String.length] in Hlen.
    destruct (byte c <? 128)%nat; [rewrite (IH rest); [reflexivity | lia | exact Hwf] |].
    destruct (utf8Lead (byte c)) as [[[more lo] hi] |]; [| discriminate].
    destruct rest as [| c1 rest1]; [discriminate |]. cbn [String.length] in Hlen.
    apply andb_prop in Hwf. destruct Hwf as [Hc1 Hwf]. rewrite Hc1.
    destruct more as [| [| more]].
    - destruct rest1 as [| c2 rest2]; [discriminate |]. cbn [String.length] in Hlen.
      apply andb_prop in Hwf. destruct Hwf as [Hc2 Hwf]. rewrite Hc2.
      destruct rest2 as [| c3 rest3]; [discriminate |]. cbn [String.length] in Hlen.
      apply andb_prop in Hwf. destruct Hwf as [Hc3 Hwf]. rewrite Hc3.
      rewrite (IH rest3); [reflexivity | lia | exact Hwf].
    - rewrite (IH rest1); [reflexivity | lia | exact Hwf].
    - destruct rest1 as [| c2 rest2]; [discriminate |]. cbn [String.length] in Hlen.
      apply andb_prop in Hwf. destruct Hwf as [Hc2 Hwf]. rewrite Hc2.
      destruct more as [| more].
      + rewrite (IH rest2); [reflexivity | lia | exact Hwf].
      + destruct rest2 as [| c3 rest3]; [discriminate |]. cbn [String.length] in Hlen.
        apply andb_prop in Hwf. destruct Hwf as [Hc3 Hwf]. rewrite Hc3.
        rewrite (IH rest3); [reflexivity | lia | exact Hwf]. }
  apply (H (S (String.length s))). lia.
Qed.

Lemma percentDecodeBytes_plain (s : string) :
  lacks "%" s = true -> percentDecodeBytes s = s.
Proof.
  induction s as [| c s IH]; [reflexivity |]. cbn [lacks percentDecodeBytes].
  intros H. apply andb_prop in H. destruct H as [Hc Hs].
  apply negb_true_iff in Hc. rewrite Hc, (IH Hs). reflexivity.
Qed.

Lemma percentDecode_plain (s : string) :
  lacks "%" s = true -> wellFormed s = true -> percentDecode s = s.
Proof.
  intros Hp Hwf. unfold percentDecode. rewrite (percentDecodeBytes_plain _ Hp).
  apply utf8Decode_wellFormed. exact Hwf.
Qed.

Lemma plusToSpace_plain (s : string) : lacks "+" s = true -> plusToSpace s = s.
Proof.
  unfold plusToSpace. induction s as [| c s IH]; [reflexivity |]. cbn [lacks mapChars].
  intros H. apply andb_prop in H. destruct H as [Hc Hs].
  apply negb_true_iff in Hc. rewrite Hc, (IH Hs). reflexivity.
Qed.

Lemma decodeURIComponent_plain (s : string) :
  lacks "%" s = true -> decodeURIComponent s = Some s.
Proof.
  unfold decodeURIComponent.
  induction s as [| c s IH]; [reflexivity |]. cbn [lacks tokens].
  intros H. apply andb_prop in H. destruct H as [Hc Hs].
  apply negb_true_iff in Hc. rewrite Hc. specialize (IH Hs).
  destruct (tokens s) as [ts |]; [| discriminate].
  cbn [option_map decodeTokens]. rewrite IH. reflexivity.
Qed.

(** The first parameter of a query string [name=enc] or [name=enc&tail],
    for the two names the normalizers ask for. *)
Lemma params_q (enc : string) :
  lacks "&" enc = true ->
  forall tail : string,
    get "q" (URLSearchParams ("q=" ++ enc)) = Some (percentDecode (plusToSpace enc))
    /\ get "q" (URLSearchParams ("q=" ++ enc ++ "&" ++ tail))
       = Some (percentDecode (plusToSpace enc)).
Proof.
  intros Hl tail. unfold URLSearchParams, split.
  assert (Hl2 : lacks "&" ("q=" ++ enc) = true) by exact Hl.
  destruct (splitOn_lacks "&" ("q=" ++ enc) Hl2 "" tail) as [H1 H2].
  change ("q=" ++ enc ++ "&" ++ tail) with (("q=" ++ enc) ++ String "&" tail).
  change (startsWith ("q=" ++ enc) "?") with false.
  change (startsWith (("q=" ++ enc) ++ String "&" tail) "?") with false.
  cbv iota. rewrite H1, H2. split; reflexivity.
Qed.

Lemma params_uddg (enc : string) :
  lacks "&" enc = true ->
  forall tail : string,
    get "uddg" (URLSearchParams ("uddg=" ++ enc)) = Some (percentDecode (plusToSpace enc))
    /\ get "uddg" (URLSearchParams ("uddg=" ++ enc ++ "&" ++ tail))
       = Some (percentDecode (plusToSpace enc)).
Proof.
  intros Hl tail. unfold URLSearchParams, split.
  assert (Hl2 : lacks "&" ("uddg=" ++ enc) = true) by exact Hl.
  destruct (splitOn_lacks "&" ("uddg=" ++ enc) Hl2 "" tail) as [H1 H2].
  change ("uddg=" ++ enc ++ "&" ++ tail) with (("uddg=" ++ enc) ++ String "&" tail).
  change (startsWith ("uddg=" ++ enc) "?") with false.
  change (startsWith (("uddg=" ++ enc) ++ String "&" tail) "?") with false.
  cbv iota. rewrite H1, H2. split; reflexivity.
Qed.

(** X14.  For a Google redirect [/url?q=enc] or [/url?q=enc&tail] whose
    [enc] has no [&], [cleanGoogleUrl] returns [enc] as [URLSearchParams]
    decodes it: every [+] turned into a space, the percent escapes decoded,
    and the bytes read as UTF-8, with U+FFFD for what is not (when the
    result is not empty).  So a target in well-formed UTF-8 written without
    [%], [+] and [&] comes back as it was wrapped. *)
Theorem cleanGoogleUrl_unwraps :
  forall enc tail : string,
    lacks "&" enc = true ->
    truthy (percentDecode (plusToSpace enc)) = true ->
    cleanGoogleUrl ("/url?q=" ++ enc) = percentDecode (plusToSpace enc)
    /\ cleanGoogleUrl ("/url?q=" ++ enc ++ "&" ++ tail) = percentDecode (plusToSpace enc)
    /\ (lacks "%" enc = true -> lacks "+" enc = true -> wellFormed enc = true ->
        cleanGoogleUrl ("/url?q=" ++ enc ++ "&" ++ tail) = enc).
Proof.
  intros enc tail Hl Ht.
  destruct (params_q enc Hl tail) as [H1 H2].
  assert (Hone : cleanGoogleUrl ("/url?q=" ++ enc) = percentDecode (plusToSpace enc)).
  { unfold cleanGoogleUrl.
    change (startsWith ("/url?q=" ++ enc) "/url?") with true.
    change (drop 5 ("/url?q=" ++ enc)) with ("q=" ++ enc). cbv iota zeta.
    rewrite H1. unfold orElse. cbv beta iota. rewrite Ht. cbv beta iota. rewrite ?Ht. reflexivity. }
  assert (Htwo : cleanGoogleUrl ("/url?q=" ++ enc ++ "&" ++ tail)
                 = percentDecode (plusToSpace enc)).
  { unfold cleanGoogleUrl.
    change (startsWith ("/url?q=" ++ enc ++ "&" ++ tail) "/url?") with true.
    change (drop 5 ("/url?q=" ++ enc ++ "&" ++ tail)) with ("q=" ++ enc ++ "&" ++ tail).
    cbv iota zeta. rewrite H2. unfold orElse. cbv beta iota. rewrite Ht. cbv beta iota. rewrite ?Ht. reflexivity. }
  split; [exact Hone |]. split; [exact Htwo |].
  intros Hp Hplus Hwf. rewrite Htwo, (plusToSpace_plain _ Hplus).
  apply percentDecode_plain; assumption.
Qed.

Lemma cleanGoogleUrl_unwraps_witness :
  cleanGoogleUrl ("/url?q=" ++ "https://example.com/a+b%2Fc" ++ "&" ++ "sa=U&ved=0")
  = "https://example.com/a b/c"
  /\ cleanGoogleUrl ("/url?q=" ++ "https://example.com/a" ++ "&" ++ "sa=U")
     = "https://example.com/a"
  /\ cleanGoogleUrl ("/url?q=" ++ "https://e.com/%FF") = "https://e.com/" ++ replacement.
Proof.
  split; [| split].
  - apply (@cleanGoogleUrl_unwraps "https://example.com/a+b%2Fc" "sa=U&ved=0");
      reflexivity.
  - apply (@cleanGoogleUrl_unwraps "https://example.com/a" "sa=U"); reflexivity.
  - destruct (@cleanGoogleUrl_unwraps "https://e.com/%FF" "") as (Hone & _);
      [reflexivity | vm_compute; reflexivity |].
    rewrite Hone. vm_compute. reflexivity.
Defined.

(** X15.  For a DuckDuckGo redirect [//duckduckgo.com/l/?uddg=enc] or
    [...uddg=enc&tail] whose [enc] has no [&], the target is decoded twice:
    once by [URLSearchParams], once more by [decodeURIComponent].  When the
    second decoding throws (a [%] without two hexadecimal digits, or escapes
    that are not UTF-8), the redirect itself comes back behind [https:].  A
    target in well-formed UTF-8 written without [%], [+] and [&] comes back
    as it was wrapped. *)
Theorem cleanDuckDuckGoUrl_decodes_twice :
  forall enc tail : string,
    lacks "&" enc = true ->
    truthy (percentDecode (plusToSpace enc)) = true ->
    let once := percentDecode (plusToSpace enc) in
    cleanDuckDuckGoUrl ("//duckduckgo.com/l/?uddg=" ++ enc)
    = match decodeURIComponent once with
      | Some twice => twice
      | None => "https:" ++ "//duckduckgo.com/l/?uddg=" ++ enc
      end
    /\ cleanDuckDuckGoUrl ("//duckduckgo.com/l/?uddg=" ++ enc ++ "&" ++ tail)
       = match decodeURIComponent once with
         | Some twice => twice
         | None => "https:" ++ "//duckduckgo.com/l/?uddg=" ++ enc ++ "&" ++ tail
         end
    /\ (lacks "%" enc = true -> lacks "+" enc = true -> wellFormed enc = true ->
        cleanDuckDuckGoUrl ("//duckduckgo.com/l/?uddg=" ++ enc ++ "&" ++ tail) = enc).
Proof.
  intros enc tail Hl Ht once.
  destruct (params_uddg enc Hl tail) as [H1 H2].
  assert (Hone : cleanDuckDuckGoUrl ("//duckduckgo.com/l/?uddg=" ++ enc)
                 = match decodeURIComponent once with
                   | Some twice => twice
                   | None => "https:" ++ "//duckduckgo.com/l/?uddg=" ++ enc
                   end).
  { unfold cleanDuckDuckGoUrl.
    change (startsWith ("//duckduckgo.com/l/?uddg=" ++ enc) "//duckduckgo.com/l/")
      with true.
    change (startsWith ("//duckduckgo.com/l/?uddg=" ++ enc) "//") with true.
    change (afterFirst "?" ("//duckduckgo.com/l/?uddg=" ++ enc)
                       ("//duckduckgo.com/l/?uddg=" ++ enc))
      with ("uddg=" ++ enc).
    cbv iota zeta. rewrite H1. rewrite Ht. reflexivity. }
  assert (Htwo : cleanDuckDuckGoUrl ("//duckduckgo.com/l/?uddg=" ++ enc ++ "&" ++ tail)
                 = match decodeURIComponent once with
                   | Some twice => twice
                   | None => "https:" ++ "//duckduckgo.com/l/?uddg=" ++ enc ++ "&" ++ tail
                   end).
  { unfold cleanDuckDuckGoUrl.
    change (startsWith ("//duckduckgo.com/l/?uddg=" ++ enc ++ "&" ++ tail)
                       "//duckduckgo.com/l/") with true.
    change (startsWith ("//duckduckgo.com/l/?uddg=" ++ enc ++ "&" ++ tail) "//") with true.
    change (afterFirst "?" ("//duckduckgo.com/l/?uddg=" ++ enc ++ "&" ++ tail)
                       ("//duckduckgo.com/l/?uddg=" ++ enc ++ "&" ++ tail))
      with ("uddg=" ++ enc ++ "&" ++ tail).
    cbv iota zeta. rewrite H2. rewrite Ht. reflexivity. }
  split; [exact Hone |]. split; [exact Htwo |].
  intros Hp Hplus Hwf. rewrite Htwo. subst once.
  rewrite (plusToSpace_plain _ Hplus), (percentDecode_plain _ Hp Hwf),
    (decodeURIComponent_plain _ Hp). reflexivity.
Qed.

Lemma cleanDuckDuckGoUrl_decodes_twice_witness :
  cleanDuckDuckGoUrl
    ("//duckduckgo.com/l/?uddg=" ++ "https%3A%2F%2Fexample.com%2F100%2525" ++ "&" ++ "rut=1")
  = "https://example.com/100%"
  /\ cleanDuckDuckGoUrl
       ("//duckduckgo.com/l/?uddg=" ++ "https%3A%2F%2Fexample.com%2F%3Fq%3D50%25")
     = "https://duckduckgo.com/l/?uddg=https%3A%2F%2Fexample.com%2F%3Fq%3D50%25"
  /\ cleanDuckDuckGoUrl ("//duckduckgo.com/l/?uddg=" ++ "https%3A%2F%2Fe.com%2F%25E9")
     = "https://duckduckgo.com/l/?uddg=https%3A%2F%2Fe.com%2F%25E9".
Proof.
  split; [| split].
  - apply (@cleanDuckDuckGoUrl_decodes_twice "https%3A%2F%2Fexample.com%2F100%2525" "rut=1");
      reflexivity.
  - apply (@cleanDuckDuckGoUrl_decodes_twice "https%3A%2F%2Fexample.com%2F%3Fq%3D50%25" "");
      reflexivity.
  - destruct (@cleanDuckDuckGoUrl_decodes_twice "https%3A%2F%2Fe.com%2F%25E9" "")
      as (Hone & _); [reflexivity | vm_compute; reflexivity |].
    rewrite Hone. vm_compute. reflexivity.
Defined.

(** X16.  [cleanBingUrl] returns the link as it is, behind [https:] when it
    is protocol-relative, unless the link carries the marker of a Bing
    redirect and a [u=a1] parameter that [decodeURIComponent] accepts.  For
    such a parameter in ASCII it returns the base64-decoded text when that
    begins with [http://] or [https://], and the link as it is when the
    decoded text has another shape; the padding it appends plays no part. *)
Theorem cleanBingUrl_falls_back :
  forall url : string,
    let kept := if startsWith url "//" then "https:" ++ url else url in
    (includes url "bing.com/ck/a?" || includes url "bing.com/ck/a&" = false ->
       cleanBingUrl url = kept)
    /\ (matchBingTarget url = None -> cleanBingUrl url = kept)
    /\ (forall captured,
          matchBingTarget url = Some captured ->
          decodeURIComponent captured = None ->
          cleanBingUrl url = kept)
    /\ (forall captured encoded,
          includes url "bing.com/ck/a?" || includes url "bing.com/ck/a&" = true ->
          matchBingTarget url = Some captured ->
          decodeURIComponent captured = Some encoded ->
          isAscii encoded = true ->
          cleanBingUrl url
          = if schemeQualified (base64Decode encoded) then base64Decode encoded
            else kept).
Proof.
  intros url kept.
  assert (Hrest : (if startsWith url "//" then "https:" ++ url
                   else if startsWith url "http://" || startsWith url "https://"
                        then url else url) = kept).
  { subst kept. destruct (startsWith url "//"); [reflexivity |].
    destruct (_ || _); reflexivity. }
  unfold cleanBingUrl. rewrite Hrest.
  destruct (includes url "bing.com/ck/a?" || includes url "bing.com/ck/a&") eqn:Hmark.
  2: { split; [reflexivity |]. split; [reflexivity |].
       split; [reflexivity | intros; discriminate]. }
  split; [discriminate |].
  destruct (matchBingTarget url) as [captured |] eqn:Hmatch.
  2: { split; [reflexivity |]. split; intros; discriminate. }
  split; [discriminate |]. split.
  - intros c Hc Hnone. injection Hc as <-. rewrite Hnone. reflexivity.
  - intros c encoded _ Hc Hdec _. injection Hc as <-. rewrite Hdec. cbv zeta.
    assert (Hpad : base64Decode
                     (if negb (4 - String.length encoded mod 4 =? 0)%nat
                         && negb (4 - String.length encoded mod 4 =? 4)%nat
                      then encoded ++ repeatChar "=" (4 - String.length encoded mod 4)
                      else encoded)
                   = base64Decode encoded).
    { destruct (_ && _); [apply base64Decode_padding | reflexivity]. }
    rewrite Hpad. reflexivity.
Qed.

Lemma cleanBingUrl_falls_back_witness :
  cleanBingUrl "https://www.bing.com/ck/a?p=1&ntb=1" = "https://www.bing.com/ck/a?p=1&ntb=1"
  /\ cleanBingUrl "https://www.bing.com/ck/a?u=a1%zz&ntb=1"
     = "https://www.bing.com/ck/a?u=a1%zz&ntb=1"
  /\ cleanBingUrl "https://www.bing.com/ck/a?!&&p=abc&u=a1aHR0cHM6Ly9leGFtcGxlLmNvbQ&ntb=1"
     = "https://example.com"
  /\ cleanBingUrl "//www.bing.com/ck/a?u=a1Zm9v&ntb=1"
     = "https://www.bing.com/ck/a?u=a1Zm9v&ntb=1".
Proof.
  split; [| split; [| split]].
  - destruct (cleanBingUrl_falls_back "https://www.bing.com/ck/a?p=1&ntb=1")
      as (_ & Hnone & _).
    apply Hnone. reflexivity.
  - destruct (cleanBingUrl_falls_back "https://www.bing.com/ck/a?u=a1%zz&ntb=1")
      as (_ & _ & Hthrows & _).
    apply (Hthrows "%zz"); reflexivity.
  - destruct (cleanBingUrl_falls_back
                "https://www.bing.com/ck/a?!&&p=abc&u=a1aHR0cHM6Ly9leGFtcGxlLmNvbQ&ntb=1")
      as (_ & _ & _ & Hdecoded).
    apply (Hdecoded "aHR0cHM6Ly9leGFtcGxlLmNvbQ" "aHR0cHM6Ly9leGFtcGxlLmNvbQ");
      reflexivity.
  - destruct (cleanBingUrl_falls_back "//www.bing.com/ck/a?u=a1Zm9v&ntb=1")
      as (_ & _ & _ & Hdecoded).
    apply (Hdecoded "Zm9v" "Zm9v"); reflexivity.
Defined.
End UrlMore.

(** ** More on the parsers *)

Module ParserMore.
Import Js Cheerio SearchEngine UrlFacts ParserFacts Shapes.
Local Open Scope string_scope.
Local Open Scope bool_scope.

Lemma push_within (maxResults : Z) (found : list SearchResult) (r : SearchResult) :
  reached maxResults found = false ->
  (Z.of_nat (List.length (found ++ [r])) <= Z.max 0 maxResults)%Z.
Proof.
  unfold reached. intros H. apply Z.leb_gt in H. rewrite length_app. cbn. lia.
Qed.

Ltac card_within :=
  match goal with
  | |- context [reached ?m ?f] =>
      destruct (reached m f) eqn:Hreached; [discriminate |]
  end;
  repeat match goal with
         | |- context [let (_, _) := ?p in _] => destruct p
         | |- (match ?x with _ => _ end) = Some _ -> _ => destruct x
         | |- (if ?c then _ else _) = Some _ -> _ => destruct c
         end;
  intros Hcard; injection Hcard as <-; cbn [fst];
  solve [assumption | apply push_within; assumption].

Lemma googleCard_within (ts : string) (maxResults : Z) (e : element)
      (st st' : list SearchResult * bool) :
  (Z.of_nat (List.length (fst st)) <= Z.max 0 maxResults)%Z ->
  googleCard ts maxResults e st = Some st' ->
  (Z.of_nat (List.length (fst st')) <= Z.max 0 maxResults)%Z.
Proof. intros HP. unfold googleCard. card_within. Qed.

Lemma googleHeading_within (ts : string) (maxResults : Z) (e : element)
      (found found' : list SearchResult) :
  (Z.of_nat (List.length found) <= Z.max 0 maxResults)%Z ->
  googleHeading ts maxResults e found = Some found' ->
  (Z.of_nat (List.length found') <= Z.max 0 maxResults)%Z.
Proof. intros HP. unfold googleHeading. card_within. Qed.

Lemma braveCard_within (ts : string) (maxResults : Z) (e : element)
      (st st' : list SearchResult * bool) :
  (Z.of_nat (List.length (fst st)) <= Z.max 0 maxResults)%Z ->
  braveCard ts maxResults e st = Some st' ->
  (Z.of_nat (List.length (fst st')) <= Z.max 0 maxResults)%Z.
Proof. intros HP. unfold braveCard. card_within. Qed.

Lemma bingCard_within (ts : string) (maxResults : Z) (e : element)
      (st st' : list SearchResult * bool) :
  (Z.of_nat (List.length (fst st)) <= Z.max 0 maxResults)%Z ->
  bingCard ts maxResults e st = Some st' ->
  (Z.of_nat (List.length (fst st')) <= Z.max 0 maxResults)%Z.
Proof. intros HP. unfold bingCard. card_within. Qed.

Lemma duckDuckGoCard_within (ts : string) (maxResults : Z) (e : element)
      (found found' : list SearchResult) :
  (Z.of_nat (List.length found) <= Z.max 0 maxResults)%Z ->
  duckDuckGoCard ts maxResults e found = Some found' ->
  (Z.of_nat (List.length found') <= Z.max 0 maxResults)%Z.
Proof. intros HP. unfold duckDuckGoCard. card_within. Qed.

(** X17.  No parser returns more than [maxResults] results, and none at all
    for a [maxResults] of 0 or less, whatever the page holds. *)
Theorem parsers_respect_maxResults :
  forall (ts : string) (doc : page) (maxResults : Z),
    (Z.of_nat (List.length (parseSearchResults ts doc maxResults)) <= Z.max 0 maxResults)%Z
    /\ (Z.of_nat (List.length (parseBraveResults ts doc maxResults)) <= Z.max 0 maxResults)%Z
    /\ (Z.of_nat (List.length (parseBingResults ts doc maxResults)) <= Z.max 0 maxResults)%Z
    /\ (Z.of_nat (List.length (parseDuckDuckGoResults ts doc maxResults))
        <= Z.max 0 maxResults)%Z.
Proof.
  intros ts doc maxResults. split; [| split; [| split]].
  - unfold parseSearchResults.
    assert (Hloop : (Z.of_nat (List.length
                       (fst (googleSelectorLoop ts maxResults doc searchResultSelectors
                                                ([], false)))) <= Z.max 0 maxResults)%Z).
    { apply (@googleSelectorLoop_invariant
               (fun st => (Z.of_nat (List.length (fst st)) <= Z.max 0 maxResults)%Z)).
      - intros e st st'. apply googleCard_within.
      - cbn. lia. }
    destruct (fst (googleSelectorLoop _ _ _ _ _)) as [| r rs]; [| exact Hloop].
    apply (@each_invariant _
             (fun found => (Z.of_nat (List.length found) <= Z.max 0 maxResults)%Z)).
    + intros e st st'. apply googleHeading_within.
    + cbn. lia.
  - unfold parseBraveResults.
    apply (@selectorLoop_invariant
             (fun st => (Z.of_nat (List.length (fst st)) <= Z.max 0 maxResults)%Z)).
    + intros e st st'. apply braveCard_within.
    + cbn. lia.
  - unfold parseBingResults.
    apply (@selectorLoop_invariant
             (fun st => (Z.of_nat (List.length (fst st)) <= Z.max 0 maxResults)%Z)).
    + intros e st st'. apply bingCard_within.
    + cbn. lia.
  - unfold parseDuckDuckGoResults.
    apply (@each_invariant _
             (fun found => (Z.of_nat (List.length found) <= Z.max 0 maxResults)%Z)).
    + intros e st st'. apply duckDuckGoCard_within.
    + cbn. lia.
Qed.

Lemma schemeQualified_truthy (d : string) : schemeQualified d = true -> truthy d = true.
Proof. destruct d; [discriminate | reflexivity]. Qed.

Lemma kept_truthy (href : string) :
  truthy href = true ->
  truthy (if startsWith href "//" then "https:" ++ href else href) = true.
Proof. intros H. destruct (startsWith href "//"); [reflexivity | exact H]. Qed.

Lemma cleanGoogleUrl_truthy (href : string) :
  truthy href = true -> truthy (cleanGoogleUrl href) = true.
Proof.
  intros H. unfold cleanGoogleUrl. destruct (startsWith href "/url?").
  - destruct (orElse _ _) as [a |]; [| apply kept_truthy; exact H].
    destruct (truthy a) eqn:Ha; [exact Ha | apply kept_truthy; exact H].
  - apply kept_truthy. exact H.
Qed.

Lemma cleanBraveUrl_truthy (href : string) :
  truthy href = true -> truthy (cleanBraveUrl href) = true.
Proof.
  intros H. unfold cleanBraveUrl. destruct (startsWith href "//"); [reflexivity |].
  destruct (_ || _); exact H.
Qed.

Lemma cleanBingUrl_truthy (href : string) :
  truthy href = true -> truthy (cleanBingUrl href) = true.
Proof.
  intros H.
  assert (Hrest : truthy (if startsWith href "//" then "https:" ++ href
                          else if startsWith href "http://" || startsWith href "https://"
                               then href else href) = true).
  { destruct (startsWith href "//"); [reflexivity |]. destruct (_ || _); exact H. }
  unfold cleanBingUrl. cbv zeta.
  destruct (includes href "bing.com/ck/a?" || includes href "bing.com/ck/a&");
    [| exact Hrest].
  destruct (matchBingTarget href) as [captured |]; [| exact Hrest].
  destruct (decodeURIComponent captured) as [encoded |]; [| exact Hrest].
  match goal with
  | |- context [startsWith ?d "http://" || startsWith ?d "https://"] =>
      destruct (startsWith d "http://" || startsWith d "https://") eqn:Hd
  end; [| exact Hrest].
  apply schemeQualified_truthy. exact Hd.
Qed.

Lemma decodeTokens_truthy (t : token) (ts : list token) (d : string) :
  decodeTokens (t :: ts) = Some d -> truthy d = true.
Proof.
  cbn [decodeTokens].
  repeat match goal with
         | |- (match ?x with _ => _ end) = _ -> _ => destruct x
         | |- option_map _ ?x = _ -> _ => destruct x; cbn [option_map]
         end;
    try discriminate; intros H; injection H as <-; reflexivity.
Qed.

Lemma decodeURIComponent_truthy (s d : string) :
  decodeURIComponent s = Some d -> truthy s = true -> truthy d = true.
Proof.
  destruct s as [| c rest]; [discriminate |]. unfold decodeURIComponent.
  destruct (tokens (String c rest)) as [[| t ts] |] eqn:Htok; intros Hd _.
  - cbn [tokens] in Htok.
    repeat match type of Htok with
           | (match ?x with _ => _ end) = _ => destruct x
           | option_map _ ?x = _ => destruct x; cbn [option_map] in Htok
           end; discriminate.
  - exact (decodeTokens_truthy _ _ Hd).
  - discriminate.
Qed.

Lemma cleanDuckDuckGoUrl_truthy (href : string) :
  truthy href = true -> truthy (cleanDuckDuckGoUrl href) = true.
Proof.
  intros H. unfold cleanDuckDuckGoUrl. destruct (startsWith href "//duckduckgo.com/l/").
  - destruct (get "uddg" _) as [a |]; [| apply kept_truthy; exact H].
    destruct (truthy a) eqn:Ha; [| apply kept_truthy; exact H].
    destruct (decodeURIComponent a) as [d |] eqn:Hd; [| apply kept_truthy; exact H].
    exact (decodeURIComponent_truthy _ Hd Ha).
  - apply kept_truthy. exact H.
Qed.

Lemma orNoDescription_truthy (snippet : string) : truthy (orNoDescription snippet) = true.
Proof. unfold orNoDescription. destruct (truthy snippet) eqn:H; [exact H | reflexivity]. Qed.

Lemma push_filled (ts : string) (found : list SearchResult) (t u d : string) :
  Forall (filled ts) found ->
  truthy t = true -> truthy u = true -> truthy d = true ->
  Forall (filled ts) (found ++ [newResult t u d ts]).
Proof.
  intros Hall Ht Hu Hd. apply Forall_app. split; [exact Hall |].
  constructor; [| constructor]. repeat split; assumption.
Qed.

Lemma accepted (t u : string) (c : bool) :
  truthy t && truthy u && c = true -> truthy t = true /\ truthy u = true.
Proof.
  intros H. apply andb_prop in H. destruct H as [H _].
  apply andb_prop in H. exact H.
Qed.

Lemma googleCard_filled (ts : string) (maxResults : Z) (e : element)
      (st st' : list SearchResult * bool) :
  Forall (filled ts) (fst st) ->
  googleCard ts maxResults e st = Some st' ->
  Forall (filled ts) (fst st').
Proof.
  intros HP. unfold googleCard. destruct (reached _ _); [discriminate |].
  destruct (googleTitleAndUrl _ _) as [t u].
  destruct (truthy t && truthy u && isValidSearchUrl u) eqn:Hok;
    intros H; injection H as <-; [| exact HP].
  destruct (accepted _ _ _ Hok) as [Ht Hu]. cbn [fst].
  apply push_filled; auto using cleanGoogleUrl_truthy, orNoDescription_truthy.
Qed.

Lemma googleHeading_filled (ts : string) (maxResults : Z) (h3 : element)
      (found found' : list SearchResult) :
  Forall (filled ts) found ->
  googleHeading ts maxResults h3 found = Some found' ->
  Forall (filled ts) found'.
Proof.
  intros HP. unfold googleHeading. destruct (reached _ _); [discriminate |].
  destruct (closestA h3) as [link |]; [| intros H; injection H as <-; exact HP].
  destruct (truthy (trim (text h3))) eqn:Ht; [| intros H; injection H as <-; exact HP].
  destruct (isValidSearchUrl (hrefOrEmpty link)) eqn:Hv;
    intros H; injection H as <-; [| exact HP].
  apply push_filled; auto.
  apply cleanGoogleUrl_truthy. destruct (hrefOrEmpty link); [discriminate | reflexivity].
Qed.

Lemma braveCard_filled (ts : string) (maxResults : Z) (e : element)
      (st st' : list SearchResult * bool) :
  Forall (filled ts) (fst st) ->
  braveCard ts maxResults e st = Some st' ->
  Forall (filled ts) (fst st').
Proof.
  intros HP. unfold braveCard. destruct (reached _ _); [discriminate |].
  destruct (braveTitleAndUrl _ _ _) as [t0 u].
  destruct (truthy (braveTitleFromText e t0) && truthy u && isValidSearchUrl u) eqn:Hok;
    intros H; injection H as <-; [| exact HP].
  destruct (accepted _ _ _ Hok) as [Ht Hu]. cbn [fst].
  apply push_filled; auto using cleanBraveUrl_truthy, orNoDescription_truthy.
Qed.

Lemma bingCard_filled (ts : string) (maxResults : Z) (e : element)
      (st st' : list SearchResult * bool) :
  Forall (filled ts) (fst st) ->
  bingCard ts maxResults e st = Some st' ->
  Forall (filled ts) (fst st').
Proof.
  intros HP. unfold bingCard. destruct (reached _ _); [discriminate |].
  destruct (bingTitleAndUrl _ _) as [t u].
  destruct (truthy t && truthy u && isValidSearchUrl u) eqn:Hok;
    intros H; injection H as <-; [| exact HP].
  destruct (accepted _ _ _ Hok) as [Ht Hu]. cbn [fst].
  apply push_filled; auto using cleanBingUrl_truthy, orNoDescription_truthy.
Qed.

Lemma duckDuckGoCard_filled (ts : string) (maxResults : Z) (e : element)
      (found found' : list SearchResult) :
  Forall (filled ts) found ->
  duckDuckGoCard ts maxResults e found = Some found' ->
  Forall (filled ts) found'.
Proof.
  intros HP. unfold duckDuckGoCard. destruct (reached _ _); [discriminate |].
  destruct (attrHref _) as [u |]; [| intros H; injection H as <-; exact HP].
  destruct (truthy _ && truthy u) eqn:Hok; intros H; injection H as <-; [| exact HP].
  apply andb_prop in Hok. destruct Hok as [Ht Hu].
  apply push_filled; auto using cleanDuckDuckGoUrl_truthy, orNoDescription_truthy.
Qed.

(** X18.  Every result of every parser has a title, a URL and a description
    that are not empty (the description is the fixed text when the card has
    no snippet), carries the time stamp taken at the start of that parse, and
    has no error. *)
Theorem parsed_results_are_filled :
  forall (ts : string) (doc : page) (maxResults : Z),
    Forall (filled ts) (parseSearchResults ts doc maxResults)
    /\ Forall (filled ts) (parseBraveResults ts doc maxResults)
    /\ Forall (filled ts) (parseBingResults ts doc maxResults)
    /\ Forall (filled ts) (parseDuckDuckGoResults ts doc maxResults).
Proof.
  intros ts doc maxResults. split; [| split; [| split]].
  - unfold parseSearchResults.
    assert (Hloop : Forall (filled ts)
                      (fst (googleSelectorLoop ts maxResults doc searchResultSelectors
                                               ([], false)))).
    { apply (@googleSelectorLoop_invariant (fun st => Forall (filled ts) (fst st))).
      - intros e st st'. apply googleCard_filled.
      - constructor. }
    destruct (fst (googleSelectorLoop _ _ _ _ _)) as [| r rs]; [| exact Hloop].
    apply (@each_invariant _ (Forall (filled ts))).
    + intros e st st'. apply googleHeading_filled.
    + constructor.
  - unfold parseBraveResults.
    apply (@selectorLoop_invariant (fun st => Forall (filled ts) (fst st))).
    + intros e st st'. apply braveCard_filled.
    + constructor.
  - unfold parseBingResults.
    apply (@selectorLoop_invariant (fun st => Forall (filled ts) (fst st))).
    + intros e st st'. apply bingCard_filled.
    + constructor.
  - unfold parseDuckDuckGoResults.
    apply (@each_invariant _ (Forall (filled ts))).
    + intros e st st'. apply duckDuckGoCard_filled.
    + constructor.
Qed.

(** The flag of the Google loop tells whether a result has been pushed. *)
Lemma googleCard_flag (ts : string) (maxResults : Z) (e : element)
      (st st' : list SearchResult * bool) :
  snd st = (0 <? List.length (fst st))%nat ->
  googleCard ts maxResults e st = Some st' ->
  snd st' = (0 <? List.length (fst st'))%nat.
Proof.
  intros HP. unfold googleCard. destruct (reached _ _); [discriminate |].
  destruct (googleTitleAndUrl _ _) as [t u].
  destruct (truthy t && truthy u && isValidSearchUrl u);
    intros H; injection H as <-; [| exact HP].
  cbn [fst snd]. rewrite length_app. cbn [List.length].
  symmetry. apply Nat.ltb_lt. lia.
Qed.

Lemma googleSelectorLoop_found (ts : string) (maxResults : Z) (doc : page)
      (selectors : list string) (st : list SearchResult * bool) :
  snd st = true -> googleSelectorLoop ts maxResults doc selectors st = st.
Proof. intros H. destruct selectors; cbn; [| rewrite H]; reflexivity. Qed.

Lemma googleSelectorLoop_first (ts : string) (maxResults : Z) (doc : page)
      (selectors : list string) :
  let cardsOf := fun selector =>
    fst (each (googleCard ts maxResults) (doc selector) ([], false)) in
  fst (googleSelectorLoop ts maxResults doc selectors ([], false))
  = match List.find (fun selector => (0 <? List.length (cardsOf selector))%nat)
                    selectors with
    | Some selector => cardsOf selector
    | None => []
    end.
Proof.
  cbv zeta. induction selectors as [| selector rest IH]; [reflexivity |].
  cbn [googleSelectorLoop List.find snd].
  assert (Hflag : snd (each (googleCard ts maxResults) (doc selector) ([], false))
                  = (0 <? List.length
                            (fst (each (googleCard ts maxResults) (doc selector)
                                       ([], false))))%nat).
  { apply (@each_invariant _ (fun st => snd st = (0 <? List.length (fst st))%nat)).
    - intros e st st'. apply googleCard_flag.
    - reflexivity. }
  destruct (each (googleCard ts maxResults) (doc selector) ([], false))
    as [found flag] eqn:Hst.
  cbn [fst snd] in *. destruct found as [| r rs].
  - cbn in Hflag. subst flag. cbn [List.length Nat.ltb Nat.leb]. exact IH.
  - cbn in Hflag. subst flag. cbn [List.length Nat.ltb Nat.leb].
    rewrite googleSelectorLoop_found by reflexivity.
    cbv beta. rewrite ?Hst. reflexivity.
Qed.

(** X19.  The Google parser never mixes selector families: its answer is
    the whole yield of the first result selector, in the order of the list,
    whose cards give at least one result; the pass over the [h3] headings
    runs only when no selector gives any. *)
Theorem google_first_yielding_selector_wins :
  forall (ts : string) (doc : page) (maxResults : Z),
    let cardsOf := fun selector =>
      fst (each (googleCard ts maxResults) (doc selector) ([], false)) in
    parseSearchResults ts doc maxResults
    = match List.find (fun selector => (0 <? List.length (cardsOf selector))%nat)
                      searchResultSelectors with
      | Some selector => cardsOf selector
      | None => each (googleHeading ts maxResults) (doc "h3") []
      end.
Proof.
  intros ts doc maxResults cardsOf. unfold parseSearchResults. cbv zeta.
  rewrite googleSelectorLoop_first. cbv zeta. subst cardsOf.
  destruct (List.find _ searchResultSelectors) as [selector |] eqn:Hfind; [| reflexivity].
  apply find_some in Hfind. destruct Hfind as [_ Hlen]. cbv beta in Hlen.
  destruct (fst (each (googleCard ts maxResults) (doc selector) ([], false)));
    [cbn in Hlen; discriminate | reflexivity].
Qed.

Lemma each_reached (card : element -> list SearchResult * bool ->
                           option (list SearchResult * bool))
      (maxResults : Z) (sel : list element) (st : list SearchResult * bool) :
  (forall e st, reached maxResults (fst st) = true -> card e st = None) ->
  reached maxResults (fst st) = true ->
  each card sel st = st.
Proof.
  intros Hstop Hfull. destruct sel as [| e rest]; [reflexivity |].
  cbn [each]. rewrite (Hstop e st Hfull). reflexivity.
Qed.

Lemma selectorLoop_is_fold (card : element -> list SearchResult * bool ->
                                   option (list SearchResult * bool))
      (maxResults : Z) (doc : page) :
  (forall e st, reached maxResults (fst st) = true -> card e st = None) ->
  forall selectors st,
    selectorLoop card maxResults doc selectors st
    = fold_left (fun st selector => each card (doc selector) st) selectors st.
Proof.
  intros Hstop selectors. induction selectors as [| selector rest IH]; intros st;
    [reflexivity |].
  cbn [selectorLoop fold_left].
  destruct (snd st && reached maxResults (fst st)) eqn:Hbreak.
  - apply andb_prop in Hbreak. destruct Hbreak as [_ Hfull].
    rewrite (@each_reached card maxResults (doc selector) st Hstop Hfull).
    clear IH. induction rest as [| s rest' IH']; [reflexivity |].
    cbn [fold_left].
    rewrite (@each_reached card maxResults (doc s) st Hstop Hfull). exact IH'.
  - destruct (doc selector) as [| e es]; apply IH.
Qed.

(** X20.  The Brave and the Bing parser go through every result selector of
    their list, in order, and add the cards of each to the same list: the
    [break] at the limit and the [continue] on an empty selection change
    nothing, so the answer is the plain fold of [each] over the selectors. *)
Theorem brave_and_bing_add_up_all_selectors :
  forall (ts : string) (doc : page) (maxResults : Z),
    parseBraveResults ts doc maxResults
    = fst (fold_left (fun st selector =>
                        each (braveCard ts maxResults) (doc selector) st)
                     braveResultSelectors ([], false))
    /\ parseBingResults ts doc maxResults
       = fst (fold_left (fun st selector =>
                           each (bingCard ts maxResults) (doc selector) st)
                        bingResultSelectors ([], false)).
Proof.
  intros ts doc maxResults. split.
  - unfold parseBraveResults. rewrite selectorLoop_is_fold; [reflexivity |].
    intros e st Hfull. unfold braveCard. rewrite Hfull. reflexivity.
  - unfold parseBingResults. rewrite selectorLoop_is_fold; [reflexivity |].
    intros e st Hfull. unfold bingCard. rewrite Hfull. reflexivity.
Qed.
End ParserMore.

(** ** More on the quality score *)

Module QualityMore.
Import Js SearchEngine QualityReference DoubleFacts.
Local Open Scope string_scope.
Local Open Scope Q_scope.

Lemma prefix_app_l (a b : string) :
  forall s, String.prefix (a ++ b) s = true -> String.prefix a s = true.
Proof.
  induction a as [| c a' IH]; intros s H; [destruct s; reflexivity |].
  destruct s as [| d s']; [discriminate |].
  cbn in H |- *. destruct (ascii_dec c d); [apply IH; exact H | discriminate].
Qed.

Lemma includes_app_l (a b : string) :
  forall text, includes text (a ++ b) = true -> includes text a = true.
Proof.
  induction text as [| c rest IH]; intros H.
  - cbn [includes] in H |- *. rewrite orb_false_r in H |- *.
    exact (prefix_app_l a b _ H).
  - cbn [includes] in H |- *. apply orb_true_iff in H. apply orb_true_iff.
    destruct H as [H | H]; [left; exact (prefix_app_l a b _ H) | right; exact (IH H)].
Qed.

Lemma adjacentPairs_start (terms : list string) (phrase : string) :
  In phrase (adjacentPairs terms) ->
  exists w tail, In w terms /\ phrase = w ++ tail.
Proof.
  induction terms as [| a rest IH]; [intros [] |].
  destruct rest as [| b rest']; [intros [] |].
  change (adjacentPairs (a :: b :: rest'))
    with ((a ++ " " ++ b) :: adjacentPairs (b :: rest')).
  intros [<- | Hin].
  - exists a, (" " ++ b). split; [left; reflexivity | reflexivity].
  - destruct (IH Hin) as (w & tail & Hw & ->). exists w, tail.
    split; [right; exact Hw | reflexivity].
Qed.

Lemma phrases_start (terms : list string) (phrase : string) :
  In phrase (phrases terms) ->
  exists w tail, In w terms /\ phrase = w ++ tail.
Proof.
  unfold phrases. intros Hin. apply in_app_or in Hin. destruct Hin as [Hin | Hin].
  - exact (adjacentPairs_start terms phrase Hin).
  - destruct terms as [| a [| b [| c rest]]]; cbn in Hin; try contradiction.
    destruct Hin as [<- | []].
    exists a, (" " ++ b ++ " " ++ c). split; [left; reflexivity | reflexivity].
Qed.

Lemma filter_none (A : Type) (p : A -> bool) (xs : list A) :
  (forall x, In x xs -> p x = false) -> filter p xs = [].
Proof.
  induction xs as [| x rest IH]; intros H; [reflexivity |].
  cbn [filter]. rewrite (H x (or_introl eq_refl)).
  apply IH. intros y Hy. apply H. right. exact Hy.
Qed.

Lemma filter_all (A : Type) (p : A -> bool) (xs : list A) :
  (forall x, In x xs -> p x = true) -> filter p xs = xs.
Proof.
  induction xs as [| x rest IH]; intros H; [reflexivity |].
  cbn [filter]. rewrite (H x (or_introl eq_refl)). f_equal.
  apply IH. intros y Hy. apply H. right. exact Hy.
Qed.

(** No query word in the text: no phrase either, and the score is 0. *)
Lemma scoreOfResult_no_hit (terms : list string) (r : SearchResult) :
  (forall w, In w terms -> includes (combinedTextOf r) w = false) ->
  scoreOfResult terms r == 0.
Proof.
  intros Hnone. unfold scoreOfResult. cbv zeta.
  rewrite QualityFacts.penalty_of.
  rewrite !QualityFacts.countLoop_filter, QualityFacts.queryPhrasesOf_phrases.
  rewrite (filter_none _ _ Hnone).
  rewrite (@filter_none _ (includes (combinedTextOf r)) (phrases terms)).
  - assert (Hph : ofNat (if (2 <=? List.length terms)%nat
                         then List.length (@nil string) else 0%nat) = 0)
      by (destruct (2 <=? List.length terms)%nat; reflexivity).
    rewrite Hph. change (ofNat (List.length (@nil string))) with 0.
    assert (Hratio : Double.div 0 (ofNat (List.length terms)) = Double.round 0).
    { unfold Double.div. apply round_comp. unfold Qdiv. ring. }
    rewrite Hratio.
    assert (Hsum : Double.add (Double.round 0) (Double.mul 0 (Double.literal (3 # 10))) == 0)
      by (vm_compute; reflexivity).
    pose proof (QualityFacts.addTwoTenths_nonneg
                  (List.length (filter (fun pattern => testIgnoreCase pattern (combinedTextOf r))
                                       irrelevantPatterns))) as Hpen.
    apply Q.max_l. unfold Double.sub. apply round_nonpos.
    rewrite Hsum. rewrite (Q.min_r 1 0) by discriminate. lra.
  - intros phrase Hin. destruct (phrases_start terms phrase Hin) as (w & tail & Hw & ->).
    destruct (includes (combinedTextOf r) (w ++ tail)) eqn:Hinc; [| reflexivity].
    rewrite <- (Hnone w Hw). symmetry. exact (includes_app_l w tail _ Hinc).
Qed.

(** Every query word in the text and no off-topic pattern: the score is 1. *)
Lemma scoreOfResult_full_hit (terms : list string) (r : SearchResult) :
  terms <> [] ->
  (forall w, In w terms -> includes (combinedTextOf r) w = true) ->
  (forall p, In p irrelevantPatterns -> testIgnoreCase p (combinedTextOf r) = false) ->
  scoreOfResult terms r == 1.
Proof.
  intros Hne Hall Hclean. unfold scoreOfResult. cbv zeta.
  rewrite QualityFacts.penalty_of.
  rewrite !QualityFacts.countLoop_filter.
  rewrite (filter_all _ _ Hall).
  rewrite (@filter_none _ (fun p => testIgnoreCase p (combinedTextOf r))
                        irrelevantPatterns Hclean).
  cbn [List.length Nat.iter nat_rect].
  assert (Hpos : 0 < ofNat (List.length terms)).
  { apply QualityFacts.ofNat_pos. destruct terms; [congruence | cbn; lia]. }
  assert (Hratio : Double.div (ofNat (List.length terms)) (ofNat (List.length terms))
                   = Double.round 1).
  { unfold Double.div. apply round_comp. field. lra. }
  rewrite Hratio.
  set (bonus := Double.mul _ _).
  assert (Hbonus : 0 <= bonus).
  { subst bonus. unfold Double.mul. apply round_nonneg.
    apply Qmult_le_0_compat; [| vm_compute; discriminate].
    destruct (2 <=? List.length terms)%nat; [| discriminate].
    apply QualityFacts.ofNat_nonneg. }
  assert (Hsum : 1 <= Double.add (Double.round 1) bonus).
  { unfold Double.add. apply round_ge_1. rewrite round_1. lra. }
  unfold Double.sub.
  rewrite (@round_comp (Qmin 1 (Double.add (Double.round 1) bonus) - 0) 1).
  - vm_compute. reflexivity.
  - rewrite (Q.min_l 1 _ Hsum). ring.
Qed.

(** Results that all score 0 average to 0. *)
Lemma sum_of_zeros (xs : list Q) :
  Forall (fun x => x == 0) xs ->
  forall total : Q, total == 0 -> fold_left Double.add xs total == 0.
Proof.
  induction 1 as [| x rest Hx _ IH]; intros total Ht; cbn [fold_left]; [exact Ht |].
  apply IH. unfold Double.add. rewrite (@round_comp (total + x) 0); [apply round_0 |].
  rewrite Ht, Hx. reflexivity.
Qed.

(** Results that all score 1 add up to what the counter counts. *)
Lemma sum_of_ones (xs : list Q) :
  Forall (fun x => x == 1) xs ->
  forall total count : Q,
    total == count ->
    fold_left Double.add xs total
    == Nat.iter (List.length xs) addOne count.
Proof.
  induction 1 as [| x rest Hx _ IH]; intros total count Ht;
    cbn [fold_left List.length]; [exact Ht |].
  rewrite Nat.iter_succ_r. apply IH. unfold addOne, Double.add.
  rewrite (@round_comp (total + x) (count + 1)); [reflexivity |].
  rewrite Ht, Hx. reflexivity.
Qed.

Lemma scores_all (A : Type) (f : A -> Q) (c : Q) (xs : list A) :
  Forall (fun a => f a == c) xs -> Forall (fun x => x == c) (map f xs).
Proof.
  induction 1 as [| a rest Ha _ IH]; cbn [map]; constructor; assumption.
Qed.

(** X21.  The two ends of the scale.  When no result mentions any query
    word in its title, description or URL, the set scores 0: a phrase cannot
    match where its first word does not.  When every result mentions every
    query word and no off-topic pattern, the set scores 1, whatever the
    phrases do. *)
Theorem assessResultQuality_extremes :
  forall (found : list SearchResult) (query : string),
    found <> [] ->
    queryWordsOf query <> [] ->
    (Forall (fun r => forall w, In w (queryWordsOf query) ->
                        includes (combinedTextOf r) w = false) found ->
       assessResultQuality found query == 0)
    /\ (Forall (fun r =>
                  (forall w, In w (queryWordsOf query) ->
                     includes (combinedTextOf r) w = true)
                  /\ (forall p, In p irrelevantPatterns ->
                        testIgnoreCase p (combinedTextOf r) = false)) found ->
          assessResultQuality found query == 1).
Proof.
  intros found query Hfound Hterms.
  pose proof (@QualityFacts.counter_positive (List.length found)
                ltac:(destruct found; [congruence | cbn; lia])) as Hpos.
  split; intros Hall; rewrite (@QualityFacts.assess_some found query Hfound Hterms); unfold Double.div.
  - assert (Hzeros : Forall (fun x => x == 0)
                             (map (scoreOfResult (queryWordsOf query)) found)).
    { apply scores_all. eapply Forall_impl; [| exact Hall]. intros r Hr. cbv beta in Hr.
      apply scoreOfResult_no_hit. exact Hr. }
    pose proof (@sum_of_zeros _ Hzeros 0 ltac:(reflexivity)) as Hsum.
    assert (Hq : fold_left Double.add (map (scoreOfResult (queryWordsOf query)) found) 0
                 / Nat.iter (List.length found) addOne 0 == 0).
    { rewrite Hsum. unfold Qdiv. ring. }
    rewrite (round_comp Hq). apply round_0.
  - assert (Hones : Forall (fun x => x == 1)
                            (map (scoreOfResult (queryWordsOf query)) found)).
    { apply scores_all. eapply Forall_impl; [| exact Hall]. intros r [Hwords Hclean].
      apply scoreOfResult_full_hit; assumption. }
    pose proof (@sum_of_ones _ Hones 0 0 ltac:(reflexivity)) as Hsum.
    rewrite length_map in Hsum.
    assert (Hq : fold_left Double.add (map (scoreOfResult (queryWordsOf query)) found) 0
                 / Nat.iter (List.length found) addOne 0 == 1).
    { rewrite Hsum. field. lra. }
    rewrite (round_comp Hq). apply round_1.
Qed.

Lemma assessResultQuality_extremes_witness :
  assessResultQuality [Scenarios.gardenResult] "rust language" == 0
  /\ assessResultQuality [Scenarios.parisResult] "capital of France" == 1.
Proof.
  split.
  - apply (@assessResultQuality_extremes [Scenarios.gardenResult] "rust language");
      [discriminate | vm_compute; discriminate |].
    constructor; [| constructor]. intros w Hw. vm_compute in Hw.
    destruct Hw as [<- | [<- | []]]; vm_compute; reflexivity.
  - apply (@assessResultQuality_extremes [Scenarios.parisResult] "capital of France");
      [discriminate | vm_compute; discriminate |].
    constructor; [| constructor]. split.
    + intros w Hw. vm_compute in Hw.
      destruct Hw as [<- | [<- | []]]; vm_compute; reflexivity.
    + intros p Hp. unfold irrelevantPatterns in Hp.
      repeat (destruct Hp as [<- | Hp]; [vm_compute; reflexivity |]). destruct Hp.
Defined.
End QualityMore.

(** ** The quality score against the exactly computed formula *)

Module QualityBounds.
Import Js SearchEngine QualityReference Double DoubleFacts.
Local Open Scope Q_scope.

Lemma nearestEven_near (x : Q) :
  - (1 # 2) <= inject_Z (nearestEven x) - x <= 1 # 2.
Proof.
  unfold nearestEven. cbv zeta.
  pose proof (Qfloor_le x) as Hlo. pose proof (Qlt_floor x) as Hhi.
  rewrite inject_Z_plus in Hhi. change (inject_Z 1) with 1 in Hhi.
  destruct (Qcompare_spec (x - inject_Z (Qfloor x)) (1 # 2)) as [He | Hl | Hg];
    [destruct (Z.even (Qfloor x)) | |];
    rewrite ?inject_Z_plus; change (inject_Z 1) with 1; split; lra.
Qed.

Lemma pow2_half (e : Z) : pow2 (e - 1) == pow2 e * (1 # 2).
Proof.
  replace (e - 1)%Z with (e + -1)%Z by lia. rewrite pow2_add. reflexivity.
Qed.

(** Rounding moves a number by at most half a unit in the last place. *)
Lemma round_error (x : Q) (k : Z) :
  (-1021 <= k)%Z -> - pow2 k <= x <= pow2 k ->
  - pow2 (k - 53) <= round x - x <= pow2 (k - 53).
Proof.
  intros Hk Hx.
  destruct (Qeq_dec x 0) as [Hzero | Hnz].
  { rewrite (round_comp Hzero), round_0, Hzero.
    pose proof (pow2_pos (k - 53)). split; lra. }
  unfold round. cbv zeta.
  assert (Hred : Qred x == x) by apply Qred_correct.
  set (y := Qred x) in *.
  set (U := pow2 (ulpExponent y)).
  assert (HU : 0 < U) by apply pow2_pos.
  pose proof (nearestEven_near (y / U)) as Hn.
  assert (Hsmall : Qabs y <= pow2 k).
  { apply Qabs_Qle_condition. rewrite Hred. exact Hx. }
  assert (Habs : 0 < Qabs y).
  { destruct (Qlt_le_dec 0 (Qabs y)) as [H | H]; [exact H |].
    exfalso. apply Hnz. rewrite <- Hred.
    apply Qabs_Qle_condition in H. lra. }
  assert (Hb : (binade (Qabs y) <= k)%Z).
  { destruct (binade_spec Habs) as [Hlo _].
    destruct (Z_le_gt_dec (binade (Qabs y)) k) as [H | H]; [exact H |].
    exfalso. pose proof (@pow2_lt k (binade (Qabs y)) ltac:(lia)). lra. }
  assert (Hu : U <= pow2 (k - 52)).
  { subst U. apply pow2_le. unfold ulpExponent. lia. }
  assert (Hhalf : pow2 (k - 53) == pow2 (k - 52) * (1 # 2)).
  { replace (k - 53)%Z with (k - 52 - 1)%Z by lia. apply pow2_half. }
  assert (Hy : y == y / U * U) by (field; lra).
  rewrite Hhalf, <- Hred.
  set (n := inject_Z (nearestEven (y / U))) in *.
  set (q := y / U) in *.
  assert (Hdiff : n * U - y == (n - q) * U) by (rewrite Hy at 1; ring).
  rewrite Hdiff. split; nra.
Qed.

Lemma ofNat_ratio (k n : nat) :
  (0 < n)%nat -> (k <= n)%nat -> 0 <= ofNat k / ofNat n <= 1.
Proof.
  intros Hn Hk. pose proof (QualityFacts.ofNat_pos Hn) as Hpos.
  pose proof (QualityFacts.ofNat_nonneg k) as H0.
  pose proof (QualityFacts.ofNat_le Hk) as H1.
  split; [apply Qle_shift_div_l | apply Qle_shift_div_r]; lra.
Qed.

Lemma Qmin_cases (x : Q) : (x <= 1 /\ Qmin 1 x == x) \/ (1 <= x /\ Qmin 1 x == 1).
Proof.
  destruct (Qlt_le_dec x 1) as [H | H].
  - left. split; [lra | apply Q.min_r; lra].
  - right. split; [exact H | apply Q.min_l; exact H].
Qed.

Lemma Qmax_cases (x : Q) : (x <= 0 /\ Qmax 0 x == 0) \/ (0 <= x /\ Qmax 0 x == x).
Proof.
  destruct (Qlt_le_dec x 0) as [H | H].
  - left. split; [lra | apply Q.max_l; lra].
  - right. split; [exact H | apply Q.max_r; exact H].
Qed.

(** The score before the penalty: the rounded one is within [2^-51] of the
    exact one. *)
Lemma capped_near (k n p : nat) :
  (0 < n)%nat -> (k <= n)%nat ->
  let exact := Qmin 1 (ofNat k / ofNat n + (3 # 10) * ofNat p) in
  let rounded := Qmin 1 (Double.add (Double.div (ofNat k) (ofNat n))
                                     (Double.mul (Double.literal (3 # 10)) (ofNat p))) in
  0 <= rounded <= 1 /\ - pow2 (-51) <= rounded - exact <= pow2 (-51).
Proof.
  intros Hn Hk exact rounded.
  destruct (ofNat_ratio Hn Hk) as [Hr0 Hr1].
  assert (H53 : pow2 (0 - 53) == 1 # 9007199254740992) by (vm_compute; reflexivity).
  assert (H52 : pow2 (1 - 53) == 1 # 4503599627370496) by (vm_compute; reflexivity).
  assert (H51 : pow2 (-51) == 1 # 2251799813685248) by (vm_compute; reflexivity).
  assert (H1 : pow2 0 == 1) by reflexivity.
  assert (H2 : pow2 1 == 2) by reflexivity.
  pose proof (@round_error (ofNat k / ofNat n) 0 ltac:(lia) ltac:(rewrite H1; split; lra))
    as Hratio.
  rewrite H53 in Hratio.
  pose proof (@round_nonneg (ofNat k / ofNat n) Hr0) as Hq0.
  pose proof (@round_le_1 (ofNat k / ofNat n) Hr1) as Hq1.
  subst exact rounded. unfold Double.add, Double.div, Double.mul.
  set (ratio := ofNat k / ofNat n) in *.
  set (q := round ratio) in *.
  set (bonus := round (Double.literal (3 # 10) * ofNat p)).
  destruct (le_lt_dec 4 p) as [Hmany | Hfew].
  - (* four phrases or more: both are capped *)
    assert (Hp : 4 <= ofNat p).
    { change 4 with (ofNat 4). apply QualityFacts.ofNat_le. exact Hmany. }
    assert (Hl : 29 # 100 <= Double.literal (3 # 10)) by (vm_compute; discriminate).
    assert (Hb : 1 <= bonus) by (subst bonus; apply round_ge_1; nra).
    assert (Hs : 1 <= round (q + bonus)) by (apply round_ge_1; lra).
    rewrite (Q.min_l 1 _ Hs).
    rewrite (Q.min_l 1 (ratio + (3 # 10) * ofNat p)) by nra.
    rewrite H51. split; split; lra.
  - (* up to three phrases *)
    assert (Hb : 0 <= bonus <= 1
                 /\ - (1 # 9007199254740992) <= bonus - (3 # 10) * ofNat p
                    <= 1 # 9007199254740992).
    { subst bonus.
      destruct p as [| [| [| [| p]]]]; [| | | | lia];
        split; split; vm_compute; discriminate. }
    destruct Hb as [[Hb0 Hb1] [Hb2 Hb3]].
    pose proof (@round_error (q + bonus) 1 ltac:(lia) ltac:(rewrite H2; split; lra)) as Hsum.
    rewrite H52 in Hsum.
    pose proof (@round_nonneg (q + bonus) ltac:(lra)) as Hs0.
    set (s := round (q + bonus)) in *.
    set (e := ratio + (3 # 10) * ofNat p) in *.
    rewrite H51.
    destruct (Qmin_cases s) as [[Hs Hms] | [Hs Hms]];
      destruct (Qmin_cases e) as [[He Hme] | [He Hme]];
      rewrite Hms, Hme; subst e; split; split; lra.
Qed.

(** One result: the rounded score is within [2^-50] of the exact one. *)
Lemma formula_near (k n p m : nat) :
  (0 < n)%nat -> (k <= n)%nat ->
  let exact :=
    Qmax 0 (Qmin 1 (ofNat k / ofNat n + (3 # 10) * ofNat p) - (2 # 10) * ofNat m) in
  let rounded :=
    Qmax 0 (Double.sub
              (Qmin 1 (Double.add (Double.div (ofNat k) (ofNat n))
                                  (Double.mul (Double.literal (3 # 10)) (ofNat p))))
              (Double.mul (Double.literal (2 # 10)) (ofNat m))) in
  - pow2 (-50) <= rounded - exact <= pow2 (-50).
Proof.
  intros Hn Hk exact rounded.
  destruct (capped_near p Hn Hk) as [[Ha0 Ha1] [Ha2 Ha3]]. cbv zeta in Ha0, Ha1, Ha2, Ha3.
  assert (He1 : Qmin 1 (ofNat k / ofNat n + (3 # 10) * ofNat p) <= 1) by apply Q.le_min_l.
  subst exact rounded.
  set (a := Qmin 1 (Double.add _ _)) in *.
  set (e := Qmin 1 (ofNat k / ofNat n + (3 # 10) * ofNat p)) in *.
  assert (H53 : pow2 (0 - 53) == 1 # 9007199254740992) by (vm_compute; reflexivity).
  assert (H51 : pow2 (-51) == 1 # 2251799813685248) by (vm_compute; reflexivity).
  assert (H50 : pow2 (-50) == 1 # 1125899906842624) by (vm_compute; reflexivity).
  assert (H1 : pow2 0 == 1) by reflexivity.
  rewrite H51 in Ha2, Ha3. rewrite H50.
  destruct (le_lt_dec 5 m) as [Hmany | Hfew].
  - (* five patterns or more: nothing is left of either *)
    pose proof (QualityFacts.timesTwoTenths_many Hmany) as Hpen.
    assert (Hm : 5 <= ofNat m).
    { change 5 with (ofNat 5). apply QualityFacts.ofNat_le. exact Hmany. }
    rewrite (Q.max_l 0 (Double.sub a _)) by (unfold Double.sub; apply round_nonpos; lra).
    rewrite (Q.max_l 0 (e - _)) by nra.
    split; lra.
  - (* up to four patterns *)
    set (pen := Double.mul (Double.literal (2 # 10)) (ofNat m)).
    assert (Hp : 0 <= pen <= 1
                 /\ - (1 # 4503599627370496) <= pen - (2 # 10) * ofNat m
                    <= 1 # 4503599627370496).
    { subst pen.
      destruct m as [| [| [| [| [| m]]]]]; [| | | | | lia];
        split; split; vm_compute; discriminate. }
    destruct Hp as [[Hp0 Hp1] [Hp2 Hp3]].
    unfold Double.sub.
    pose proof (@round_error (a - pen) 0 ltac:(lia) ltac:(rewrite H1; split; lra)) as Hd.
    rewrite H53 in Hd.
    set (d := round (a - pen)) in *.
    set (x := e - (2 # 10) * ofNat m) in *.
    destruct (Qmax_cases d) as [[Hd0 Hmd] | [Hd0 Hmd]];
      destruct (Qmax_cases x) as [[Hx0 Hmx] | [Hx0 Hmx]];
      rewrite Hmd, Hmx; subst x; split; lra.
Qed.

Lemma matched_le (text : string) (xs : list string) :
  (matched text xs <= List.length xs)%nat.
Proof. unfold matched. apply filter_length_le. Qed.

Lemma resultScore_near (terms : list string) (r : SearchResult) :
  terms <> [] ->
  - pow2 (-50) <= scoreOfResult terms r - resultScore terms r <= pow2 (-50).
Proof.
  intros Hne. rewrite QualityFacts.scoreOfResult_reference.
  unfold resultScoreRounded, resultScore, hitRatioRounded, phraseBonusRounded,
    penaltyRounded, hitRatio, phraseBonus, penalty.
  cbv zeta. apply formula_near.
  - destruct terms; [congruence | cbn; lia].
  - apply matched_le.
Qed.

(** The running total of rounded additions against the exact sum. *)
Lemma sum_near (K : Z) (d : Q) (xs ys : list Q) :
  (0 <= K <= 53)%Z ->
  Forall2 (fun x y => 0 <= x <= 1 /\ - d <= x - y <= d) xs ys ->
  forall (T E err : Q) (t : nat),
    0 <= T <= ofNat t ->
    (Z.of_nat (t + List.length xs) <= 2 ^ K)%Z ->
    - err <= T - E <= err ->
    let bound := err + ofNat (List.length xs) * (pow2 (K - 53) + d) in
    - bound <= fold_left Double.add xs T - (E + sum ys) <= bound.
Proof.
  intros HK Hall.
  induction Hall as [| x y xs' ys' [[Hx0 Hx1] [Hd0 Hd1]] _ IH];
    intros T E err t [HT0 HT1] Hlen [He0 He1]; cbn [fold_left sum List.length].
  - cbv zeta. change (ofNat 0) with 0. split; lra.
  - cbn [List.length] in Hlen.
    assert (Hst : ofNat (S t) <= pow2 K).
    { rewrite (pow2_int (e := K)) by lia. unfold ofNat. rewrite <- Zle_Qle. lia. }
    pose proof (QualityFacts.ofNat_S t) as HS.
    pose proof (@round_error (T + x) K ltac:(lia) ltac:(split; lra)) as Hr.
    assert (Hup : Double.add T x <= ofNat (S t)).
    { unfold Double.add.
      apply Qle_trans with (round (ofNat (S t))).
      - apply round_le; lra.
      - unfold ofNat. rewrite round_int; [apply Qle_refl |].
        assert (2 ^ K <= 2 ^ 53)%Z by (apply Z.pow_le_mono_r; lia). lia. }
    assert (Hlow : 0 <= Double.add T x) by (unfold Double.add; apply round_nonneg; lra).
    specialize (IH (Double.add T x) (E + y) (err + pow2 (K - 53) + d) (S t)
                   (conj Hlow Hup)
                   ltac:(lia)
                   ltac:(unfold Double.add; split; lra)).
    cbv zeta in IH |- *.
    pose proof (QualityFacts.ofNat_S (List.length xs')) as HSn.
    set (u := pow2 (K - 53)) in *.
    set (n := ofNat (List.length xs')) in *.
    set (F := fold_left Double.add xs' (Double.add T x)) in *.
    rewrite HSn. destruct IH as [IH0 IH1]. split; nra.
Qed.

Lemma scores_near (terms : list string) (found : list SearchResult) :
  terms <> [] ->
  Forall2 (fun x y => 0 <= x <= 1 /\ - pow2 (-50) <= x - y <= pow2 (-50))
          (map (scoreOfResult terms) found) (map (resultScore terms) found).
Proof.
  intros Hne. induction found as [| r rest IH]; cbn [map]; constructor; [| exact IH].
  split; [apply QualityFacts.scoreOfResult_range | apply resultScore_near; exact Hne].
Qed.

(** X29.  The score that the code returns is the exactly computed formula
    up to rounding: for a set of at most [2^K] results they differ by at
    most [2^(K-53) + 2^-49]. *)
Theorem assessResultQuality_near_formula :
  forall (found : list SearchResult) (query : string) (K : Z),
    (0 <= K <= 53)%Z ->
    (Z.of_nat (List.length found) <= 2 ^ K)%Z ->
    Qabs (assessResultQuality found query - score found query)
    <= pow2 (K - 53) + pow2 (-49).
Proof.
  intros found query K HK Hlen.
  pose proof (pow2_pos (K - 53)) as Hu. pose proof (pow2_pos (-49)) as Hv.
  apply Qabs_Qle_condition.
  destruct found as [| r rs].
  { unfold assessResultQuality, score. split; lra. }
  destruct (queryWordsOf query) as [| t ts] eqn:Hq.
  { unfold assessResultQuality, score. cbv zeta. rewrite Hq. split; lra. }
  rewrite QualityFacts.assess_some by (rewrite ?Hq; discriminate).
  unfold score. cbv zeta. rewrite Hq. unfold mean. rewrite length_map.
  set (found := r :: rs) in *. set (terms := t :: ts) in *.
  set (N := List.length found) in *.
  assert (HN : (0 < N)%nat) by (subst N found; cbn; lia).
  assert (H53 : (Z.of_nat N <= 2 ^ 53)%Z).
  { assert (2 ^ K <= 2 ^ 53)%Z by (apply Z.pow_le_mono_r; lia). lia. }
  pose proof (@QualityFacts.counter_exact N H53) as Hcount.
  pose proof (@QualityFacts.ofNat_pos N HN) as Hpos.
  destruct (@QualityFacts.total_below_counter _ (QualityFacts.scores_range terms found) 0 0
              ltac:(split; discriminate)) as [Hs0 Hs1].
  rewrite length_map in Hs1. fold N in Hs1. rewrite Hcount in Hs1.
  pose proof (@sum_near K (pow2 (-50)) _ _ HK
                (@scores_near terms found ltac:(subst terms; discriminate))
                0 0 0 0%nat ltac:(split; discriminate)
                ltac:(rewrite length_map; exact Hlen)
                ltac:(split; discriminate)) as Hsum.
  cbv zeta in Hsum. rewrite length_map in Hsum. fold N in Hsum.
  set (S := fold_left Double.add (map (scoreOfResult terms) found) 0) in *.
  set (E := sum (map (resultScore terms) found)) in *.
  unfold Double.div.
  rewrite (@round_comp (S / Nat.iter N addOne 0) (S / ofNat N))
    by (rewrite Hcount; reflexivity).
  assert (Hq01 : 0 <= S / ofNat N <= 1).
  { split; [apply Qle_shift_div_l | apply Qle_shift_div_r]; lra. }
  assert (H1 : pow2 0 == 1) by reflexivity.
  pose proof (@round_error (S / ofNat N) 0 ltac:(lia) ltac:(rewrite H1; split; lra)) as Hr.
  assert (Hd : - (pow2 (K - 53) + pow2 (-50)) <= S / ofNat N - E / ofNat N
               <= pow2 (K - 53) + pow2 (-50)).
  { assert (Heq : S / ofNat N - E / ofNat N == (S - (0 + E)) / ofNat N) by (field; lra).
    rewrite Heq. split; [apply Qle_shift_div_l | apply Qle_shift_div_r]; lra. }
  assert (H49 : pow2 (-49) == 1 # 562949953421312) by (vm_compute; reflexivity).
  assert (H50 : pow2 (-50) == 1 # 1125899906842624) by (vm_compute; reflexivity).
  assert (H053 : pow2 (0 - 53) == 1 # 9007199254740992) by (vm_compute; reflexivity).
  rewrite H053 in Hr. rewrite H50 in Hd. rewrite H49.
  split; lra.
Qed.

Lemma assessResultQuality_near_formula_witness :
  Qabs (assessResultQuality [Scenarios.spellingResult] Scenarios.spellingQuery
        - score [Scenarios.spellingResult] Scenarios.spellingQuery)
  <= pow2 (0 - 53) + pow2 (-49).
Proof.
  apply (@assessResultQuality_near_formula [Scenarios.spellingResult]
           Scenarios.spellingQuery 0); [lia | vm_compute; discriminate].
Defined.
End QualityBounds.

(** ** More on the orchestrator *)

Module SearchMore.
Import Js SearchEngine Shapes.
Local Open Scope string_scope.
Local Open Scope bool_scope.

Lemma onResults_return (cfg : config) (query : string) (i n : nat) (engineName : string)
      (found : list SearchResult) (b : best) (r : SearchResultWithMetadata) :
  onResults cfg query i n engineName found b = Return r ->
  r = mkMeta found engineName \/ r = mkMeta (bestResults b) (bestEngine b).
Proof.
  unfold onResults. cbv zeta.
  destruct (ge _ (8 # 10) && negb (forceMultiEngine cfg));
    [intros H; injection H as <-; left; reflexivity |].
  destruct (ge _ (qualityThreshold cfg) && negb (engineName =? "Browser Bing")
            && negb (forceMultiEngine cfg));
    [intros H; injection H as <-; left; reflexivity |].
  destruct (i =? n - 1)%nat; [| discriminate].
  destruct (gt _ (bestQuality b)); cbn [bestQuality bestResults bestEngine];
    repeat match goal with
           | |- context [if ?c then _ else _] => destruct c
           end;
    intros H; try discriminate; injection H as <-; auto.
Qed.

Lemma onResults_continue (cfg : config) (query : string) (i n : nat) (engineName : string)
      (found : list SearchResult) (b b1 : best) :
  onResults cfg query i n engineName found b = Continue b1 ->
  b1 = b \/ (bestResults b1 = found /\ bestEngine b1 = engineName).
Proof.
  unfold onResults. cbv zeta.
  destruct (ge _ (8 # 10) && negb (forceMultiEngine cfg)); [discriminate |].
  destruct (ge _ (qualityThreshold cfg) && negb (engineName =? "Browser Bing")
            && negb (forceMultiEngine cfg)); [discriminate |].
  destruct (gt _ (bestQuality b)); cbn [bestQuality bestResults bestEngine];
    repeat match goal with
           | |- context [if ?c then _ else _] => destruct c
           end;
    intros H; try discriminate; injection H as <-; auto.
Qed.

Lemma attemptLoop_fromOneOf (cfg : config) (query : string) (n : nat)
      (all : list approach) :
  forall (approaches : list approach) (i : nat) (b : best) (st : state),
    (forall a, In a approaches -> In a all) ->
    fromOneOf all (bestResults b) (bestEngine b) ->
    let r := fst (attemptLoop cfg query n i approaches b st) in
    fromOneOf all (results r) (engine r).
Proof.
  induction approaches as [| a rest IH]; intros i b st Hsub Hb; cbv zeta.
  - left. split; reflexivity.
  - cbn [attemptLoop].
    assert (Hrest : forall x, In x rest -> In x all)
      by (intros x Hx; apply Hsub; right; exact Hx).
    destruct (method a) as [found | message] eqn:Hm.
    + destruct found as [| r0 rs]; cbn [List.length Nat.ltb Nat.leb].
      * apply IH; assumption.
      * assert (Hmine : fromOneOf all (r0 :: rs) (name a)).
        { right. exists a. split; [apply Hsub; left; reflexivity |].
          split; [exact Hm | split; [reflexivity | discriminate]]. }
        destruct (onResults cfg query i n (name a) (r0 :: rs) b) as [r | b1] eqn:Hon.
        -- cbn [fst]. destruct (onResults_return _ _ _ _ _ _ _ Hon) as [-> | ->];
             cbn [results engine]; assumption.
        -- apply IH; [exact Hrest |].
           destruct (onResults_continue _ _ _ _ _ _ _ Hon) as [-> | [-> ->]]; assumption.
    + apply IH; assumption.
Qed.

(** X22.  A search never merges or relabels: what it returns is the empty
    set under the engine name [None], or the complete non-empty set that one
    of the three approaches resolved with, under the name of that very
    approach. *)
Theorem search_returns_one_engines_set :
  forall (cfg : config) (now : Z) (query : string) (bing brave duckDuckGo : attempt)
         (e : engineState) (r : SearchResultWithMetadata),
    fst (search cfg now query bing brave duckDuckGo e) = Found r ->
    fromOneOf (approachesOf bing brave duckDuckGo) (results r) (engine r).
Proof.
  intros cfg now query bing brave duckDuckGo e r. unfold search, RateLimiter.execute.
  destruct (RateLimiter.check now (rateLimiter e)) as [rl | w rl]; [| discriminate].
  cbv zeta.
  pose proof (@attemptLoop_fromOneOf cfg (sanitizeQuery query)
                (List.length (approachesOf bing brave duckDuckGo))
                (approachesOf bing brave duckDuckGo)
                (approachesOf bing brave duckDuckGo) 0 noBest (inner e)
                (fun a H => H)
                (or_introl (conj eq_refl eq_refl))) as Hloop.
  cbv zeta in Hloop.
  destruct (attemptLoop _ _ _ _ _ _ _) as [r' st']. cbn [fst] in *.
  intros H. injection H as <-. exact Hloop.
Qed.

Lemma search_returns_one_engines_set_witness :
  fromOneOf (approachesOf (Resolves []) (Resolves [Scenarios.parisResult]) (Resolves []))
            [Scenarios.parisResult] "Browser Brave".
Proof.
  apply (@search_returns_one_engines_set defaultConfig 0 "capital of France"
           (Resolves []) (Resolves [Scenarios.parisResult]) (Resolves [])
           Scenarios.freshEngine
           (mkMeta [Scenarios.parisResult] "Browser Brave")).
  vm_compute. reflexivity.
Defined.

Lemma attemptLoop_unchecked (cfg : config) (query : string) (n : nat) :
  enableQualityCheck cfg = false ->
  forceMultiEngine cfg = false ->
  forall (approaches : list approach) (i : nat) (b : best) (st : state),
    fst (attemptLoop cfg query n i approaches b st)
    = match List.find yields approaches with
      | Some a => mkMeta (foundBy a) (name a)
      | None => mkMeta [] "None"
      end.
Proof.
  intros Hcheck Hforce.
  induction approaches as [| a rest IH]; intros i b st; [reflexivity |].
  cbn [attemptLoop List.find]. unfold yields at 1.
  destruct (method a) as [found | message] eqn:Hm.
  - destruct found as [| r0 rs]; cbn [List.length Nat.ltb Nat.leb]; [apply IH |].
    unfold onResults. cbv zeta. rewrite Hcheck, Hforce.
    change (ge 1 (8 # 10) && negb false) with true. cbv iota. cbn [fst].
    unfold foundBy. rewrite Hm. reflexivity.
  - apply IH.
Qed.

(** X23.  With the quality check switched off and no forced multi-engine
    run, the search is first come, first served: it returns the set of the
    first approach, in the order Bing, Brave, DuckDuckGo, that resolves with
    at least one result, and the empty set under [None] when none does. *)
Theorem unchecked_search_takes_first_yield :
  forall (cfg : config) (now : Z) (query : string) (bing brave duckDuckGo : attempt)
         (e : engineState) (r : SearchResultWithMetadata),
    enableQualityCheck cfg = false ->
    forceMultiEngine cfg = false ->
    fst (search cfg now query bing brave duckDuckGo e) = Found r ->
    r = match List.find yields (approachesOf bing brave duckDuckGo) with
        | Some a => mkMeta (foundBy a) (name a)
        | None => mkMeta [] "None"
        end.
Proof.
  intros cfg now query bing brave duckDuckGo e r Hcheck Hforce.
  unfold search, RateLimiter.execute.
  destruct (RateLimiter.check now (rateLimiter e)) as [rl | w rl]; [| discriminate].
  cbv zeta.
  pose proof (@attemptLoop_unchecked cfg (sanitizeQuery query)
                (List.length (approachesOf bing brave duckDuckGo)) Hcheck Hforce
                (approachesOf bing brave duckDuckGo) 0 noBest (inner e)) as Hloop.
  destruct (attemptLoop _ _ _ _ _ _ _) as [r' st']. cbn [fst] in *.
  intros H. injection H as <-. exact Hloop.
Qed.

Lemma unchecked_search_takes_first_yield_witness :
  mkMeta [Scenarios.gardenResult] "Browser Brave"
  = match List.find yields
            (approachesOf (Rejects "Timeout 4000ms exceeded")
                          (Resolves [Scenarios.gardenResult])
                          (Resolves [Scenarios.rustResult])) with
    | Some a => mkMeta (foundBy a) (name a)
    | None => mkMeta [] "None"
    end.
Proof.
  apply (@unchecked_search_takes_first_yield (mkConfig false (Double.literal (3 # 10)) false) 0
           "rust language" (Rejects "Timeout 4000ms exceeded")
           (Resolves [Scenarios.gardenResult]) (Resolves [Scenarios.rustResult])
           Scenarios.freshEngine);
    vm_compute; reflexivity.
Defined.

Lemma attempted_app (xs ys : list logLine) :
  attempted (xs ++ ys) = (attempted xs ++ attempted ys)%list.
Proof. unfold attempted. apply flat_map_app. Qed.

Lemma attempted_handleBrowserError (message engineName : string) (st : state) :
  attempted (log (handleBrowserError message engineName st)) = attempted (log st).
Proof.
  unfold handleBrowserError. destruct (sessionClosed message); [| reflexivity].
  cbn [log]. rewrite attempted_app. cbn. apply app_nil_r.
Qed.

Lemma onResults_forced (cfg : config) (query : string) (i n : nat) (engineName : string)
      (found : list SearchResult) (b : best) :
  forceMultiEngine cfg = true ->
  (i =? n - 1)%nat = false ->
  exists b1, onResults cfg query i n engineName found b = Continue b1.
Proof.
  intros Hforce Hi. unfold onResults. cbv zeta. rewrite Hforce, Hi.
  rewrite !andb_false_r. eexists. reflexivity.
Qed.

Lemma attemptLoop_order (cfg : config) (query : string) (n : nat) :
  forall (approaches : list approach) (i : nat) (b : best) (st : state),
    (i + List.length approaches)%nat = n ->
    exists k,
      (k <= List.length approaches)%nat
      /\ (approaches <> [] -> (1 <= k)%nat)
      /\ attempted (log (snd (attemptLoop cfg query n i approaches b st)))
         = (attempted (log st) ++ map name (firstn k approaches))%list
      /\ (forceMultiEngine cfg = true -> k = List.length approaches).
Proof.
  induction approaches as [| a rest IH]; intros i b st Hn.
  - exists 0%nat. cbn [attemptLoop snd say log]. rewrite attempted_app. cbn.
    repeat split; auto. congruence.
  - cbn [attemptLoop].
    assert (Hnext : (S i + List.length rest)%nat = n) by (cbn in Hn; lia).
    assert (Hgo : forall b' st',
               attempted (log st') = (attempted (log st) ++ [name a])%list ->
               exists k,
                 (k <= List.length (a :: rest))%nat
                 /\ (a :: rest <> [] -> (1 <= k)%nat)
                 /\ attempted (log (snd (attemptLoop cfg query n (S i) rest b' st')))
                    = (attempted (log st) ++ map name (firstn k (a :: rest)))%list
                 /\ (forceMultiEngine cfg = true -> k = List.length (a :: rest))).
    { intros b' st' Hst'. destruct (IH (S i) b' st' Hnext) as (k & Hk & _ & Hlog & Hall).
      exists (S k). cbn [List.length firstn map]. split; [lia |]. split; [lia |].
      split; [| intros Hf; rewrite (Hall Hf); reflexivity].
      rewrite Hlog, Hst', <- app_assoc. reflexivity. }
    assert (Hsaid : attempted (log (say (Attempting (name a)) st))
                    = (attempted (log st) ++ [name a])%list).
    { cbn [say log]. rewrite attempted_app. reflexivity. }
    destruct (method a) as [found | message].
    + destruct found as [| r0 rs]; cbn [List.length Nat.ltb Nat.leb];
        [apply Hgo; exact Hsaid |].
      destruct (onResults cfg query i n (name a) (r0 :: rs) b) as [r | b1] eqn:Hon;
        [| apply Hgo; exact Hsaid].
      exists 1%nat. cbn [snd firstn map List.length]. split; [lia |]. split; [lia |].
      split; [exact Hsaid |].
      intros Hforce. destruct rest as [| a' rest']; [reflexivity |].
      assert (Hi : (i =? n - 1)%nat = false)
        by (apply Nat.eqb_neq; cbn [List.length] in Hn; lia).
      destruct (@onResults_forced cfg query i n (name a) (r0 :: rs) b Hforce Hi)
        as [b1 Hb1].
      congruence.
    + apply Hgo. rewrite attempted_handleBrowserError. cbn [say log].
      rewrite !attempted_app. cbn. rewrite app_nil_r. reflexivity.
Qed.

(** X24.  The engines are attempted in the order of the list, each at most
    once and without gaps: the console shows a leading part of Bing, Brave,
    DuckDuckGo, and at least Bing.  With the multi-engine override set, all
    three are attempted whatever the quality of the earlier sets. *)
Theorem engines_attempted_in_order :
  forall (cfg : config) (query : string) (bing brave duckDuckGo : attempt)
         (b : best) (st : state),
    let approaches := approachesOf bing brave duckDuckGo in
    let after := snd (attemptLoop cfg query (List.length approaches) 0 approaches b st) in
    exists k,
      (1 <= k <= 3)%nat
      /\ attempted (log after)
         = (attempted (log st) ++ map name (firstn k approaches))%list
      /\ (forceMultiEngine cfg = true -> k = 3%nat).
Proof.
  intros cfg query bing brave duckDuckGo b st approaches after.
  destruct (@attemptLoop_order cfg query (List.length approaches) approaches 0 b st
              eq_refl) as (k & Hk & H1 & Hlog & Hall).
  exists k. split; [| split; [exact Hlog | exact Hall]].
  split; [apply H1; discriminate | exact Hk].
Qed.
End SearchMore.

(** ** The engine methods *)

Module EngineMethodsFacts.
Import Js Cheerio SearchEngine EngineMethods Shapes.
Local Open Scope string_scope.
Local Open Scope bool_scope.

(** What two passes come to, whatever the message after the loop. *)
Lemma retryLoop_two (giveUp : string) (first second : pass) :
  let out := retryLoop giveUp 1 [first; second] [] in
  fst out = match passOutcome first with
            | inl found => Resolves found
            | inr _ =>
                match passOutcome second with
                | inl found => Resolves found
                | inr message => Rejects message
                end
            end
  /\ closesOf (snd out) = launchesOf (snd out)
  /\ (List.length (launchesOf (snd out)) <= 2)%nat
  /\ (forall found, passOutcome first = inl found ->
        exists browser, launched first = inl browser
                        /\ snd out = [Launch browser; Close browser]).
Proof.
  destruct first as [[b1 | m1] [f1 | e1]], second as [[b2 | m2] [f2 | e2]];
    cbn; repeat split; try lia; intros found H; try discriminate;
    eexists; split; reflexivity.
Qed.

(** X25.  The retry wrappers of the Bing and the Brave search never leak a
    browser: every dedicated browser that was launched is closed, once and
    in the order of the launches, whether the pass returned, threw or was
    retried, and there are at most two launches.  The outcome is that of
    the first pass when it succeeds (one launch, no retry), otherwise that
    of the second pass; the error thrown after the loop is never seen. *)
Theorem retry_wrappers_close_what_they_launch :
  forall (first second : pass),
    let outcome :=
      match passOutcome first with
      | inl found => Resolves found
      | inr _ =>
          match passOutcome second with
          | inl found => Resolves found
          | inr message => Rejects message
          end
      end in
    let brave := tryBrowserBraveSearch first second in
    let bing := tryBrowserBingSearch first second in
    fst brave = outcome /\ fst bing = outcome
    /\ closesOf (snd brave) = launchesOf (snd brave)
    /\ closesOf (snd bing) = launchesOf (snd bing)
    /\ (List.length (launchesOf (snd brave)) <= 2)%nat
    /\ (List.length (launchesOf (snd bing)) <= 2)%nat
    /\ (forall found, passOutcome first = inl found ->
          exists browser,
            launched first = inl browser
            /\ snd brave = [Launch browser; Close browser]
            /\ snd bing = [Launch browser; Close browser]).
Proof.
  intros first second outcome brave bing.
  destruct (retryLoop_two "All Brave search attempts failed" first second)
    as (Hb1 & Hb2 & Hb3 & Hb4).
  destruct (retryLoop_two "All Bing search attempts failed" first second)
    as (Hg1 & Hg2 & Hg3 & Hg4).
  cbv zeta in *. subst brave bing outcome. unfold tryBrowserBraveSearch, tryBrowserBingSearch.
  repeat (split; [assumption |]).
  intros found Hfound.
  destruct (Hb4 found Hfound) as (browser & Hl & Hbrave).
  destruct (Hg4 found Hfound) as (browser' & Hl' & Hbing).
  assert (browser' = browser) by congruence. subst browser'.
  exists browser. repeat split; assumption.
Qed.

Lemma within_app (chars a b : string) :
  within chars (a ++ b) = within chars a && within chars b.
Proof.
  induction a as [| c rest IH]; [reflexivity |].
  cbn [within append]. rewrite IH. apply andb_assoc.
Qed.

Lemma length_append (a b : string) :
  String.length (a ++ b) = (String.length a + String.length b)%nat.
Proof. induction a as [| c rest IH]; cbn; [reflexivity | rewrite IH; reflexivity]. Qed.

(** A number in [0, 1) picks one of the sixteen characters. *)
Lemma charAt_hex (r : Q) :
  (0 <= r)%Q -> (r < 1)%Q ->
  let picked :=
    charAt hexChars (Qfloor (r * inject_Z (Z.of_nat (String.length hexChars)))) in
  String.length picked = 1%nat /\ within hexChars picked = true.
Proof.
  intros H0 H1. cbv zeta.
  change (inject_Z (Z.of_nat (String.length hexChars))) with (16 # 1)%Q.
  set (z := Qfloor (r * (16 # 1))).
  assert (Hlow : (0 <= z)%Z).
  { change 0%Z with (Qfloor 0). apply Qfloor_resp_le.
    apply Qmult_le_0_compat; [exact H0 | discriminate]. }
  assert (Hhigh : (z < 16)%Z).
  { rewrite Zlt_Qlt. apply Qle_lt_trans with (r * (16 # 1))%Q; [apply Qfloor_le |].
    change (inject_Z 16) with (1 * (16 # 1))%Q.
    apply Qmult_lt_compat_r; [reflexivity | exact H1]. }
  assert (Hz : (z = 0 \/ z = 1 \/ z = 2 \/ z = 3 \/ z = 4 \/ z = 5 \/ z = 6 \/ z = 7
                \/ z = 8 \/ z = 9 \/ z = 10 \/ z = 11 \/ z = 12 \/ z = 13 \/ z = 14
                \/ z = 15)%Z) by lia.
  clearbody z.
  repeat (destruct Hz as [-> | Hz]; [split; reflexivity |]).
  subst z. split; reflexivity.
Qed.

Lemma conversationId_loop (random : nat -> Q) (indices : list nat) :
  (forall i, (0 <= random i)%Q /\ (random i < 1)%Q) ->
  forall cvid,
    within hexChars cvid = true ->
    let out :=
      fold_left (fun cvid i =>
                   cvid ++ charAt hexChars
                             (Qfloor (random i
                                      * inject_Z (Z.of_nat (String.length hexChars)))))
                indices cvid in
    String.length out = (String.length cvid + List.length indices)%nat
    /\ within hexChars out = true.
Proof.
  intros Hrange. induction indices as [| i rest IH]; intros cvid Hin; cbv zeta.
  - cbn. split; [lia | exact Hin].
  - cbn [fold_left List.length].
    destruct (Hrange i) as [H0 H1].
    destruct (charAt_hex H0 H1) as [Hlen Hhex]. cbv zeta in Hlen, Hhex.
    edestruct (IH (cvid ++ charAt hexChars
                             (Qfloor (random i
                                      * inject_Z (Z.of_nat (String.length hexChars))))))
      as [IHlen IHhex].
    { rewrite within_app, Hin, Hhex. reflexivity. }
    cbv zeta in IHlen, IHhex. split; [| exact IHhex].
    rewrite IHlen, length_append, Hlen. lia.
Qed.

(** X26.  When [Math.random] keeps to its range, 0 included and 1 excluded,
    the conversation id is 32 characters long and every one of them is an
    upper-case hexadecimal digit; in particular no [undefined] gets into
    the address of the direct Bing search. *)
Theorem generateConversationId_is_32_hex_digits :
  forall random : nat -> Q,
    (forall i, (0 <= random i)%Q /\ (random i < 1)%Q) ->
    String.length (generateConversationId random) = 32%nat
    /\ within "0123456789ABCDEF" (generateConversationId random) = true.
Proof.
  intros random Hrange. unfold generateConversationId.
  destruct (@conversationId_loop random (seq 0 32) Hrange "" eq_refl) as [Hlen Hhex].
  cbv zeta in Hlen, Hhex. split; [| exact Hhex].
  rewrite Hlen. reflexivity.
Qed.

Lemma generateConversationId_is_32_hex_digits_witness :
  String.length (generateConversationId (fun i => Qmake (Z.of_nat (i mod 16)) 16)) = 32%nat
  /\ within "0123456789ABCDEF"
            (generateConversationId (fun i => Qmake (Z.of_nat (i mod 16)) 16)) = true.
Proof.
  apply (@generateConversationId_is_32_hex_digits (fun i => Qmake (Z.of_nat (i mod 16)) 16)).
  intros i. pose proof (Nat.mod_upper_bound i 16 ltac:(discriminate)) as Hi.
  unfold Qle, Qlt. cbn [Qnum Qden]. split; lia.
Defined.
End EngineMethodsFacts.

(** ** From the pages to the answer of a search *)

Module EndToEnd.
Import Js Cheerio SearchEngine EngineMethods Shapes.
Local Open Scope string_scope.
Local Open Scope bool_scope.

Lemma nothing_presentable (numResults : Z) : presentable numResults [].
Proof. split; [cbn; lia | exists ""; constructor]. Qed.

Lemma parseBraveResults_presentable (ts : string) (doc : page) (numResults : Z) :
  presentable numResults (parseBraveResults ts doc numResults).
Proof.
  split; [| exists ts]; unfold parseBraveResults.
  - apply (@ParserFacts.selectorLoop_invariant
             (fun st => (Z.of_nat (List.length (fst st)) <= Z.max 0 numResults)%Z)).
    + intros e st st'. apply ParserMore.braveCard_within.
    + cbn. lia.
  - apply (@ParserFacts.selectorLoop_invariant (fun st => Forall (filled ts) (fst st))).
    + intros e st st'. apply ParserMore.braveCard_filled.
    + constructor.
Qed.

Lemma parseBingResults_presentable (ts : string) (doc : page) (numResults : Z) :
  presentable numResults (parseBingResults ts doc numResults).
Proof.
  split; [| exists ts]; unfold parseBingResults.
  - apply (@ParserFacts.selectorLoop_invariant
             (fun st => (Z.of_nat (List.length (fst st)) <= Z.max 0 numResults)%Z)).
    + intros e st st'. apply ParserMore.bingCard_within.
    + cbn. lia.
  - apply (@ParserFacts.selectorLoop_invariant (fun st => Forall (filled ts) (fst st))).
    + intros e st st'. apply ParserMore.bingCard_filled.
    + constructor.
Qed.

Lemma parseDuckDuckGoResults_presentable (ts : string) (doc : page) (numResults : Z) :
  presentable numResults (parseDuckDuckGoResults ts doc numResults).
Proof.
  split; [| exists ts]; unfold parseDuckDuckGoResults.
  - apply (@ParserFacts.each_invariant _
             (fun found => (Z.of_nat (List.length found) <= Z.max 0 numResults)%Z)).
    + intros e st st'. apply ParserMore.duckDuckGoCard_within.
    + cbn. lia.
  - apply (@ParserFacts.each_invariant _ (Forall (filled ts))).
    + intros e st st'. apply ParserMore.duckDuckGoCard_filled.
    + constructor.
Qed.

Lemma braveInternal_presentable (c : content + string) (numResults : Z)
      (found : list SearchResult) :
  tryBrowserBraveSearchInternal c numResults = inl found -> presentable numResults found.
Proof.
  destruct c as [c | message]; cbn; [| discriminate].
  intros H. injection H as <-. apply parseBraveResults_presentable.
Qed.

Lemma bingInternal_presentable (w : bingRun) (numResults : Z)
      (found : list SearchResult) :
  tryBrowserBingSearchInternal w numResults = inl found -> presentable numResults found.
Proof.
  unfold tryBrowserBingSearchInternal. destruct (setup w); [discriminate |].
  destruct (enhanced w) as [c | _].
  - intros H. injection H as <-. apply parseBingResults_presentable.
  - destruct (direct w) as [c | message]; [| discriminate].
    intros H. injection H as <-. apply parseBingResults_presentable.
Qed.

(** What a retry wrapper resolves with is what one of its passes found. *)
Lemma retry_resolves (giveUp : string) (first second : pass)
      (found : list SearchResult) :
  fst (retryLoop giveUp 1 [first; second] []) = Resolves found ->
  internal first = inl found \/ internal second = inl found.
Proof.
  destruct (EngineMethodsFacts.retryLoop_two giveUp first second) as [Hout _].
  cbv zeta in Hout. rewrite Hout. unfold passOutcome.
  destruct (launched first), (internal first), (launched second), (internal second);
    intros H; try discriminate; injection H as <-; auto.
Qed.

Lemma search_fromOneOf (cfg : config) (now : Z) (query : string)
      (bing brave duckDuckGo : attempt) (e : engineState)
      (r : SearchResultWithMetadata) :
  fst (search cfg now query bing brave duckDuckGo e) = Found r ->
  fromOneOf (approachesOf bing brave duckDuckGo) (results r) (engine r).
Proof.
  unfold search, RateLimiter.execute.
  destruct (RateLimiter.check now (rateLimiter e)) as [rl | w rl]; [| discriminate].
  cbv zeta.
  pose proof (@SearchMore.attemptLoop_fromOneOf cfg (sanitizeQuery query)
                (List.length (approachesOf bing brave duckDuckGo))
                (approachesOf bing brave duckDuckGo)
                (approachesOf bing brave duckDuckGo) 0 noBest (inner e)
                (fun a H => H)
                (or_introl (conj eq_refl eq_refl))) as Hloop.
  cbv zeta in Hloop.
  destruct (attemptLoop _ _ _ _ _ _ _) as [r' st']. cbn [fst] in *.
  intros H. injection H as <-. exact Hloop.
Qed.

(** X27.  From the pages to the answer.  Whatever the three engines serve
    and whichever launches, navigations and retries fail, a search that is
    admitted by the rate limiter answers with at most [numResults] results
    (none for a limit of 0 or less), each with a title, a URL and a
    description that are not empty, all stamped with the instant of one and
    the same parse, and none with an error. *)
Theorem search_answer_is_presentable :
  forall (cfg : config) (now : Z) (query : string) (numResults : Z) (e : engineState)
         (bingLaunch1 bingLaunch2 braveLaunch1 braveLaunch2 : BrowserPool.Browser + string)
         (bingRun1 bingRun2 : bingRun) (bravePage1 bravePage2 : content + string)
         (stamp : string) (response : option page) (r : SearchResultWithMetadata),
    fst (search cfg now query
           (fst (tryBrowserBingSearch
                   (mkPass bingLaunch1 (tryBrowserBingSearchInternal bingRun1 numResults))
                   (mkPass bingLaunch2 (tryBrowserBingSearchInternal bingRun2 numResults))))
           (fst (tryBrowserBraveSearch
                   (mkPass braveLaunch1 (tryBrowserBraveSearchInternal bravePage1 numResults))
                   (mkPass braveLaunch2 (tryBrowserBraveSearchInternal bravePage2 numResults))))
           (tryDuckDuckGoSearch stamp response numResults)
           e)
    = Found r ->
    presentable numResults (results r).
Proof.
  intros cfg now query numResults e bingLaunch1 bingLaunch2 braveLaunch1 braveLaunch2
         bingRun1 bingRun2 bravePage1 bravePage2 stamp response r Hfound.
  destruct (search_fromOneOf _ _ _ _ _ _ _ Hfound)
    as [[-> _] | (a & Hin & Hm & _ & _)]; [apply nothing_presentable |].
  destruct Hin as [<- | [<- | [<- | []]]]; cbn [method] in Hm.
  - apply retry_resolves in Hm. cbn [internal] in Hm.
    destruct Hm as [Hm | Hm]; exact (bingInternal_presentable _ _ Hm).
  - apply retry_resolves in Hm. cbn [internal] in Hm.
    destruct Hm as [Hm | Hm]; exact (braveInternal_presentable _ _ Hm).
  - unfold tryDuckDuckGoSearch in Hm. destruct response as [doc |]; [| discriminate].
    injection Hm as <-. apply parseDuckDuckGoResults_presentable.
Qed.

Lemma search_answer_is_presentable_witness :
  presentable 5 [newResult "Rust" "https://www.rust-lang.org/"
                           "No description available" "t"].
Proof.
  apply (@search_answer_is_presentable defaultConfig 0 "rust" 5 Scenarios.freshEngine
           (inl 1%nat) (inl 2%nat) (inr "launch failed") (inr "launch failed")
           (mkBingRun None (inl (mkContent Scenarios.bingAbsolutePage "t"))
                      (inr "not reached"))
           (mkBingRun None (inr "not reached") (inr "not reached"))
           (inr "not reached") (inr "not reached")
           "t" None
           (mkMeta [newResult "Rust" "https://www.rust-lang.org/"
                              "No description available" "t"]
                   "Browser Bing")).
  vm_compute. reflexivity.
Defined.
End EndToEnd.
